(** * VeeamPhaser: container decoding engine

    A shallow embedding of the metadata core of the VBK/VIB recovery
    tool (src/core/CMeta.cpp, src/core/structs.hpp, src/Veeam/VBK/*.hpp,
    src/processing/ExtractContext.cpp, src/utils/crypto.cpp) and the
    properties of it that the specification states.

    Conventions.  Machine integers are [Z] with the wrap-around written
    out ([u32], [u64], [s32], [s64]).  A [buf_t] is a list of bytes; packed
    records are decoded from it little-endian at the offsets the packed
    structs give them.  Exceptions are the [Thrown] case of [outcome].
    Libraries the tool links against (LZ4, zlib, zstd, MD5, vcrc32, the
    AES-NI instructions) and the files it reads are parameters.

    The statements of the specification are cited by their number
    (C1 to C10).  Where the code differs from a statement, the difference
    is shown on a sample container; where the difference is the design of
    the code, the statement the code satisfies is the one proved. *)

From Stdlib Require Import ZArith Lia Bool String.
From Stdlib.Strings Require Byte.
From stdpp Require Import base list gmap.

Local Open Scope Z_scope.

(** ** Bytes and little-endian fields *)

Module Bytes.

Abbreviation byte := Byte.byte.
Abbreviation buf_t := (list Byte.byte).

Definition byte_to_Z (b : byte) : Z := Z.of_N (Byte.to_N b).

Definition byte_of_Z (z : Z) : byte :=
  match Byte.of_N (Z.to_N (z mod 256)) with
  | Some b => b
  | None => Byte.x00
  end.

Definition u8  (z : Z) : Z := z mod 2^8.
Definition u32 (z : Z) : Z := z mod 2^32.
Definition u64 (z : Z) : Z := z mod 2^64.

(** Two's complement reading of a [w]-bit pattern. *)
Definition signed (w : Z) (z : Z) : Z :=
  let r := z mod 2^w in if r <? 2^(w-1) then r else r - 2^w.

Definition s32 : Z -> Z := signed 32.
Definition s64 : Z -> Z := signed 64.

(** Value of a little-endian byte string. *)
Fixpoint le_Z (bs : buf_t) : Z :=
  match bs with
  | [] => 0
  | b :: r => byte_to_Z b + 256 * le_Z r
  end.

(** Little-endian encoding on [n] bytes. *)
Fixpoint le_bytes (n : nat) (z : Z) : buf_t :=
  match n with
  | O => []
  | S k => byte_of_Z z :: le_bytes k (z / 256)
  end.

(** [n] bytes at offset [off].  A C++ read that runs past the end of the
    vector is undefined; the model reads the bytes that are there. *)
Definition slice (off n : nat) (buf : buf_t) : buf_t := take n (drop off buf).

Definition rd_u8  (off : nat) (buf : buf_t) : Z := le_Z (slice off 1 buf).
Definition rd_u32 (off : nat) (buf : buf_t) : Z := le_Z (slice off 4 buf).
Definition rd_u64 (off : nat) (buf : buf_t) : Z := le_Z (slice off 8 buf).
Definition rd_u128 (off : nat) (buf : buf_t) : Z := le_Z (slice off 16 buf).
Definition rd_s32 (off : nat) (buf : buf_t) : Z := s32 (rd_u32 off buf).
Definition rd_s64 (off : nat) (buf : buf_t) : Z := s64 (rd_u64 off buf).

Definition len (buf : buf_t) : Z := Z.of_nat (length buf).

Definition all_eq (b : byte) (buf : buf_t) : bool :=
  forallb (fun x => Z.eqb (byte_to_Z x) (byte_to_Z b)) buf.

(** [std::vector::resize]: truncate, or extend with zero bytes. *)
Definition resize (n : nat) (buf : buf_t) : buf_t :=
  take n buf ++ replicate (n - length buf) Byte.x00.

End Bytes.
Import Bytes.

(** Result of a call that may throw [std::runtime_error]. *)
Inductive outcome (A : Type) : Type :=
| Done (a : A)
| Thrown (msg : string).
Arguments Done {A} a.
Arguments Thrown {A} msg.

Definition bind {A B} (x : outcome A) (f : A -> outcome B) : outcome B :=
  match x with
  | Done a => f a
  | Thrown m => Thrown m
  end.

(** ** Veeam::VBK (src/Veeam/VBK.hpp) *)

Module VBK.

Definition PAGE_SIZE : Z := 0x1000.
Definition MAX_BANKS : Z := 0xffa0.
Definition BLOCK_SIZE : Z := 0x100000.

Record PhysPageId : Type := mkPPI { page_id : Z; bank_id : Z }.

(** [PhysPageId(bank_id, page_id)]; also the default constructor (-1,-1). *)
Definition PPI (bank page : Z) : PhysPageId := mkPPI page bank.
Definition INVALID_PPI : PhysPageId := PPI (-1) (-1).
Definition DEFAULT_DATASTORE_PPI : PhysPageId := PPI 0 1.

Definition ppi_sizeof : nat := 8.

(** The packed struct in memory: [page_id] first, then [bank_id]. *)
Definition rd_ppi (off : nat) (buf : buf_t) : PhysPageId :=
  mkPPI (rd_s32 off buf) (rd_s32 (off + 4) buf).

Definition ppi_bytes (p : PhysPageId) : buf_t :=
  le_bytes 4 (page_id p) ++ le_bytes 4 (bank_id p).

Definition ppi_empty (p : PhysPageId) : bool :=
  (bank_id p =? -1) && (page_id p =? -1).

Definition ppi_zero (p : PhysPageId) : bool :=
  (bank_id p =? 0) && (page_id p =? 0).

Definition ppi_valid (p : PhysPageId) : bool :=
  (-1 <? bank_id p) && (bank_id p <=? MAX_BANKS) &&
  (-1 <? page_id p) && (page_id p <=? 0x400).

Definition ppi_eqb (a b : PhysPageId) : bool :=
  (page_id a =? page_id b) && (bank_id a =? bank_id b).

End VBK.
Import VBK.

(** ** FileHeader (src/Veeam/VBK/FileHeader.hpp) *)

Module FileHeader.

(** [sizeof(CSlot::BankInfo)]: packed [uint32_t crc; int64_t offset;
    uint32_t size]. *)
Definition BankInfo_sizeof : Z := 4 + 8 + 4.

Record t : Type := mk {
  version : Z;
  inited : Z;
  digest_type_len : Z;
  digest_type : buf_t;
  slot_fmt : Z;
  std_block_size : Z;
  cluster_align : Z
}.

Definition max_banks (h : t) : Z :=
  if slot_fmt h =? 0 then 0xf8
  else if (slot_fmt h =? 5) || (slot_fmt h =? 9) then 0x7f00
  else 0.

Definition slot_size (h : t) : Z :=
  u64 (Z.land (u64 (Z.land (u64 (max_banks h * BankInfo_sizeof)) 0xFFFFFFF0 + 120))
              0xFFFFF000 + PAGE_SIZE).

End FileHeader.

(** ** CPageStack (src/Veeam/VBK/CPageStack.hpp) *)

Module CPageStack.

Record t : Type := mk {
  m_pageTables : list PhysPageId;
  m_pageIds : list PhysPageId;
  m_finalized : bool
}.

(** A default-constructed stack. *)
Definition fresh : t := mk [] [] false.

Definition PPIS_PER_PAGE : nat := 512.

Definition valid (s : t) : bool :=
  m_finalized s && negb (bool_decide (m_pageIds s = [])).

Definition size (s : t) : outcome Z :=
  if m_finalized s then Done (Z.of_nat (length (m_pageIds s)))
  else Thrown "PageStack is not finalized, cannot get size".

(** The [while] of [calc_idx]: [reqTableNum *= 4] as long as
    [page_idx+1 > 510*reqTableNum], in [size_t] arithmetic.  The fuel is
    the number of iterations allowed. *)
Fixpoint reqTableNum_loop (fuel : nat) (page_idx req : Z) : Z :=
  match fuel with
  | O => req
  | S f =>
      if u64 (510 * req) <? u64 (page_idx + 1)
      then reqTableNum_loop f page_idx (u64 (req * 4))
      else req
  end.

Definition calc_idx (page_idx : Z) : Z :=
  let reqTableNum := u64 (reqTableNum_loop 32 page_idx 1 + page_idx) in
  let tableIdx := reqTableNum / 511 in
  let tableOfs := reqTableNum mod 511 in
  u64 (512 * tableIdx + tableOfs + 1).

(** [std::vector<PhysPageId>::resize]: new entries are [PhysPageId()]. *)
Definition resize_ids (n : nat) (ids : list PhysPageId) : list PhysPageId :=
  take n ids ++ replicate (n - length ids) INVALID_PPI.

(** The [for] of [finalize], over the indices [idxs]. *)
Fixpoint fill (tables : list PhysPageId) (idxs : list nat) (ids : list PhysPageId)
  : list PhysPageId :=
  match idxs with
  | [] => ids
  | i :: r =>
      let idx := calc_idx (Z.of_nat i) in
      let ids' :=
        if idx <? Z.of_nat (length tables)
        then <[i := default INVALID_PPI (tables !! Z.to_nat idx)]> ids
        else ids in
      fill tables r ids'
  end.

(** [while (i>0 && !m_pageIds[i-1].valid()) --i;] *)
Fixpoint trim (ids : list PhysPageId) (i : nat) : nat :=
  match i with
  | O => O
  | S j =>
      if negb (ppi_valid (default INVALID_PPI (ids !! j))) then trim ids j else i
  end.

Definition finalize (s : t) : outcome t :=
  if m_finalized s then Thrown "PageStack is already finalized"
  else
    let n := length (m_pageTables s) in
    let ids := fill (m_pageTables s) (seq 0 n) (resize_ids n (m_pageIds s)) in
    let i := trim ids n in
    Done (mk (m_pageTables s) (resize_ids i ids) true).

(** [begin()]/[end()]: the range a [for (ppi : stack)] walks. *)
Definition iter (s : t) : outcome (list PhysPageId) :=
  if m_finalized s then Done (m_pageIds s)
  else Thrown "PageStack is not finalized, cannot iterate over pages".

(** The page seen as [PAGE_SIZE / sizeof(PhysPageId)] page ids. *)
Definition page_ppis (page : buf_t) : list PhysPageId :=
  map (fun i => rd_ppi (i * 8) page) (seq 0 PPIS_PER_PAGE).

Definition add_page (s : t) (page : buf_t) : outcome t :=
  if negb (len page =? PAGE_SIZE) then Thrown "invalid page size"
  else if m_finalized s then Thrown "PageStack is finalized, cannot add more pages"
  else Done (mk (m_pageTables s ++ page_ppis page) (m_pageIds s) false).

End CPageStack.

(** ** Records of src/core/structs.hpp and the block descriptors *)

Module Structs.

Definition digest_t := Z.

Definition BL_BLOCK_IN_BLOB : Z := 4.

Definition CT_NONE : Z := 0xff.
Definition CT_RLE : Z := 2.
Definition CT_ZLIB_HI : Z := 3.
Definition CT_ZLIB_LO : Z := 4.
Definition CT_LZ4 : Z := 7.
Definition CT_ZSTD3 : Z := 8.
Definition CT_ZSTD9 : Z := 9.

Definition VALID_COMP_TYPE (x : Z) : bool :=
  (x =? CT_NONE) || ((CT_RLE <=? x) && (x <=? CT_ZSTD9)).

(** Packed, [sizeof == 0x3c]. *)
Record BlockDescriptor : Type := mkBD {
  location : Z;   (* uint8_t  @0  *)
  usageCnt : Z;   (* uint32_t @1  *)
  offset : Z;     (* uint64_t @5  *)
  allocSize : Z;  (* uint32_t @13 *)
  dedup : Z;      (* uint8_t  @17 *)
  digest : Z;     (* digest_t @18 *)
  compType : Z;   (* uint8_t  @34 *)
  unused : Z;     (* uint8_t  @35 *)
  compSize : Z;   (* uint32_t @36 *)
  srcSize : Z;    (* uint32_t @40 *)
  keysetID : Z    (* digest_t @44 *)
}.

Definition bd_sizeof : nat := 60.

Definition rd_bd (off : nat) (buf : buf_t) : BlockDescriptor :=
  mkBD (rd_u8 off buf) (rd_u32 (off + 1) buf) (rd_u64 (off + 5) buf)
       (rd_u32 (off + 13) buf) (rd_u8 (off + 17) buf) (rd_u128 (off + 18) buf)
       (rd_u8 (off + 34) buf) (rd_u8 (off + 35) buf) (rd_u32 (off + 36) buf)
       (rd_u32 (off + 40) buf) (rd_u128 (off + 44) buf).

Definition bd_bytes (d : BlockDescriptor) : buf_t :=
  le_bytes 1 (location d) ++ le_bytes 4 (usageCnt d) ++ le_bytes 8 (offset d) ++
  le_bytes 4 (allocSize d) ++ le_bytes 1 (dedup d) ++ le_bytes 16 (digest d) ++
  le_bytes 1 (compType d) ++ le_bytes 1 (unused d) ++ le_bytes 4 (compSize d) ++
  le_bytes 4 (srcSize d) ++ le_bytes 16 (keysetID d).

(** [operator==]: [memcmp] over the packed record, i.e. every field. *)
Definition bd_eqb (a b : BlockDescriptor) : bool :=
  (location a =? location b) && (usageCnt a =? usageCnt b) &&
  (offset a =? offset b) && (allocSize a =? allocSize b) &&
  (dedup a =? dedup b) && (digest a =? digest b) &&
  (compType a =? compType b) && (unused a =? unused b) &&
  (compSize a =? compSize b) && (srcSize a =? srcSize b) &&
  (keysetID a =? keysetID b).

Definition bd_zero : BlockDescriptor := mkBD 0 0 0 0 0 0 0 0 0 0 0.

(** The record whose 60 bytes are all 0xff. *)
Definition bd_ones : BlockDescriptor :=
  mkBD (2^8 - 1) (2^32 - 1) (2^64 - 1) (2^32 - 1) (2^8 - 1) (2^128 - 1)
       (2^8 - 1) (2^8 - 1) (2^32 - 1) (2^32 - 1) (2^128 - 1).

Definition bd_valid (d : BlockDescriptor) : bool :=
  (location d =? BL_BLOCK_IN_BLOB) && negb (allocSize d =? 0) &&
  (compSize d <=? allocSize d) &&
  ( (negb (digest d =? 0) && negb (compSize d =? 0) && negb (srcSize d =? 0) &&
     VALID_COMP_TYPE (compType d))
  || ((digest d =? 0) && (compSize d =? 0) && (srcSize d =? 0) &&
      (compType d =? 0) && (dedup d =? 0)) ).

Definition bd_empty (d : BlockDescriptor) : bool :=
  bd_eqb d bd_zero || bd_eqb d bd_ones.

(** Packed, [sizeof == 0x2e]. *)
Record VBlockDesc : Type := mkVB {
  vb_size : Z;      (* uint32_t @0  *)
  vb_type : Z;      (* uint8_t  @4  *)
  vb_hash : Z;      (* digest_t @5  *)
  vb_id : Z;        (* uint64_t @21 *)
  vib_offset : Z;   (* uint64_t @29 *)
  vb_qw2 : Z;       (* uint64_t @37 *)
  vb_t2 : Z         (* uint8_t  @45 *)
}.

Definition vb_sizeof : nat := 46.

(** [*(VBlockDesc* )p]: the 46 bytes at [off] read as a [VBlockDesc]. *)
Definition rd_vb (off : nat) (buf : buf_t) : VBlockDesc :=
  mkVB (rd_u32 off buf) (rd_u8 (off + 4) buf) (rd_u128 (off + 5) buf)
       (rd_u64 (off + 21) buf) (rd_u64 (off + 29) buf) (rd_u64 (off + 37) buf)
       (rd_u8 (off + 45) buf).

Definition vb_zero : VBlockDesc := mkVB 0 0 0 0 0 0 0.

Definition EMPTY_BLOCK_DIGEST : Z := 0x2c3e15390f43270c * 2^64 + 0xd872560a361bd8b6.
Definition ZERO_BLOCK_DIGEST : Z := 0.

Definition vb_is_empty (b : VBlockDesc) : bool :=
  (vb_hash b =? EMPTY_BLOCK_DIGEST) || (vb_hash b =? ZERO_BLOCK_DIGEST).

Definition vb_is_patch (b : VBlockDesc) : bool :=
  (vb_size b =? BLOCK_SIZE) && negb (vib_offset b =? 0).

Definition vb_is_zero (b : VBlockDesc) : bool :=
  (vb_size b =? 0) && (vb_type b =? 0) && (vb_hash b =? 0) && (vb_id b =? 0) &&
  (vib_offset b =? 0) && (vb_qw2 b =? 0) && (vb_t2 b =? 0).

Definition vb_is_sparse (b : VBlockDesc) : bool := vb_is_zero b.

(** [SPatchBlockDescriptorV7], packed, [sizeof == 0x35]:
    size @0, type @4, digest @5, id @21, block_idx @29, digest2 @37. *)
Definition patch_sizeof : nat := 53.

(** [SPatchBlockDescriptorV7::block_idx], an [int64_t] at offset 29. *)
Definition rd_patch_block_idx (off : nat) (buf : buf_t) : Z := rd_s64 (off + 29) buf.

(** [SFibBlockDescriptorV7], packed, [sizeof == 0x2e]. *)
Definition fib_sizeof : nat := 46.

(** [SMetaTableDescriptor], packed: ppi @0, block_size @8, nBlocks @16. *)
Record SMetaTableDescriptor : Type := mkMD {
  md_ppi : PhysPageId;
  md_block_size : Z;
  md_nBlocks : Z
}.

Definition md_sizeof : nat := 24.
Definition MAX_BLOCKS : Z := 0x440.

Definition rd_md (off : nat) (buf : buf_t) : SMetaTableDescriptor :=
  mkMD (rd_ppi off buf) (rd_s64 (off + 8) buf) (rd_s64 (off + 16) buf).

Definition md_is_sparse (d : SMetaTableDescriptor) : bool :=
  (md_nBlocks d =? 0) && ppi_empty (md_ppi d) && (md_block_size d =? BLOCK_SIZE).

Definition md_valid (d : SMetaTableDescriptor) : bool :=
  if md_nBlocks d =? 0 then md_is_sparse d
  else if md_nBlocks d =? 1 then
    ppi_valid (md_ppi d) && negb (ppi_zero (md_ppi d)) &&
    (0 <? md_block_size d) && (md_block_size d <? BLOCK_SIZE)
  else
    ppi_valid (md_ppi d) && negb (ppi_zero (md_ppi d)) &&
    (md_block_size d =? BLOCK_SIZE) && (0 <? md_nBlocks d) &&
    (md_nBlocks d <=? MAX_BLOCKS).

(** [lz_hdr], packed: magic @0, crc @4, srcSize @8. *)
Record lz_hdr : Type := mkLZ { lz_magic : Z; lz_crc : Z; lz_srcSize : Z }.

Definition lz_hdr_sizeof : nat := 12.
Definition LZ_START_MAGIC : Z := 0x0f800000f.

Definition rd_lz_hdr (buf : buf_t) : lz_hdr :=
  mkLZ (rd_u32 0 buf) (rd_u32 4 buf) (rd_u32 8 buf).

Definition lz_valid (h : lz_hdr) : bool :=
  (lz_magic h =? LZ_START_MAGIC) && (0 <? lz_srcSize h) && (lz_srcSize h <=? BLOCK_SIZE).

Inductive EFileType : Type :=
| FT_SUBFOLDER | FT_EXT_FIB | FT_INT_FIB | FT_PATCH | FT_INCREMENT.

(** [buf_t::for_each<T>]: [size()/sizeof(T)] records, until the callback
    returns false.  The callback gets the offset of its record. *)
Fixpoint for_each_at {S : Type} (offs : list nat)
    (f : nat -> S -> outcome (S * bool)) (s : S) : outcome S :=
  match offs with
  | [] => Done s
  | o :: r =>
      match f o s with
      | Thrown e => Thrown e
      | Done (s', true) => for_each_at r f s'
      | Done (s', false) => Done s'
      end
  end.

Definition record_offsets (step : nat) (buf : buf_t) : list nat :=
  map (fun i => (i * step)%nat) (seq 0 (length buf / step)).

Definition for_each {S : Type} (step : nat) (buf : buf_t)
    (f : nat -> S -> outcome (S * bool)) (s : S) : outcome S :=
  for_each_at (record_offsets step buf) f s.

End Structs.
Import Structs.

(** ** CMeta: the page store (src/core/CMeta.cpp) *)

Module CMeta.

Record t : Type := mk {
  m_banks : list buf_t;
  m_ignore_errors : bool
}.

(** [(ppi.page_id+1)*PAGE_SIZE]: the sum is an [int], converted to
    [size_t] for the product. *)
Definition page_offset (ppi : PhysPageId) : Z :=
  u64 (u64 (s32 (page_id ppi + 1)) * PAGE_SIZE).

(** [m_banks[ppi.bank_id]]. *)
Definition bank_at (m : t) (ppi : PhysPageId) : buf_t :=
  default [] (m_banks m !! Z.to_nat (bank_id ppi)).

(** Messages of the logger that the statements below talk about. *)
Inductive log_event : Type :=
| LogError (msg : string)
| LogWarn (msg : string).

(** [log_or_die(ignore_errors, msg)]: log, and throw unless errors are
    ignored. *)
Definition log_or_die (ignore_errors : bool) (msg : string)
    (log : list log_event) : outcome (list log_event) :=
  if ignore_errors then Done (log ++ [LogError msg]) else Thrown msg.

(** [VFileAttribs] (packed, 0x34 bytes) and [VFile]. *)
Record VFileAttribs : Type := mkAttribs {
  dw0 : Z; dw1 : Z; dw2 : Z;
  ppi : PhysPageId;
  nBlocks : Z;       (* int64_t *)
  filesize : Z;      (* int64_t *)
  vib_updsize : Z;
  qw0 : Z
}.

Record VFile : Type := mkVFile {
  type : EFileType;
  name : string;
  attribs : VFileAttribs
}.

Definition is_dir (f : VFile) : bool :=
  match type f with FT_SUBFOLDER => true | _ => false end.

Definition is_diff (f : VFile) : bool :=
  match type f with FT_INCREMENT | FT_PATCH => true | _ => false end.

(** [std::vector<VBlockDesc>::max_size()]; a [reserve] beyond it throws
    [std::length_error].  Running out of memory below that bound
    ([std::bad_alloc]) is outside the model. *)
Definition VAllBlocks_max_size : Z := (2^63 - 1) / Z.of_nat vb_sizeof.

(** The closing [while] of [get_file_blocks], on the reversed vector:
    [pop_back] while there are more than [nBlocks] blocks and the last
    one is sparse.  The comparison is between [size_t] values. *)
Fixpoint pop_sparse (n : Z) (rev_blocks : list VBlockDesc) : list VBlockDesc :=
  match rev_blocks with
  | [] => []
  | b :: r =>
      if (u64 n <? Z.of_nat (length rev_blocks)) && vb_is_sparse b
      then pop_sparse n r
      else rev_blocks
  end.

Definition trim_sparse (n : Z) (blocks : list VBlockDesc) : list VBlockDesc :=
  rev (pop_sparse n (rev blocks)).

(** [BlockDescriptors], an [unordered_map] from digest to descriptor, is
    [gmap Z BlockDescriptor]. *)

(** One record of a datastore page, as the body of the inner [for] of
    [read_datastore] treats it. *)
Definition add_descriptor (ignore_errors : bool) (bd : BlockDescriptor)
    (st : gmap Z BlockDescriptor * list log_event)
  : outcome (gmap Z BlockDescriptor * list log_event) :=
  let '(bds, log) := st in
  if bd_empty bd then Done (bds, log)
  else if bd_valid bd then
    if negb (digest bd =? 0) then
      let log' :=
        match bds !! digest bd with
        | Some old =>
            if negb (bd_eqb old bd)
            then log ++ [LogWarn "duplicate BD: old"; LogWarn "duplicate BD: new"]
            else log
        | None => log
        end in
      Done (<[digest bd := bd]> bds, log')
    else Done (bds, log)
  else
    match log_or_die ignore_errors "invalid BD" log with
    | Thrown e => Thrown e
    | Done log' =>
        if negb (digest bd =? 0) && bool_decide (bds !! digest bd = None)
        then Done (<[digest bd := bd]> bds, log')
        else Done (bds, log')
    end.

(** The [PAGE_SIZE/sizeof(BlockDescriptor)] records of a page. *)
Definition page_descriptors (page : buf_t) : list BlockDescriptor :=
  map (fun i => rd_bd (i * bd_sizeof) page)
      (seq 0 (Z.to_nat (PAGE_SIZE / Z.of_nat bd_sizeof))).

Fixpoint add_descriptors (ignore_errors : bool) (ds : list BlockDescriptor)
    (st : gmap Z BlockDescriptor * list log_event)
  : outcome (gmap Z BlockDescriptor * list log_event) :=
  match ds with
  | [] => Done st
  | d :: r =>
      match add_descriptor ignore_errors d st with
      | Thrown e => Thrown e
      | Done st' => add_descriptors ignore_errors r st'
      end
  end.

Section Memory.

(** What [memcpy] finds behind the end of a bank's storage when the bank
    stops inside the requested page. *)
Variable beyond : buf_t -> buf_t.

(** [get_page(ppi, dst)]: the flag, the new [dst] and the object itself,
    none of whose members the body assigns. *)
Definition get_page (m : t) (ppi : PhysPageId) (dst : buf_t) : bool * buf_t * t :=
  if Z.of_nat (length (m_banks m)) <=? u32 (bank_id ppi) then (false, [], m)
  else if len (bank_at m ppi) <=? page_offset ppi then (false, [], m)
  else
    let src := drop (Z.to_nat (page_offset ppi)) (bank_at m ppi ++ beyond (bank_at m ppi)) in
    (true, take (Z.to_nat PAGE_SIZE) (src ++ replicate (Z.to_nat PAGE_SIZE) Byte.x00), m).

Definition fetch (m : t) (ppi : PhysPageId) : option buf_t :=
  match get_page m ppi [] with
  | (true, dst, _) => Some dst
  | (false, _, _) => None
  end.

(** [visited_index_pages.find(ppi) != end()] *)
Definition visited_mem (ppi : PhysPageId) (visited : list PhysPageId) : bool :=
  existsb (ppi_eqb ppi) visited.

(** The [while (ppi.valid())] of [get_page_stack]; [None] when the fuel
    runs out before the loop ends. *)
Fixpoint walk (fuel : nat) (m : t) (ppi0 ppi : PhysPageId)
    (visited : list PhysPageId) (first_page : bool) (stack : CPageStack.t)
  : option (outcome CPageStack.t) :=
  match fuel with
  | O => None
  | S f =>
      if negb (ppi_valid ppi) then Some (Done stack)
      else
        match fetch m ppi with
        | None => Some (Done stack)
        | Some page =>
            if first_page && negb (ppi_eqb (rd_ppi 8 page) ppi0)
            then Some (Done stack)
            else if negb first_page && visited_mem ppi visited
            then Some (Done stack)
            else
              match CPageStack.add_page stack page with
              | Thrown e => Some (Thrown e)
              | Done stack' => walk f m ppi0 (rd_ppi 0 page) (ppi :: visited) false stack'
              end
        end
  end.

(** Every turn of the loop visits a new page of a loaded bank, and a bank
    has at most 0x401 valid page ids. *)
Definition walk_fuel (m : t) : nat := S (length (m_banks m) * 1025).

Definition get_page_stack (m : t) (ppi0 : PhysPageId) : outcome CPageStack.t :=
  match walk (walk_fuel m) m ppi0 ppi0 [] true CPageStack.fresh with
  | Some r => bind r CPageStack.finalize
  | None => Thrown "get_page_stack: no result"
  end.

(** The [for (ppi : page_stack)] of [read_datastore]. *)
Fixpoint read_pages (m : t) (ids : list PhysPageId)
    (st : gmap Z BlockDescriptor * list log_event)
  : outcome (gmap Z BlockDescriptor * list log_event) :=
  match ids with
  | [] => Done st
  | p :: r =>
      match fetch m p with
      | Some page =>
          match add_descriptors (m_ignore_errors m) (page_descriptors page) st with
          | Thrown e => Thrown e
          | Done st' => read_pages m r st'
          end
      | None =>
          match log_or_die (m_ignore_errors m) "failed to get page" (snd st) with
          | Thrown e => Thrown e
          | Done log' => read_pages m r (fst st, log')
          end
      end
  end.

(** [read_datastore(ppi0)], with the messages it logs. *)
Definition read_datastore (m : t) (ppi0 : PhysPageId)
  : outcome (gmap Z BlockDescriptor * list log_event) :=
  match get_page_stack m ppi0 with
  | Thrown e => Thrown e
  | Done page_stack =>
      let log := if negb (CPageStack.valid page_stack)
                 then [LogWarn "empty PageStack"] else [] in
      match CPageStack.size page_stack with
      | Thrown e => Thrown e
      | Done _ =>
          match CPageStack.iter page_stack with
          | Thrown e => Thrown e
          | Done ids => read_pages m ids (∅, log)
          end
      end
  end.

(** Callback of [for_each<SPatchBlockDescriptorV7>]. *)
Definition push_patch (n : Z) (buf1 : buf_t) (off : nat) (blocks : list VBlockDesc)
  : outcome (list VBlockDesc * bool) :=
  let blocks' := blocks ++ [rd_vb off buf1] in
  Done (blocks', s64 (Z.of_nat (length blocks')) <? n).

(** Callback of [for_each<SFibBlockDescriptorV7>]; the state carries
    [nBlocks2]. *)
Definition push_fib (md : SMetaTableDescriptor) (buf2 : buf_t) (off : nat)
    (st : list VBlockDesc * Z) : outcome (list VBlockDesc * Z * bool) :=
  let '(blocks, nBlocks2) := st in
  let nBlocks2' := s64 (nBlocks2 + 1) in
  Done (blocks ++ [rd_vb off buf2], nBlocks2', nBlocks2' <? md_nBlocks md).

(** [for (auto ppi2 : get_page_stack(pMetaDesc->ppi))] *)
Fixpoint fib_pages (m : t) (md : SMetaTableDescriptor) (ids : list PhysPageId)
    (st : list VBlockDesc * Z) : outcome (list VBlockDesc * Z) :=
  match ids with
  | [] => Done st
  | p :: r =>
      match fetch m p with
      | None => fib_pages m md r st
      | Some buf2 =>
          match for_each fib_sizeof buf2 (push_fib md buf2) st with
          | Thrown e => Thrown e
          | Done st' => fib_pages m md r st'
          end
      end
  end.

(** Callback of [for_each<SMetaTableDescriptor>]. *)
Definition push_meta (m : t) (buf1 : buf_t) (off : nat) (blocks : list VBlockDesc)
  : outcome (list VBlockDesc * bool) :=
  let md := rd_md off buf1 in
  if negb (md_valid md) then Done (blocks, false)
  else if md_is_sparse md
  then Done (blocks ++ replicate (Z.to_nat MAX_BLOCKS) vb_zero, true)
  else
    match get_page_stack m (md_ppi md) with
    | Thrown e => Thrown e
    | Done ps2 =>
        match CPageStack.iter ps2 with
        | Thrown e => Thrown e
        | Done ids =>
            match fib_pages m md ids (blocks, 0) with
            | Thrown e => Thrown e
            | Done (blocks', _) => Done (blocks', true)
            end
        end
    end.

(** The [for (ppi1 : ps1)] of [get_file_blocks]. *)
Fixpoint collect (m : t) (vfi : VFile) (ids : list PhysPageId)
    (blocks : list VBlockDesc) : outcome (list VBlockDesc) :=
  match ids with
  | [] => Done blocks
  | ppi1 :: r =>
      if negb (ppi_valid ppi1) then collect m vfi r blocks
      else
        match fetch m ppi1 with
        | None => collect m vfi r blocks
        | Some buf1 =>
            let step :=
              match type vfi with
              | FT_INCREMENT =>
                  for_each patch_sizeof buf1 (push_patch (nBlocks (attribs vfi)) buf1) blocks
              | _ => for_each md_sizeof buf1 (push_meta m buf1) blocks
              end in
            match step with
            | Thrown e => Thrown e
            | Done blocks' => collect m vfi r blocks'
            end
        end
  end.

(** The blocks gathered by the traversal, before the trailing sparse
    blocks are removed. *)
Definition collected_blocks (m : t) (vfi : VFile) : outcome (list VBlockDesc) :=
  if VAllBlocks_max_size <? u64 (nBlocks (attribs vfi))
  then Thrown "vector::reserve"
  else
    match get_page_stack m (ppi (attribs vfi)) with
    | Thrown e => Thrown e
    | Done ps1 =>
        match CPageStack.iter ps1 with
        | Thrown e => Thrown e
        | Done ids => collect m vfi ids []
        end
    end.

Definition get_file_blocks (m : t) (vfi : VFile) : outcome (list VBlockDesc) :=
  match collected_blocks m vfi with
  | Thrown e => Thrown e
  | Done blocks => Done (trim_sparse (nBlocks (attribs vfi)) blocks)
  end.

End Memory.

End CMeta.

(** ** vcrc32 *)

Module Crc.

Fixpoint crc_bits (n : nat) (c : Z) : Z :=
  match n with
  | O => c
  | S k =>
      crc_bits k (Z.lxor (Z.shiftr c 1) (if Z.testbit c 0 then 0x82F63B78 else 0))
  end.

Fixpoint crc_bytes (c : Z) (buf : buf_t) : Z :=
  match buf with
  | [] => c
  | b :: r => crc_bytes (crc_bits 8 (Z.lxor c (byte_to_Z b))) r
  end.

(** Modelled from the spec: [vcrc32(crc, buf, len)], an external C
    function whose source is not under src/.  The specification pins it
    by the values of tests/vcrc32_test.cpp; CRC-32 with the reflected
    Castagnoli polynomial reproduces each of them.  The functions of the
    core take [vcrc32] as a parameter, and [crc32c] is the instance they
    are evaluated with. *)
Definition crc32c (crc : Z) (buf : buf_t) : Z :=
  Z.lxor (crc_bytes (Z.lxor (u32 crc) 0xFFFFFFFF) buf) 0xFFFFFFFF.

End Crc.

(** ** CSlot (src/Veeam/VBK/CSlot.hpp)

    A [CSlot] is a header laid over a byte buffer, followed by
    [max_banks] records [BankInfo]. *)

Module CSlot.

(** [sizeof(CSlot)]: the packed members take 124 bytes
    (crc 4, has_snapshot 4, snapshotDescriptor 108, max_banks 4,
    allocated_banks 4) and [aligned(8)] rounds the size up. *)
Definition members_sizeof : Z := 4 + 4 + 108 + 4 + 4.
Definition sizeof : Z := 128.

Definition crc (s : buf_t) : Z := rd_u32 0 s.
Definition has_snapshot (s : buf_t) : Z := rd_u32 4 s.
Definition max_banks (s : buf_t) : Z := rd_u32 116 s.
Definition allocated_banks (s : buf_t) : Z := rd_u32 120 s.

Definition size (s : buf_t) : Z :=
  u64 (sizeof + max_banks s * FileHeader.BankInfo_sizeof).

Definition valid_fast (s : buf_t) : bool :=
  negb (crc s =? 0) && (has_snapshot s =? 1) &&
  (0 <? max_banks s) && (max_banks s <=? MAX_BANKS) &&
  (allocated_banks s <=? max_banks s).

Section Crc.

Variable vcrc32 : Z -> buf_t -> Z.

(** The bytes handed to [vcrc32(0, &has_snapshot, size()-8)]; the length
    parameter is an [unsigned int]. *)
Definition crc_input (s : buf_t) : buf_t :=
  slice 4 (Z.to_nat (u32 (size s - 8))) s.

Definition valid_crc (s : buf_t) : bool :=
  vcrc32 0 (crc_input s) =? crc s.

End Crc.

End CSlot.

(** ** AES256 (src/utils/crypto.cpp) *)

Module Crypto.

(** The cipher object: the IV, and the decryption of one 16-byte block
    under the expanded key ([aes256_dec_block(., dec_keys_)], a sequence
    of AES-NI instructions). *)
Record AES256 : Type := mkAES {
  iv0_ : buf_t;
  dec_block : buf_t -> buf_t
}.

Definition xor_bytes (a b : buf_t) : buf_t :=
  zip_with (fun x y => byte_of_Z (Z.lxor (byte_to_Z x) (byte_to_Z y)))
           (resize 16 a) (resize 16 b).

(** The [for] of [pkcs7_unpad_len]: no byte of the tail differs from
    [pad]. *)
Definition pad_ok (pad : Z) (tail : buf_t) : bool :=
  forallb (fun b => byte_to_Z b =? pad) tail.

Definition pkcs7_unpad_len (buf : buf_t) (n : Z) : outcome Z :=
  if n =? 0 then Done 0
  else
    let pad := rd_u8 (Z.to_nat (n - 1)) buf in
    if (pad =? 0) || (16 <? pad) || (n <? pad)
    then Thrown "invalid PKCS#7 padding"
    else if pad_ok pad (slice (Z.to_nat (n - pad)) (Z.to_nat pad) buf)
    then Done pad
    else Thrown "invalid PKCS#7 padding".

(** The CBC loop over [k] blocks. *)
Fixpoint cbc (c : AES256) (k : nat) (prev : buf_t) (data : buf_t) : buf_t :=
  match k with
  | O => []
  | S k' =>
      let blk := take 16 data in
      xor_bytes (dec_block c blk) prev ++ cbc c k' blk (drop 16 data)
  end.

(** [decrypt(std::vector<uint8_t>& data, bool remove_padding, size_t size)]:
    the contents of [data] afterwards. *)
Definition decrypt (c : AES256) (data : buf_t) (remove_padding : bool) (size : Z)
  : outcome buf_t :=
  let n := if size =? 0 then len data else size in
  if n =? 0 then Done data
  else if len data <? n then Thrown "decrypt size out of range"
  else if negb (Z.land n 15 =? 0)
  then Thrown "aes input size must be a multiple of 16"
  else
    let data' := cbc c (Z.to_nat (n / 16)) (iv0_ c) data ++ drop (Z.to_nat n) data in
    if remove_padding then
      match pkcs7_unpad_len data' n with
      | Thrown e => Thrown e
      | Done pad => Done (resize (Z.to_nat (n - pad)) data')
      end
    else Done data'.

(** [decrypt(uint8_t* data, size_t len, bool remove_padding)]: the [len]
    bytes at [data] afterwards. *)
Definition decrypt_raw (c : AES256) (data : buf_t) (n : Z) (remove_padding : bool)
  : outcome buf_t :=
  if n =? 0 then Done data
  else if negb (Z.land n 15 =? 0)
  then Thrown "aes input size must be a multiple of 16"
  else if remove_padding
  then Thrown "remove_padding not supported for raw buffer decrypt"
  else Done (cbc c (Z.to_nat (n / 16)) (iv0_ c) data ++ drop (Z.to_nat n) data).

End Crypto.

(** ** Writer (src/io/Writer.cpp) and lru_set (src/data/lru_set.hpp) *)

Module Writer.

Inductive whence : Type := SEEK_SET | SEEK_CUR.

(** What reaches the file descriptor. *)
Inductive event : Type :=
| Seek (off : Z) (w : whence)
| Write (at_pos : Z) (data : buf_t).

Record t : Type := mk { pos : Z; events : list event }.

(** [lseek] fails on a negative resulting offset, and [seek] throws. *)
Definition seek (w : t) (off : Z) (wh : whence) : outcome t :=
  let target := match wh with SEEK_SET => off | SEEK_CUR => pos w + off end in
  if target <? 0 then Thrown "Writer: lseek"
  else Done (mk target (events w ++ [Seek off wh])).

Definition write (w : t) (data : buf_t) : t :=
  mk (pos w + len data) (events w ++ [Write (pos w) data]).

Definition tell (w : t) : Z := pos w.

End Writer.

Module LruSet.

Record t : Type := mk { capacity : Z; keys : list Z }.

Definition mem (k : Z) (s : t) : bool := existsb (Z.eqb k) (keys s).

Definition promote (k : Z) (s : t) : t :=
  mk (capacity s) (k :: filter (fun x => x ≠ k) (keys s)).

Definition contains (k : Z) (s : t) : bool * t :=
  if mem k s then (true, promote k s) else (false, s).

Definition insert (k : Z) (s : t) : t :=
  if mem k s then promote k s
  else
    let kept :=
      if capacity s <=? Z.of_nat (length (keys s))
      then take (length (keys s) - 1) (keys s) else keys s in
    mk (capacity s) (k :: kept).

End LruSet.

(** ** The extraction engine (src/processing/ExtractContext.cpp) *)

Module Extract.

Import Crypto.

Record FileTestInfo : Type := mkFTI {
  sparse_blocks : Z;
  nOK : Z;
  nMissMD : Z;
  nMissHT : Z;
  nErrDecomp : Z;
  nErrCRC : Z;
  nReadErr : Z
}.

Definition fti0 : FileTestInfo := mkFTI 0 0 0 0 0 0 0.

(** [++] on a [size_t] counter. *)
Definition incr (z : Z) : Z := u64 (z + 1).

Definition bump_sparse (f : FileTestInfo) : FileTestInfo :=
  mkFTI (incr (sparse_blocks f)) (nOK f) (nMissMD f) (nMissHT f) (nErrDecomp f) (nErrCRC f) (nReadErr f).
Definition bump_OK (f : FileTestInfo) : FileTestInfo :=
  mkFTI (sparse_blocks f) (incr (nOK f)) (nMissMD f) (nMissHT f) (nErrDecomp f) (nErrCRC f) (nReadErr f).
Definition set_MissMD (v : Z) (f : FileTestInfo) : FileTestInfo :=
  mkFTI (sparse_blocks f) (nOK f) v (nMissHT f) (nErrDecomp f) (nErrCRC f) (nReadErr f).
Definition bump_MissHT (f : FileTestInfo) : FileTestInfo :=
  mkFTI (sparse_blocks f) (nOK f) (nMissMD f) (incr (nMissHT f)) (nErrDecomp f) (nErrCRC f) (nReadErr f).
Definition bump_ErrDecomp (f : FileTestInfo) : FileTestInfo :=
  mkFTI (sparse_blocks f) (nOK f) (nMissMD f) (nMissHT f) (incr (nErrDecomp f)) (nErrCRC f) (nReadErr f).
Definition bump_ErrCRC (f : FileTestInfo) : FileTestInfo :=
  mkFTI (sparse_blocks f) (nOK f) (nMissMD f) (nMissHT f) (nErrDecomp f) (incr (nErrCRC f)) (nReadErr f).
Definition bump_ReadErr (f : FileTestInfo) : FileTestInfo :=
  mkFTI (sparse_blocks f) (nOK f) (nMissMD f) (nMissHT f) (nErrDecomp f) (nErrCRC f) (incr (nReadErr f)).

(** [process_file], lines 172-176: the deficit of block metadata.  The
    comparison is between [size_t] values, the difference is stored in a
    [size_t]; the flag tells whether the warning is logged. *)
Definition account_missing (n : Z) (vAllB : list VBlockDesc) (f : FileTestInfo)
  : FileTestInfo * bool :=
  if u64 n <? Z.of_nat (length vAllB) then (f, true)
  else (set_MissMD (u64 (n - Z.of_nat (length vAllB))) f, false).

(** [HashEntry] of the external hash table. *)
Record HashEntry : Type := mkHE {
  he_offset : Z;
  he_hash : Z;
  he_keyset_id : Z;
  he_comp_size : Z;
  he_orig_size : Z;
  he_comp_type : Z;
  he_device_index : Z
}.

(** [Reader::read_at(offset, buf)]: the number of bytes read and the
    buffer afterwards. *)
Definition reader := Z -> buf_t -> outcome (Z * buf_t).

(** The members of [ExtractContext] that [process_file] reads. *)
Record context : Type := mkCtx {
  bds : gmap Z BlockDescriptor;
  exHT : option (Z -> option HashEntry);
  have_vbk : bool;
  no_read : bool;
  test_only : bool;
  vbk_offset : Z;
  vbkf : reader;
  device_files : list reader;
  get_aes_cipher : Z -> option AES256
}.

(** The variables [process_file] updates from block to block. *)
Record state : Type := mkSt {
  fti : FileTestInfo;
  writer : option Writer.t;
  remaining_size : Z;
  actual_written : Z;
  lzBuf : buf_t;
  lzBuf2 : buf_t;
  prev_pos : Z;
  prev_device_id : Z;
  m_cache : LruSet.t;
  used_bds : gset Z
}.

Definition with_fti (g : FileTestInfo -> FileTestInfo) (s : state) : state :=
  mkSt (g (fti s)) (writer s) (remaining_size s) (actual_written s) (lzBuf s)
       (lzBuf2 s) (prev_pos s) (prev_device_id s) (m_cache s) (used_bds s).
Definition with_writer (w : option Writer.t) (s : state) : state :=
  mkSt (fti s) w (remaining_size s) (actual_written s) (lzBuf s)
       (lzBuf2 s) (prev_pos s) (prev_device_id s) (m_cache s) (used_bds s).
Definition with_lzBuf (b : buf_t) (s : state) : state :=
  mkSt (fti s) (writer s) (remaining_size s) (actual_written s) b
       (lzBuf2 s) (prev_pos s) (prev_device_id s) (m_cache s) (used_bds s).
Definition with_lzBuf2 (b : buf_t) (s : state) : state :=
  mkSt (fti s) (writer s) (remaining_size s) (actual_written s) (lzBuf s)
       b (prev_pos s) (prev_device_id s) (m_cache s) (used_bds s).
Definition with_prev (p d : Z) (s : state) : state :=
  mkSt (fti s) (writer s) (remaining_size s) (actual_written s) (lzBuf s)
       (lzBuf2 s) p d (m_cache s) (used_bds s).
Definition with_cache (c : LruSet.t) (s : state) : state :=
  mkSt (fti s) (writer s) (remaining_size s) (actual_written s) (lzBuf s)
       (lzBuf2 s) (prev_pos s) (prev_device_id s) c (used_bds s).
Definition with_used (u : gset Z) (s : state) : state :=
  mkSt (fti s) (writer s) (remaining_size s) (actual_written s) (lzBuf s)
       (lzBuf2 s) (prev_pos s) (prev_device_id s) (m_cache s) u.

(** [if (writer) writer->write(buf, to_write); actual_written += to_write;
    remaining_size -= to_write;] *)
Definition emit (buf : buf_t) (to_write : Z) (s : state) : state :=
  mkSt (fti s)
       (match writer s with
        | Some w => Some (Writer.write w (take (Z.to_nat to_write) buf))
        | None => None
        end)
       (s64 (remaining_size s - to_write)) (s64 (actual_written s + to_write))
       (lzBuf s) (lzBuf2 s) (prev_pos s) (prev_device_id s) (m_cache s) (used_bds s).

(** [fti.nOK++; m_cache.insert(blkDesc.digest);] *)
Definition accept (d : Z) (s : state) : state :=
  with_cache (LruSet.insert d (m_cache s)) (with_fti bump_OK s).

(** The descriptor made up for a block that only the external hash
    table knows. *)
Definition minimal_descriptor (blk : VBlockDesc) : BlockDescriptor :=
  mkBD BL_BLOCK_IN_BLOB 0 0 0 0 (vb_hash blk) CT_NONE 0 0 BLOCK_SIZE 0.

(** Lines 232-239: the seek that precedes the write of a patch block.
    The product is a [uint64_t], handed over as an [off_t]. *)
Definition seek_to_target (vFile : CMeta.VFile) (blk : VBlockDesc) (s : state)
  : outcome state :=
  match writer s with
  | Some w =>
      if CMeta.is_diff vFile && vb_is_patch blk then
        match Writer.seek w (s64 (u64 (vib_offset blk * BLOCK_SIZE))) Writer.SEEK_SET with
        | Thrown e => Thrown e
        | Done w' => Done (with_writer (Some w') s)
        end
      else Done s
  | None => Done s
  end.

(** Where the block lies and how it is packed: [pos], [cur_device_id]
    and the [effective_*] variables. *)
Record located : Type := mkLoc {
  l_pos : Z;
  l_device : Z;
  l_comp_type : Z;
  l_allocSize : Z;
  l_compSize : Z;
  l_keyset : Z
}.

Definition locate (ctx : context) (d : BlockDescriptor) : option located :=
  match exHT ctx with
  | Some findHash =>
      match findHash (digest d) with
      | Some e =>
          let a0 := u32 (he_comp_size e +
                         (if he_comp_type e =? CT_LZ4 then Z.of_nat lz_hdr_sizeof else 0)) in
          let a1 := if negb (he_keyset_id e =? 0)
                    then u32 (a0 + 0x10 - a0 mod 0x10) else a0 in
          Some (mkLoc (s64 (he_offset e)) (he_device_index e) (he_comp_type e)
                      a1 a1 (he_keyset_id e))
      | None => None
      end
  | None =>
      Some (mkLoc (s64 (offset d)) 255 (compType d) (allocSize d) (compSize d)
                  (keysetID d))
  end.

(** [have_vbk ? *vbkf : *device_files.at(cur_device_id)] *)
Definition active_file (ctx : context) (dev : Z) : outcome reader :=
  if have_vbk ctx then Done (vbkf ctx)
  else
    match device_files ctx !! Z.to_nat dev with
    | Some r => Done r
    | None => Thrown "vector::at"
    end.

Definition no_devices (ctx : context) : bool :=
  match device_files ctx with [] => true | _ => false end.

(** A callee writes into a vector's storage without changing its size. *)
Definition overwrite (new old : buf_t) : buf_t :=
  take (length old) new ++ drop (length new) old.

(** [(remaining_size > 0 && remaining_size < avail) ? remaining_size : avail] *)
Definition to_write_of (remaining avail : Z) : Z :=
  if (0 <? remaining) && (remaining <? avail) then remaining else avail.

Section Engine.

Variable vcrc32 : Z -> buf_t -> Z.
(** [LZ4_decompress_safe(src, dst, compressedSize, dstCapacity)]: the
    returned [int] and the contents of [dst] afterwards. *)
Variable LZ4_decompress_safe : buf_t -> buf_t -> Z -> Z -> Z * buf_t.
(** [inflateInit2; inflate(Z_FINISH); inflateEnd]: whether all three
    succeeded with [Z_STREAM_END], [total_out], and the output buffer. *)
Variable zlib_inflate : buf_t -> buf_t -> bool * Z * buf_t.
(** [ZSTD_decompressStream] on a new context ([None]: no context):
    the return value, [output.pos], and the output buffer. *)
Variable zstd_decompress : buf_t -> buf_t -> option (Z * Z * buf_t).
Variable md5 : buf_t -> Z.

(** [case CT_LZ4], lines 326-372.  The result carries [skip_size]. *)
Definition lz4_case (loc : located) (s : state) (digest_ : Z) : state * Z :=
  let plz := rd_lz_hdr (lzBuf s) in
  if lz_valid plz then
    let dst := resize (Z.to_nat (lz_srcSize plz)) (lzBuf2 s) in
    let comp_size :=
      if negb (l_keyset loc =? 0)
      then u64 (len (lzBuf s) - Z.of_nat lz_hdr_sizeof)
      else u64 (l_compSize loc - Z.of_nat lz_hdr_sizeof) in
    let '(lz4res, out) :=
      LZ4_decompress_safe (drop lz_hdr_sizeof (lzBuf s)) dst (s32 comp_size) (s32 (len dst)) in
    let s1 := with_lzBuf2 (overwrite out dst) s in
    let to_write := to_write_of (remaining_size s1) (lz_srcSize plz) in
    let s2 := emit (lzBuf2 s1) to_write s1 in
    let crc := vcrc32 0 (lzBuf2 s2) in
    if negb (u64 lz4res =? len (lzBuf2 s2)) then (with_fti bump_ErrDecomp s2, 0)
    else if negb (crc =? lz_crc plz) then (with_fti bump_ErrCRC s2, 0)
    else (accept digest_ s2, 0)
  else (with_fti bump_ErrDecomp s, BLOCK_SIZE).

Definition none_case (s : state) (digest_ : Z) : state * Z :=
  let to_write := to_write_of (remaining_size s) (len (lzBuf s)) in
  (accept digest_ (emit (lzBuf s) to_write s), 0).

(** Write-out shared by the zlib and zstd cases once the MD5 matched. *)
Definition verified_case (actual_output : Z) (s : state) (d : BlockDescriptor)
  : state * Z :=
  if md5 (take (Z.to_nat actual_output) (lzBuf2 s)) =? digest d then
    let to_write := to_write_of (remaining_size s) actual_output in
    (accept (digest d) (emit (lzBuf2 s) to_write s), 0)
  else (with_fti bump_ErrDecomp s, BLOCK_SIZE).

Definition zlib_case (s : state) (d : BlockDescriptor) : state * Z :=
  let output_size := Z.min BLOCK_SIZE (srcSize d) in
  let dst := resize (Z.to_nat output_size) (lzBuf2 s) in
  let '(ok, total_out, out) := zlib_inflate (lzBuf s) dst in
  let s1 := with_lzBuf2 (overwrite out dst) s in
  if ok then verified_case total_out s1 d
  else (with_fti bump_ErrDecomp s1, BLOCK_SIZE).

Definition zstd_case (s : state) (d : BlockDescriptor) : state * Z :=
  let output_size :=
    Z.min BLOCK_SIZE (if negb (srcSize d =? 0) then srcSize d else BLOCK_SIZE) in
  let dst := resize (Z.to_nat output_size) (lzBuf2 s) in
  let s0 := with_lzBuf2 dst s in
  match zstd_decompress (lzBuf s) dst with
  | None => (with_fti bump_ErrDecomp s0, BLOCK_SIZE)
  | Some (ret, out_pos, out) =>
      let s1 := with_lzBuf2 (overwrite out dst) s0 in
      if negb (ret =? 0) then (with_fti bump_ErrDecomp s1, BLOCK_SIZE)
      else verified_case out_pos s1 d
  end.

(** [switch ((uint8_t) effective_comp_type)] *)
Definition unpack (blk : VBlockDesc) (d : BlockDescriptor) (loc : located) (s : state)
  : outcome (state * Z) :=
  let ct := u8 (l_comp_type loc) in
  if ct =? CT_NONE then Done (none_case s (digest d))
  else if ct =? CT_LZ4 then Done (lz4_case loc s (digest d))
  else if ct =? CT_RLE then Thrown "RLE decompression not implemented"
  else if (ct =? CT_ZLIB_HI) || (ct =? CT_ZLIB_LO) then Done (zlib_case s d)
  else if (ct =? CT_ZSTD3) || (ct =? CT_ZSTD9) then Done (zstd_case s d)
  else if (ct =? 0) && (vb_hash blk =? 0) then Done (with_fti bump_sparse s, BLOCK_SIZE)
  else Done (s, BLOCK_SIZE).

(** The read (and decryption) of the packed block into [lzBuf]; [inl] is
    a [break] with [skip_size = BLOCK_SIZE]. *)
Definition load (ctx : context) (rd : reader) (loc : located) (s : state)
  : outcome (state + state) :=
  if (prev_pos s =? 0) || negb (l_pos loc =? prev_pos s) ||
     negb (l_allocSize loc =? len (lzBuf s)) ||
     (negb (have_vbk ctx) && negb (no_devices ctx) &&
      negb (prev_device_id s =? l_device loc))
  then
    match rd (s64 (u64 (vbk_offset ctx + l_pos loc)))
             (resize (Z.to_nat (l_allocSize loc)) (lzBuf s)) with
    | Thrown e => Thrown e
    | Done (nread, buf) =>
        if negb (nread =? l_allocSize loc)
        then Done (inl (with_fti bump_ReadErr (with_lzBuf buf s)))
        else if negb (l_keyset loc =? 0) then
          let buf' := resize (Z.to_nat (l_compSize loc)) buf in
          match get_aes_cipher ctx (l_keyset loc) with
          | None => Done (inl (with_lzBuf buf' s))
          | Some c =>
              match decrypt c buf' true 0 with
              | Thrown e => Thrown e
              | Done plain =>
                  Done (inr (with_prev (l_pos loc) (l_device loc) (with_lzBuf plain s)))
              end
          end
        else Done (inr (with_prev (l_pos loc) (l_device loc) (with_lzBuf buf s)))
    end
  else Done (inr s).

(** The [do { ... } while(0)] of one block: the state and [skip_size]. *)
Definition block_body (ctx : context) (vFile : CMeta.VFile) (blk : VBlockDesc)
    (s : state) : outcome (state * Z) :=
  if vb_is_empty blk then Done (with_fti bump_sparse s, BLOCK_SIZE)
  else
    let found :=
      match bds ctx !! vb_hash blk with
      | Some d => Some (d, with_used ({[vb_hash blk]} ∪ used_bds s) s)
      | None =>
          match exHT ctx with
          | Some _ => Some (minimal_descriptor blk, s)
          | None => None
          end
      end in
    match found with
    | None => Done (with_fti bump_MissHT s, BLOCK_SIZE)
    | Some (d, s1) =>
        match seek_to_target vFile blk s1 with
        | Thrown e => Thrown e
        | Done s2 =>
            match locate ctx d with
            | None => Done (with_fti bump_MissHT s2, BLOCK_SIZE)
            | Some loc =>
                match active_file ctx (l_device loc) with
                | Thrown e => Thrown e
                | Done rd =>
                    let '(hit, s3) :=
                      match writer s2 with
                      | None =>
                          let '(b, c) := LruSet.contains (digest d) (m_cache s2) in
                          (b, with_cache c s2)
                      | Some _ => (false, s2)
                      end in
                    if hit || (negb (have_vbk ctx) && no_devices ctx)
                    then Done (with_fti bump_OK s3, BLOCK_SIZE)
                    else if no_read ctx && negb (no_devices ctx)
                    then Done (with_fti bump_OK s3, BLOCK_SIZE)
                    else
                      match load ctx rd loc s3 with
                      | Thrown e => Thrown e
                      | Done (inl s4) => Done (s4, BLOCK_SIZE)
                      | Done (inr s4) => unpack blk d loc s4
                      end
                end
            end
        end
    end.

(** After the [do]: [if (skip_size > 0) { writer->seek(skip_size,
    SEEK_CUR); remaining_size -= skip_size; }] *)
Definition skip (skip_size : Z) (s : state) : outcome state :=
  if 0 <? skip_size then
    match writer s with
    | Some w =>
        match Writer.seek w skip_size Writer.SEEK_CUR with
        | Thrown e => Thrown e
        | Done w' =>
            Done (mkSt (fti s) (Some w') (s64 (remaining_size s - skip_size))
                       (actual_written s) (lzBuf s) (lzBuf2 s) (prev_pos s)
                       (prev_device_id s) (m_cache s) (used_bds s))
        end
    | None =>
        Done (mkSt (fti s) None (s64 (remaining_size s - skip_size))
                   (actual_written s) (lzBuf s) (lzBuf2 s) (prev_pos s)
                   (prev_device_id s) (m_cache s) (used_bds s))
    end
  else Done s.

Definition process_block (ctx : context) (vFile : CMeta.VFile) (blk : VBlockDesc)
    (s : state) : outcome state :=
  match block_body ctx vFile blk s with
  | Thrown e => Thrown e
  | Done (s', skip_size) => skip skip_size s'
  end.

(** [for (size_t i=0; i<vAllB.size(); i++)], from block [i] on. *)
Fixpoint process_blocks (ctx : context) (vFile : CMeta.VFile) (blocks_to_skip : Z)
    (i : Z) (blocks : list VBlockDesc) (s : state) : outcome state :=
  match blocks with
  | [] => Done s
  | blk :: r =>
      if i <? blocks_to_skip then process_blocks ctx vFile blocks_to_skip (i + 1) r s
      else
        match process_block ctx vFile blk s with
        | Thrown e => Thrown e
        | Done s' => process_blocks ctx vFile blocks_to_skip (i + 1) r s'
        end
  end.

(** The variables of [process_file] when the loop starts. *)
Definition initial_state (vFile : CMeta.VFile) (w : option Writer.t)
    (cache : LruSet.t) (used : gset Z) : state :=
  mkSt fti0 w (CMeta.filesize (CMeta.attribs vFile)) 0 [] [] 0 255 cache used.

(** [process_file] from [meta.get_file_blocks(vFile)] on: the block list,
    the missing-metadata count, the loop. *)
Definition process_file (beyond : buf_t -> buf_t) (meta : CMeta.t) (ctx : context)
    (vFile : CMeta.VFile) (blocks_to_skip : Z) (s : state) : outcome state :=
  match CMeta.get_file_blocks beyond meta vFile with
  | Thrown e => Thrown e
  | Done vAllB =>
      let '(f, _) := account_missing (CMeta.nBlocks (CMeta.attribs vFile)) vAllB (fti s) in
      process_blocks ctx vFile blocks_to_skip 0 vAllB (with_fti (fun _ => f) s)
  end.

End Engine.

End Extract.

(** ** Sample containers

    Small banks, slots and blocks on which the functions above are
    evaluated. *)

Module Samples.

Definition no_slack : buf_t -> buf_t := fun _ => [].

(** A page: the content, then [fill] up to [PAGE_SIZE]. *)
Definition pad_page (fill : byte) (content : buf_t) : buf_t :=
  take (Z.to_nat PAGE_SIZE) (content ++ replicate (Z.to_nat PAGE_SIZE) fill).

(** An index page of a page stack: the next index page, the page's own
    id, the ids of the data pages; unused entries are [-1:-1]. *)
Definition index_page (next self : PhysPageId) (ids : list PhysPageId) : buf_t :=
  pad_page Byte.xff (ppi_bytes next ++ ppi_bytes self ++ concat (map ppi_bytes ids)).

Definition header_page : buf_t := replicate (Z.to_nat PAGE_SIZE) Byte.x00.

(** A bank: the header page, then the pages [0, 1, ...]. *)
Definition bank_of (pages : list buf_t) : buf_t := header_page ++ concat pages.

(** The descriptor of tests/BlockDescriptor_test.cpp, [valid_compressed]. *)
Definition bd_first : BlockDescriptor :=
  mkBD BL_BLOCK_IN_BLOB 1 0x662b000 0x2000 1 0x6745a75922054cd2 CT_LZ4 0
       0x1234 0x100000 0.

(** The same block, referenced twice. *)
Definition bd_second : BlockDescriptor :=
  mkBD BL_BLOCK_IN_BLOB 2 0x662b000 0x2000 1 0x6745a75922054cd2 CT_LZ4 0
       0x1234 0x100000 0.

(** A damaged record: less space allocated than the packed block takes. *)
Definition bd_damaged : BlockDescriptor :=
  mkBD BL_BLOCK_IN_BLOB 1 0x7000000 0x10 1 0x1122334455667788 CT_LZ4 0
       0x1234 0x100000 0.

(** A datastore rooted at page 0:1 with one data page 0:2. *)
Definition datastore_bank (ds : list BlockDescriptor) : buf_t :=
  bank_of [ pad_page Byte.x00 [];
            index_page INVALID_PPI (PPI 0 1) [PPI 0 2];
            pad_page Byte.x00 (concat (map bd_bytes ds)) ].

Definition meta_duplicates : CMeta.t :=
  CMeta.mk [datastore_bank [bd_first; bd_second]] false.

Definition meta_damaged : CMeta.t :=
  CMeta.mk [datastore_bank [bd_first; bd_damaged]] true.

(** A bank whose root page 0:0 lists an unused entry before page 0:1. *)
Definition meta_gap : CMeta.t :=
  CMeta.mk [bank_of [ index_page INVALID_PPI (PPI 0 0) [INVALID_PPI; PPI 0 1];
                      pad_page Byte.x00 [] ]] false.

(** A patch descriptor ([SPatchBlockDescriptorV7]) as bytes. *)
Definition patch_bytes (size type_ dig id block_idx dig2 : Z) : buf_t :=
  le_bytes 4 size ++ le_bytes 1 type_ ++ le_bytes 16 dig ++ le_bytes 8 id ++
  le_bytes 8 block_idx ++ le_bytes 16 dig2.

(** An increment whose page stack 0:0 has two data pages, each holding
    one patch descriptor. *)
Definition increment_bank : buf_t :=
  bank_of [ index_page INVALID_PPI (PPI 0 0) [PPI 0 1; PPI 0 2];
            pad_page Byte.x00 (patch_bytes BLOCK_SIZE 0 0xa1 1 5 0);
            pad_page Byte.x00 (patch_bytes BLOCK_SIZE 0 0xa2 2 0 0) ].

Definition meta_increment : CMeta.t := CMeta.mk [increment_bank] false.

Definition increment_file (n : Z) : CMeta.VFile :=
  CMeta.mkVFile FT_INCREMENT "disk.vib"
    (CMeta.mkAttribs 0 0 0 (PPI 0 0) n (6 * BLOCK_SIZE) 0 0).

(** The same two descriptors in one data page. *)
Definition increment_bank_one_page : buf_t :=
  bank_of [ index_page INVALID_PPI (PPI 0 0) [PPI 0 1];
            pad_page Byte.x00 (patch_bytes BLOCK_SIZE 0 0xa1 1 5 0 ++
                               patch_bytes BLOCK_SIZE 0 0xa2 2 0 0) ].

Definition meta_increment_one_page : CMeta.t := CMeta.mk [increment_bank_one_page] false.

(** The header of the slots of tests/VBKCommand_vbk_test.cpp:
    [max_banks=7f00, allocated_banks=3]. *)
Definition wide_slot_header : buf_t :=
  le_bytes 4 0x760ef101 ++ le_bytes 4 1 ++ replicate 108 Byte.x00 ++
  le_bytes 4 0x7f00 ++ le_bytes 4 3.

(** A cipher whose block function is the identity, with a zero IV: enough
    to run the length and padding checks of [decrypt]. *)
Definition plain_cipher : Crypto.AES256 :=
  Crypto.mkAES (replicate 16 Byte.x00) (fun b => b).

(** A file served by a [Reader]: [read_at] copies what lies at [offset]. *)
Definition reader_of (file : buf_t) : Extract.reader :=
  fun off buf =>
    if off <? 0 then Thrown "offset < 0"
    else
      let data := take (length buf) (drop (Z.to_nat off) file) in
      Done (len data, data ++ drop (length data) buf).

(** A stand-in for [LZ4_decompress_safe] that agrees with LZ4 on a block
    made of a single run of fewer than 15 literals (token [L << 4], then
    the [L] literals), and reports an error on anything else. *)
Definition lz4_literals (src dst : buf_t) (compressedSize dstCapacity : Z) : Z * buf_t :=
  match take (Z.to_nat compressedSize) src with
  | token :: lits =>
      let n := byte_to_Z token / 16 in
      if (byte_to_Z token mod 16 =? 0) && (n <? 15) && (len lits =? n) &&
         (n <=? dstCapacity)
      then (n, lits ++ drop (length lits) dst)
      else (-1, dst)
  | [] => (-1, dst)
  end.

Definition no_zlib (src dst : buf_t) : bool * Z * buf_t := (false, 0, dst).
Definition no_zstd (src dst : buf_t) : option (Z * Z * buf_t) := None.
Definition no_md5 (data : buf_t) : Z := 0.

(** An LZ4 block holding the byte 'A', whose header carries a CRC that is
    not the CRC of 'A'. *)
Definition lz4_block_bad_crc : buf_t :=
  le_bytes 4 LZ_START_MAGIC ++ le_bytes 4 0 ++ le_bytes 4 1 ++
  map byte_of_Z [0x10; 0x41].

Definition lz4_block_good : buf_t :=
  le_bytes 4 LZ_START_MAGIC ++ le_bytes 4 (Crc.crc32c 0 [byte_of_Z 0x41]) ++
  le_bytes 4 1 ++ map byte_of_Z [0x10; 0x41].

(** A container file: the block at offset 0x1000. *)
Definition vbk_with (block : buf_t) : buf_t :=
  replicate (Z.to_nat PAGE_SIZE) Byte.x00 ++ block.

Definition lz4_descriptor : BlockDescriptor :=
  mkBD BL_BLOCK_IN_BLOB 1 0x1000 14 0 0xb10c CT_LZ4 0 14 1 0.

Definition ctx_lz4 (block : buf_t) : Extract.context :=
  Extract.mkCtx {[ 0xb10c := lz4_descriptor ]} None true false false 0
                (reader_of (vbk_with block)) [] (fun _ => None).

Definition one_byte_file : CMeta.VFile :=
  CMeta.mkVFile FT_INT_FIB "a.bin" (CMeta.mkAttribs 0 0 0 (PPI 0 0) 1 1 0 0).

Definition lz4_vblock : VBlockDesc := mkVB 1 0 0xb10c 0 0 0 0.

Definition empty_writer : Writer.t := Writer.mk 0 [].

Definition start (vFile : CMeta.VFile) : Extract.state :=
  Extract.initial_state vFile (Some empty_writer) (LruSet.mk 16 []) ∅.

(** Two stored (uncompressed) blocks of an increment, 4 bytes each. *)
Definition stored (dig off : Z) : BlockDescriptor :=
  mkBD BL_BLOCK_IN_BLOB 1 off 4 0 dig CT_NONE 0 4 4 0.

Definition ctx_increment : Extract.context :=
  Extract.mkCtx {[ 0xa1 := stored 0xa1 0x1000; 0xa2 := stored 0xa2 0x1004 ]}
                None true false false 0
                (reader_of (vbk_with (map byte_of_Z [1;1;1;1;2;2;2;2])))
                [] (fun _ => None).

(** A bank that stops one byte into page 0. *)
Definition meta_partial : CMeta.t :=
  CMeta.mk [replicate 4097 Byte.x00] false.

Definition md5_header : FileHeader.t :=
  FileHeader.mk 13 1 3 (map byte_of_Z [109; 100; 53]) 9 0x100000 8.

Definition legacy_header : FileHeader.t :=
  FileHeader.mk 13 1 3 (map byte_of_Z [109; 100; 53]) 0 0x100000 8.

(** The two blocks of the sample increment. *)
Definition increment_blocks : list VBlockDesc :=
  [ mkVB BLOCK_SIZE 0 0xa1 1 5 0 0; mkVB BLOCK_SIZE 0 0xa2 2 0 0 0 ].

(** The variables of the engine once the good LZ4 block is in [lzBuf]. *)
Definition lz4_loaded : Extract.state :=
  Extract.with_lzBuf lz4_block_good (start one_byte_file).

Definition lz4_location : Extract.located :=
  Extract.mkLoc 0x1000 255 CT_LZ4 14 14 0.

End Samples.

(** ** Notions used by the statements *)

(** Ranges of the signed machine integers. *)
Definition int32 (z : Z) : Prop := -2^31 <= z < 2^31.
Definition int64 (z : Z) : Prop := -2^63 <= z < 2^63.

(** The pages a loaded bank can hold under a valid page id. *)
Definition universe (m : CMeta.t) : list PhysPageId :=
  b ← seq 0 (length (CMeta.m_banks m));
  (fun p => PPI (Z.of_nat b) (Z.of_nat p)) <$> seq 0 1025.

(** What every entry of the block-descriptor table satisfies. *)
Definition table_ok (ignore_errors : bool) (bds : gmap Z BlockDescriptor) : Prop :=
  forall k d, bds !! k = Some d ->
    digest d = k /\ digest d <> 0 /\ bd_empty d = false /\
    (ignore_errors = false -> bd_valid d = true).

(** The writer after a step that wrote nothing, or one buffer. *)
Definition wrote_at_most_once (w0 w1 : option Writer.t) : Prop :=
  w1 = w0 \/ exists data, w1 = (fun w => Writer.write w data) <$> w0.

(** The two messages logged for a conflicting duplicate. *)
Definition duplicate_warnings : list CMeta.log_event :=
  [CMeta.LogWarn "duplicate BD: old"; CMeta.LogWarn "duplicate BD: new"].

(** The engine with the sample collaborators. *)
Definition sample_block_body :=
  Extract.block_body Crc.crc32c Samples.lz4_literals Samples.no_zlib Samples.no_zstd
                     Samples.no_md5.

Definition sample_process_block :=
  Extract.process_block Crc.crc32c Samples.lz4_literals Samples.no_zlib Samples.no_zstd
                        Samples.no_md5.

Definition sample_process_file :=
  Extract.process_file Crc.crc32c Samples.lz4_literals Samples.no_zlib Samples.no_zstd
                       Samples.no_md5 Samples.no_slack.

(** The first block of the sample increment, processed. *)
Definition after_first_patch : Extract.state * Z :=
  match sample_block_body Samples.ctx_increment (Samples.increment_file 2)
          (mkVB BLOCK_SIZE 0 0xa1 1 5 0 0) (Samples.start (Samples.increment_file 2)) with
  | Done r => r
  | Thrown _ => (Samples.start (Samples.increment_file 2), 0)
  end.

(** ** CMeta::import_slot (src/core/CMeta.cpp) *)

Module CMetaSlot.

(** [CSlot::BankInfo], packed: crc @0, offset @4 (an [int64_t]),
    size @12. *)
Record BankInfo : Type := mkBankInfo { bi_crc : Z; bi_offset : Z; bi_size : Z }.

(** [slot->bankInfos[i]]: the records follow the members of the slot,
    from byte 124 on.  [mem] is the memory from the start of the slot. *)
Definition bankInfos (mem : buf_t) (i : nat) : BankInfo :=
  let off := (Z.to_nat CSlot.members_sizeof + 16 * i)%nat in
  mkBankInfo (rd_u32 off mem) (rd_s64 (off + 4) mem) (rd_u32 (off + 12) mem).

(** [slot->snapshotDescriptor.objRefs.CryptoStoreRootPage], the ninth
    field of [ObjRefs]: byte 92 of the slot. *)
Definition CryptoStoreRootPage (slot : buf_t) : PhysPageId := rd_ppi 92 slot.

(** The two flags of the message
    [Slot: ... valid_fast=... valid_crc=...]. *)
Record slot_flags : Type := mkFlags { valid_fast : bool; valid_crc : bool }.

(** [m_banks.resize(n)]: new banks are empty buffers. *)
Definition resize_banks (n : nat) (banks : list buf_t) : list buf_t :=
  take n banks ++ replicate (n - length banks) [].

Section Loading.

Variable vcrc32 : Z -> buf_t -> Z.

(** What lies in memory behind the slot's buffer, read when
    [allocated_banks] exceeds [max_banks]. *)
Variable beyond : buf_t -> buf_t.

Variable reader : Extract.reader.

(** Lines 161 to 204, run when the slot names a [CryptoStoreRootPage]:
    the keysets are loaded from their bank and the encrypted banks are
    decrypted in place.  The stage takes the slot and the banks and
    leaves the banks, or throws. *)
Variable load_keysets_and_decrypt : buf_t -> list buf_t -> outcome (list buf_t).

(** The first [for] over the banks, lines 147 to 157, for the turns
    [idxs]: the banks and the errors logged. *)
Fixpoint read_banks (slot_mem : buf_t) (idxs : list nat)
    (st : list buf_t * list CMeta.log_event)
  : outcome (list buf_t * list CMeta.log_event) :=
  match idxs with
  | [] => Done st
  | i :: r =>
      let bi := bankInfos slot_mem i in
      if bi_size bi =? 0 then read_banks slot_mem r st
      else
        let bank := resize (Z.to_nat (bi_size bi)) (default [] (fst st !! i)) in
        match reader (bi_offset bi) bank with
        | Thrown e => Thrown e
        | Done (nread, bank') =>
            let banks := <[i := bank']> (fst st) in
            if nread =? bi_size bi then read_banks slot_mem r (banks, snd st)
            else read_banks slot_mem r
                   (banks, snd st ++ [CMeta.LogError "Failed to read bank"])
        end
  end.

(** [import_slot(reader, offset)] on the object [m]: the object
    afterwards, the flags logged for the slot and the errors logged.
    The last [for], lines 206 to 222, only writes debug messages about
    the banks and is left out. *)
Definition import_slot (m : CMeta.t) (offset : Z)
  : outcome (CMeta.t * slot_flags * list CMeta.log_event) :=
  match reader offset (replicate (Z.to_nat PAGE_SIZE) Byte.x00) with
  | Thrown e => Thrown e
  | Done (n0, buf0) =>
      if negb (n0 =? PAGE_SIZE) then Thrown "Failed to read Slot page 0"
      else if CSlot.size buf0 <? PAGE_SIZE then Thrown "Invalid Slot size"
      else
        let buf := resize (Z.to_nat (CSlot.size buf0)) buf0 in
        let to_read := u64 (CSlot.size buf - PAGE_SIZE) in
        match reader (s64 (offset + PAGE_SIZE)) (drop (Z.to_nat PAGE_SIZE) buf) with
        | Thrown e => Thrown e
        | Done (n1, rest) =>
            if negb (n1 =? to_read) then Thrown "Failed to read Slot page 1+"
            else
              let slot := take (Z.to_nat PAGE_SIZE) buf ++ rest in
              let flags := mkFlags (CSlot.valid_fast slot) (CSlot.valid_crc vcrc32 slot) in
              let n := Z.to_nat (CSlot.allocated_banks slot) in
              match read_banks (slot ++ beyond slot) (seq 0 n)
                      (resize_banks n (CMeta.m_banks m), []) with
              | Thrown e => Thrown e
              | Done (banks, log) =>
                  let decrypted :=
                    if ppi_valid (CryptoStoreRootPage slot)
                    then load_keysets_and_decrypt slot banks
                    else Done banks in
                  match decrypted with
                  | Thrown e => Thrown e
                  | Done banks' =>
                      Done (CMeta.mk banks' (CMeta.m_ignore_errors m), flags, log)
                  end
              end
        end
  end.

End Loading.

(** A slot file as the scanner saves it: a slot of one page
    ([max_banks = 0xF8]) with one bank of two pages behind it.  The
    slot names no [CryptoStoreRootPage]. *)
Definition slot_members : buf_t :=
  le_bytes 4 1 ++
  le_bytes 8 0 ++ le_bytes 8 0x3000 ++ le_bytes 4 1 ++
  ppi_bytes (PPI 0 0) ++ le_bytes 8 0 ++ ppi_bytes (PPI 0 1) ++ le_bytes 8 0 ++
  ppi_bytes INVALID_PPI ++ ppi_bytes INVALID_PPI ++ ppi_bytes INVALID_PPI ++
  ppi_bytes INVALID_PPI ++ ppi_bytes INVALID_PPI ++ ppi_bytes INVALID_PPI ++
  le_bytes 8 0 ++
  le_bytes 4 0xF8 ++ le_bytes 4 1.

(** The bytes the CRC of the slot covers: the members after [crc] and
    the 0xF8 records [BankInfo], the first of which places the bank at
    offset 0x1000 with 0x2000 bytes. *)
Definition slot_checked : buf_t :=
  slot_members ++
  (le_bytes 4 0 ++ le_bytes 8 0x1000 ++ le_bytes 4 0x2000) ++
  replicate (16 * 247) Byte.x00.

Definition slot_with_crc (crc : Z) : buf_t :=
  le_bytes 4 crc ++ slot_checked ++ replicate 4 Byte.x00.

Definition sound_slot : buf_t := slot_with_crc (Crc.crc32c 0 slot_checked).

(** The same slot with one bit of the stored CRC flipped. *)
Definition damaged_slot : buf_t :=
  slot_with_crc (Z.lxor (Crc.crc32c 0 slot_checked) 1).





End CMetaSlot.

(** * The rest of the container format

    Members of the records of src/Veeam/VBK.hpp and src/Veeam/VBK/*.hpp
    that the statements C1 to C10 do not need, and the helpers of
    src/utils, src/data and src/core the engine calls. *)

(** ** PhysPageId: ordering (src/Veeam/VBK.hpp) *)

Module Ppi.

(** [operator<]: by bank, then by page. *)
Definition lt (a b : PhysPageId) : bool :=
  if negb (bank_id a =? bank_id b) then bank_id a <? bank_id b
  else page_id a <? page_id b.

Definition valid_or_empty (p : PhysPageId) : bool := ppi_valid p || ppi_empty p.

End Ppi.

(** ** SMetaTableDescriptor: size (src/Veeam/VBK/SMetaTableDescriptor.hpp) *)

Module MetaTable.

(** [MAX_BLOCKS * BLOCK_SIZE], a product of two [int]s that fits one. *)
Definition CAPACITY : Z := MAX_BLOCKS * BLOCK_SIZE.

(** [is_sparse() ? CAPACITY : (size_t)(block_size*nBlocks)]; the product
    is an [int64_t]. *)
Definition size (d : SMetaTableDescriptor) : Z :=
  if md_is_sparse d then CAPACITY
  else u64 (s64 (md_block_size d * md_nBlocks d)).

Definition empty (d : SMetaTableDescriptor) : bool :=
  ppi_zero (md_ppi d) && (md_block_size d =? 0) && (md_nBlocks d =? 0).

End MetaTable.

(** ** SPatchBlockDescriptorV7 (src/Veeam/VBK/SPatchBlockDescriptorV7.hpp) *)

Module Patch.

(** Packed, [sizeof == 0x35]. *)
Record SPatchBlockDescriptorV7 : Type := mk {
  size : Z;        (* uint32_t @0  *)
  type_ : Z;       (* uint8_t  @4  *)
  digest : Z;      (* digest_t @5  *)
  id : Z;          (* int64_t  @21 *)
  block_idx : Z;   (* int64_t  @29 *)
  digest2 : Z      (* digest_t @37 *)
}.

Definition rd (off : nat) (buf : buf_t) : SPatchBlockDescriptorV7 :=
  mk (rd_u32 off buf) (rd_u8 (off + 4) buf) (rd_u128 (off + 5) buf)
     (rd_s64 (off + 21) buf) (rd_s64 (off + 29) buf) (rd_u128 (off + 37) buf).

(** [block_idx * BLOCK_SIZE], an [int64_t] product returned as [off_t]. *)
Definition fib_offset (d : SPatchBlockDescriptorV7) : Z :=
  s64 (block_idx d * BLOCK_SIZE).

Definition valid (d : SPatchBlockDescriptorV7) : bool :=
  (size d =? BLOCK_SIZE) && (type_ d =? 0) && negb (digest d =? 0) &&
  (0 <=? id d) && (0 <=? block_idx d) && (digest2 d =? 0).

End Patch.

(** ** CBank::HeaderPage (src/Veeam/VBK/CBank.hpp)

    The header page of a bank, laid over the first [PAGE_SIZE] bytes of
    the bank:  nPages @0 (uint16), encr_mode @2, f3 @3,
    free_pages @4 (0x400 bytes), zeroes @0x404 (0x800 bytes),
    keyset_id @0xc04, encr_size @0xc14. *)

Module CBank.

Definition V13_MIN_PAGES : Z := 0x20.
Definition V13_MAX_PAGES : Z := 0x400.

(** [MAX_BANK_SIZE] of src/Veeam/VBK.hpp. *)
Definition MAX_BANK_SIZE : Z := (0x400 + 2) * PAGE_SIZE.

Definition nPages (h : buf_t) : Z := le_Z (slice 0 2 h).
Definition keyset_id (h : buf_t) : Z := rd_u128 3076 h.
Definition encr_size (h : buf_t) : Z := rd_u32 3092 h.

(** [(nPages+2) * PAGE_SIZE], a [size_t] returned as [uint32_t]. *)
Definition bank_size (h : buf_t) : Z := u32 (u64 ((nPages h + 2) * PAGE_SIZE)).

Definition valid_encr_config (h : buf_t) : bool :=
  ((keyset_id h =? 0) && (encr_size h =? 0)) ||
  (negb (keyset_id h =? 0) && (0 <? encr_size h) &&
   (encr_size h <=? u64 (bank_size h - PAGE_SIZE))).

Definition is_encrypted (h : buf_t) : bool :=
  valid_encr_config h && (0 <? encr_size h).

(** The [uint64_t] that [p] points at in turn [i] of [zeroes_are_zero]. *)
Definition zeroes_word (h : buf_t) (i : nat) : Z := rd_u64 (1028 + 8 * i) h.

Definition zeroes_are_zero (h : buf_t) : bool :=
  forallb (fun i => zeroes_word h i =? 0) (seq 0 256).

(** The [uint64_t] that [p] points at in turn [i] of [free_pages_valid]:
    [p] starts at [free_pages] and moves by eight bytes. *)
Definition free_word (h : buf_t) (i : nat) : Z := rd_u64 (4 + 8 * i) h.

(** The [for] of [free_pages_valid], over the turns [idxs]; the state is
    [was_occupied]. *)
Fixpoint free_scan (h : buf_t) (idxs : list nat) (was_occupied : bool) : bool :=
  match idxs with
  | [] => was_occupied
  | i :: r =>
      if negb (Z.land (free_word h i) 0xfefefefe =? 0) then false
      else free_scan h r (was_occupied || negb (free_word h i =? 0x01010101))
  end.

(** [V13_MAX_PAGES/sizeof(uint32_t)] turns. *)
Definition free_pages_valid (h : buf_t) : bool := free_scan h (seq 0 256) false.

Definition valid (h : buf_t) : bool :=
  (V13_MIN_PAGES <=? nPages h) && (nPages h <=? V13_MAX_PAGES) &&
  free_pages_valid h && zeroes_are_zero h && valid_encr_config h.

(** [CBank::valid_fast], [size], [is_encrypted], [encr_size] pass the
    question on to the header page. *)
Definition valid_fast (bank : buf_t) : bool := valid bank.
Definition size (bank : buf_t) : Z := bank_size bank.

(** A header page with [n] pages, all of them marked free, and no key. *)
Definition all_free_header (n : Z) : buf_t :=
  le_bytes 2 n ++ replicate 2 Byte.x00 ++ replicate 1024 Byte.x01 ++
  replicate 3068 Byte.x00.

(** The same with 0xff in the upper half of every eight bytes of
    [free_pages]. *)
Definition odd_header (n : Z) : buf_t :=
  le_bytes 2 n ++ replicate 2 Byte.x00 ++
  concat (replicate 128 (replicate 4 Byte.x00 ++ replicate 4 Byte.xff)) ++
  replicate 3068 Byte.x00.

End CBank.

(** ** lru_set: the invariant of the class (src/data/lru_set.hpp) *)

(** [_list] and [_map] hold the same keys, each once, and no more than
    [_capacity] of them. *)
Definition lru_ok (s : LruSet.t) : Prop :=
  NoDup (LruSet.keys s) /\ Z.of_nat (length (LruSet.keys s)) <= LruSet.capacity s.

(** ** BitFileMappedArray (src/data/BitFileMappedArray.hpp) *)

Module BitFileMappedArray.

Record t : Type := mk {
  m_bit_size : Z;      (* size_t *)
  m_mmap : buf_t       (* the mapped file *)
}.

Definition size_bytes (a : t) : Z := u64 (m_bit_size a + 7) / 8.

(** [m_mmap[byte]], as the unsigned value of the [char]. *)
Definition at_ (a : t) (byte : Z) : Z :=
  byte_to_Z (default Byte.x00 (m_mmap a !! Z.to_nat byte)).

Definition get (a : t) (index : Z) : outcome bool :=
  if m_bit_size a <=? index then Thrown "Bit index out of range"
  else
    let byte := index / 8 in
    let bit := 7 - index mod 8 in
    Done (negb (Z.land (at_ a byte) (Z.shiftl 1 bit) =? 0)).

(** [ptr[i] = v], the value cut to eight bits. *)
Definition store (i : Z) (v : Z) (m : buf_t) : buf_t :=
  <[Z.to_nat i := byte_of_Z v]> m.

Definition set (a : t) (index : Z) (value : bool) : outcome t :=
  if m_bit_size a <=? index then Thrown "Bit index out of range"
  else
    let byte := index / 8 in
    let bit := 7 - index mod 8 in
    let v := if value then Z.lor (at_ a byte) (Z.shiftl 1 bit)
             else Z.land (at_ a byte) (Z.lnot (Z.shiftl 1 bit)) in
    Done (mk (m_bit_size a) (store byte v (m_mmap a))).

(** [ptr[i] |= mask] with a [uint8_t] mask. *)
Definition or_mask (i : Z) (mask : Z) (a : t) : t :=
  mk (m_bit_size a) (store i (Z.lor (at_ a i) (u8 mask)) (m_mmap a)).

(** [for (i = from; i < to; ++i) ptr[i] = 0xFF], [n] turns. *)
Fixpoint fill_ff (from : Z) (n : nat) (m : buf_t) : buf_t :=
  match n with
  | O => m
  | S k => fill_ff (from + 1) k (store from 0xFF m)
  end.

(** [set_range(start, end)].  In the one-byte case the count of the
    first shift is the [size_t] value [end_bit - start_bit + 1], which is
    out of range for an [unsigned] unless the range is a single bit; C++
    leaves such a shift undefined, and the model takes the count modulo
    32 as the x86 shift does. *)
Definition set_range (a : t) (start end_ : Z) : outcome t :=
  if (m_bit_size a <=? start) || (m_bit_size a <? end_) || (end_ <=? start)
  then Thrown "Invalid bit range"
  else
    let start_byte := start / 8 in
    let end_byte := (end_ - 1) / 8 in
    let start_bit := 7 - start mod 8 in
    let end_bit := 7 - (end_ - 1) mod 8 in
    if start_byte =? end_byte then
      let count := u64 (end_bit - start_bit + 1) mod 32 in
      let mask := Z.shiftl (u32 (u32 (Z.shiftl 1 count) - 1)) start_bit in
      Done (or_mask start_byte mask a)
    else
      let '(a1, start_byte1) :=
        if negb (start_bit =? 0)
        then (or_mask start_byte (Z.shiftl 0xFF start_bit) a, start_byte + 1)
        else (a, start_byte) in
      let a2 := mk (m_bit_size a1)
                   (fill_ff start_byte1 (Z.to_nat (end_byte - start_byte1)) (m_mmap a1)) in
      Done (or_mask end_byte (u32 (Z.shiftl 1 (end_bit + 1)) - 1) a2).

(** The bit [get] reads, for an index in range. *)
Definition bit (a : t) (index : Z) : bool :=
  negb (Z.land (at_ a (index / 8)) (Z.shiftl 1 (7 - index mod 8)) =? 0).

End BitFileMappedArray.

(** ** is_all_zero (src/utils/common.cpp, src/core/buf_t.cpp) *)

Module AllZero.

(** The three loops of [is_all_zero(data, size)]; [addr] is the address
    of the first byte. *)
Definition is_all_zero (addr : Z) (data : buf_t) : bool :=
  let size := len data in
  let align_bytes := 8 - addr mod 8 in
  let aligning := negb (align_bytes =? 8) && (align_bytes <=? size) in
  let i := if aligning then align_bytes else 0 in
  let remaining := size - i in
  let chunks64 := remaining / 8 in
  let tail_index := i + chunks64 * 8 in
  forallb (fun x => byte_to_Z x =? 0) (take (Z.to_nat i) data) &&
  forallb (fun j => rd_u64 (Z.to_nat i + 8 * j) data =? 0) (seq 0 (Z.to_nat chunks64)) &&
  forallb (fun x => byte_to_Z x =? 0) (drop (Z.to_nat tail_index) data).

(** [buf_t::is_all_zero()]: the same after [if (size == 0) return true]. *)
Definition buf_is_all_zero (addr : Z) (data : buf_t) : bool :=
  if len data =? 0 then true else is_all_zero addr data.

End AllZero.

(** ** The engine: what one block does *)

(** The counters, the writer and [skip_size] after the [do { } while(0)]
    of one block, against the counters before and the writer as it is
    after the seek of a patch block: either nothing is written and the
    block is skipped, or one buffer is written and nothing is skipped. *)
Definition block_step (f f' : Extract.FileTestInfo) (w w' : option Writer.t) (k : Z)
  : Prop :=
  (k = BLOCK_SIZE /\ w' = w /\
   (f' = f \/ f' = Extract.bump_sparse f \/ f' = Extract.bump_OK f \/
    f' = Extract.bump_MissHT f \/ f' = Extract.bump_ErrDecomp f \/
    f' = Extract.bump_ReadErr f)) \/
  (k = 0 /\ (exists data, w' = (fun x => Writer.write x data) <$> w) /\
   (f' = Extract.bump_OK f \/ f' = Extract.bump_ErrDecomp f \/
    f' = Extract.bump_ErrCRC f)).

(** The sample LZ4 block, processed. *)
Definition after_lz4_block : Extract.state :=
  match sample_process_block (Samples.ctx_lz4 Samples.lz4_block_good) Samples.one_byte_file
          Samples.lz4_vblock (Samples.start Samples.one_byte_file) with
  | Done s => s
  | Thrown _ => Samples.start Samples.one_byte_file
  end.



(** ** HashTable::findHash (src/data/HashTable.cpp) *)

From Stdlib Require Import Ascii DecimalString.

Module HashTable.

Import Extract.

(** The loop of [std::lower_bound(m_begin, m_end, needle, comp)] with
    [comp(entry, needle) = entry.hash < needle], as the standard library
    runs it (libstdc++, bits/stl_algobase.h): [first] and [len] delimit
    what is left of the range, [middle = first + (len >> 1)] is compared
    and one half is dropped.  [len] shrinks at every turn, so the fuel
    [len] ends the loop; [middle] lies inside the range. *)
Fixpoint lower_bound_loop (fuel : nat) (tbl : list HashEntry) (needle : Z)
    (first len : nat) : nat :=
  match fuel with
  | O => first
  | S f =>
      if (0 <? len)%nat then
        let half := Nat.div2 len in
        let middle := (first + half)%nat in
        match tbl !! middle with
        | Some entry =>
            if he_hash entry <? needle
            then lower_bound_loop f tbl needle (S middle) (len - half - 1)
            else lower_bound_loop f tbl needle first half
        | None => first
        end
      else first
  end.

(** The position [std::lower_bound] returns, from [m_begin]. *)
Definition lower_bound (tbl : list HashEntry) (needle : Z) : nat :=
  lower_bound_loop (length tbl) tbl needle 0 (length tbl).

(** The table is the range [m_begin, m_end); [None] is [nullptr]. *)
Definition findHash (tbl : list HashEntry) (needle : Z) : option HashEntry :=
  match tbl !! lower_bound tbl needle with
  | Some e => if he_hash e =? needle then Some e else None
  | None => None
  end.

(** Entries in the order of [HashEntry::operator<], which compares the
    hashes. *)
Definition sorted (tbl : list HashEntry) : Prop :=
  forall i j a b, (i <= j)%nat -> tbl !! i = Some a -> tbl !! j = Some b ->
                  he_hash a <= he_hash b.

(** Three entries out of order, and the same in order. *)
Definition entry_of (hash : Z) : HashEntry := mkHE 0 hash 0 0 0 0 0.
Definition unsorted_table : list HashEntry := [entry_of 5; entry_of 1; entry_of 3].
Definition sorted_table : list HashEntry := [entry_of 1; entry_of 3; entry_of 5].

End HashTable.

(** ** sanitize_fname (src/utils/common.cpp) *)

Module Fname.

(** The value of a [char], which is signed where the tool is built. *)
Definition code (c : ascii) : Z := signed 8 (Z.of_N (N_of_ascii c)).

Definition forbidden (c : ascii) : bool :=
  Ascii.eqb c ":" || Ascii.eqb c "*" || Ascii.eqb c "?" || Ascii.eqb c "034" ||
  Ascii.eqb c "<" || Ascii.eqb c ">" || Ascii.eqb c "|" ||
  (code c <? code " ") || (127 <=? code c).

Definition is_run_char (c : ascii) : bool :=
  Ascii.eqb c "." || Ascii.eqb c "/" || Ascii.eqb c "\".

(** [while (i < fname.size() && fname[i] == c) ++i]: the number of steps,
    on the rest of the name from [i] on. *)
Fixpoint run_length (c : ascii) (rest : list ascii) : nat :=
  match rest with
  | x :: r => if Ascii.eqb x c then S (run_length c r) else O
  | [] => O
  end.

(** The outer [while]; [rest] is the name from [i] on. *)
Fixpoint sanitize_loop (fuel : nat) (rest : list ascii) (sanitized : list ascii)
  : list ascii :=
  match fuel, rest with
  | S f, c :: r =>
      if forbidden c then sanitize_loop f r (sanitized ++ ["_"%char])
      else if is_run_char c then
        let count := run_length c rest in
        let out :=
          if (2 <=? count)%nat then
            if Ascii.eqb c "." then replicate count "_"%char else [c]
          else [c] in
        sanitize_loop f (drop count rest) (sanitized ++ out)
      else sanitize_loop f r (sanitized ++ [c])
  | _, _ => sanitized
  end.

(** Each turn moves [i] forward, so [fname.size()] turns end the loop. *)
Definition sanitize_fname (fname : list ascii) : list ascii :=
  sanitize_loop (length fname) fname [].

(** What one run of dots or slashes leaves in the output. *)
Definition run_out (c : ascii) (count : nat) : list ascii :=
  if (2 <=? count)%nat then
    if Ascii.eqb c "." then replicate count "_"%char else [c]
  else [c].

(** [c] twice in a row somewhere in [l]. *)
Definition has_pair (c : ascii) (l : list ascii) : Prop :=
  exists l1 l2, l = l1 ++ c :: c :: l2.

End Fname.

(** ** digest_t: text form (src/Veeam/VBK/digest_t.hpp) *)

Module Digest.

(** The lambda [from_hex]. *)
Definition from_hex (c : ascii) : outcome Z :=
  let n := Fname.code c in
  if (48 <=? n) && (n <=? 57) then Done (u8 (n - 48))
  else if (97 <=? n) && (n <=? 102) then Done (u8 (n - 97 + 10))
  else if (65 <=? n) && (n <=? 70) then Done (u8 (n - 65 + 10))
  else Thrown "Invalid hex character".

(** [hex[i]] *)
Definition char_at (hex : list ascii) (i : nat) : ascii := nth i hex "000"%char.

(** The [for] of [parse] over the turns [idxs]; [result] is the sixteen
    bytes of the digest under construction. *)
Fixpoint parse_loop (hex : list ascii) (idxs : list nat) (result : buf_t)
  : outcome buf_t :=
  match idxs with
  | [] => Done result
  | i :: r =>
      match from_hex (char_at hex (2 * i)) with
      | Thrown e => Thrown e
      | Done hi =>
          match from_hex (char_at hex (2 * i + 1)) with
          | Thrown e => Thrown e
          | Done lo =>
              parse_loop hex r
                (<[i := byte_of_Z (Z.lor (Z.shiftl hi 4) lo)]> result)
          end
      end
  end.

Definition parse (hex : list ascii) : outcome Z :=
  let max_bytes := Nat.min (length hex / 2) 16 in
  match parse_loop hex (seq 0 max_bytes) (replicate 16 Byte.x00) with
  | Thrown e => Thrown e
  | Done result => Done (le_Z result)
  end.

(** [__builtin_bswap64] *)
Definition bswap64 (x : Z) : Z := le_Z (rev (le_bytes 8 x)).

Definition hex_digit (d : Z) : ascii :=
  nth (Z.to_nat d) (list_ascii_of_string "0123456789abcdef") "0"%char.

(** [{:0Nx}] for a value of at most [n] hexadecimal digits. *)
Fixpoint hex_pad (n : nat) (x : Z) : list ascii :=
  match n with
  | O => []
  | S k => hex_pad k (x / 16) ++ [hex_digit (x mod 16)]
  end.

(** The two digits of one byte, high one first. *)
Definition hex2 (b : byte) : list ascii :=
  [hex_digit (byte_to_Z b / 16); hex_digit (byte_to_Z b mod 16)].

(** [fmt::formatter<digest_t>::format] *)
Definition format (digest : Z) : list ascii :=
  let lo := u64 digest in
  let hi := u64 (Z.shiftr digest 64) in
  hex_pad 16 (bswap64 lo) ++ hex_pad 16 (bswap64 hi).

End Digest.

(** ** CMeta::for_each_page (src/core/CMeta.cpp) *)

Module CMetaPages.

(** The inner [for] over one bank, from [page_id] on: the pages handed to
    the callback, in order.  [bank_id] and [page_id] are [uint32_t], and
    [PhysPageId(uint32_t, uint32_t)] stores them in [int32_t] fields;
    [None] when the fuel runs out before the loop ends. *)
Fixpoint bank_loop (fuel : nat) (bank_id : Z) (bank : buf_t) (page_id : Z)
  : option (list (PhysPageId * buf_t)) :=
  match fuel with
  | O => None
  | S f =>
      if negb (page_id <? u64 (len bank / PAGE_SIZE - 1)) then Some []
      else
        let ppi := mkPPI (s32 page_id) (s32 bank_id) in
        let off := u64 (u32 (page_id + 1) * PAGE_SIZE) in
        if len bank <=? off then Some []
        else
          let pdata := slice (Z.to_nat off) (Z.to_nat PAGE_SIZE) bank in
          if all_eq Byte.x00 pdata
          then bank_loop f bank_id bank (u32 (page_id + 1))
          else
            match bank_loop f bank_id bank (u32 (page_id + 1)) with
            | None => None
            | Some r => Some ((ppi, pdata) :: r)
            end
  end.

(** The outer [for], over the banks from [bank_id] on; the counter does
    not wrap while there are fewer than [2^32] banks. *)
Fixpoint banks_loop (bank_id : Z) (banks : list buf_t)
  : option (list (PhysPageId * buf_t)) :=
  match banks with
  | [] => Some []
  | bank :: r =>
      match bank_loop (S (length bank)) bank_id bank 0, banks_loop (bank_id + 1) r with
      | Some a, Some b => Some (a ++ b)
      | _, _ => None
      end
  end.

Definition for_each_page (m : CMeta.t) : option (list (PhysPageId * buf_t)) :=
  banks_loop 0 (CMeta.m_banks m).

End CMetaPages.

(** ** bytes2human (src/utils/units.cpp) *)

Module Units.

Definition units : list string := [EmptyString; "Kb"; "Mb"; "Gb"; "Tb"]%string.

(** [while (min_unit > 1)]: at most seven turns bring a [uint64_t] to
    zero. *)
Fixpoint min_unit_loop (fuel : nat) (min_unit size i : Z) : Z * Z :=
  match fuel with
  | O => (size, i)
  | S f =>
      if 1 <? min_unit then min_unit_loop f (min_unit / 1024) (size / 1024) (i + 1)
      else (size, i)
  end.

(** [while (i < units.size()-1 && size >= 4096)]: at most four turns. *)
Fixpoint scale_loop (fuel : nat) (size i : Z) : Z * Z :=
  match fuel with
  | O => (size, i)
  | S f =>
      if (i <? 4) && (4096 <=? size) then scale_loop f (size / 1024) (i + 1)
      else (size, i)
  end.

(** [std::to_string] of an unsigned value. *)
Definition to_string (n : Z) : string :=
  DecimalString.NilZero.string_of_uint (N.to_uint (Z.to_N n)).

(** The number printed and the index of its unit. *)
Definition scaled (size min_unit : Z) : Z * Z :=
  let '(size1, i1) := min_unit_loop 7 min_unit size 0 in
  scale_loop 4 size1 i1.

Definition bytes2human (size : Z) (default_unit : string) (min_unit : Z) : string :=
  let '(size2, i2) := scaled size min_unit in
  String.append (to_string size2)
    (if i2 =? 0 then default_unit else nth (Z.to_nat i2) units EmptyString).

End Units.

(** ** simple_glob_match (src/utils/common.hpp) *)

Module Glob.

(** The closing [while (p < pattern.size() && pattern[p] == '*') ++p]
    and [return p == pattern.size()], on the pattern from [p] on. *)
Fixpoint only_stars (rest : list ascii) : bool :=
  match rest with
  | [] => true
  | x :: r => Ascii.eqb x "*" && only_stars r
  end.

(** The first [while]; [star = None] is [npos], and [None] is returned
    when the fuel runs out before the loop ends. *)
Fixpoint glob_loop (fuel : nat) (pattern str : list ascii) (p s : nat)
    (star : option nat) (match_ : nat) : option bool :=
  match fuel with
  | O => None
  | S f =>
      match str !! s with
      | None => Some (only_stars (drop p pattern))
      | Some c =>
          let backtrack :=
            match star with
            | Some st => glob_loop f pattern str (S st) (S match_) star (S match_)
            | None => Some false
            end in
          match pattern !! p with
          | Some x =>
              if Ascii.eqb x "?" || Ascii.eqb x c
              then glob_loop f pattern str (S p) (S s) star match_
              else if Ascii.eqb x "*"
                   then glob_loop f pattern str (S p) s (Some p) s
                   else backtrack
          | None => backtrack
          end
      end
  end.

Definition simple_glob_match (pattern str : list ascii) : option bool :=
  glob_loop (S (length str * (length pattern + 2) + length pattern + 1))
            pattern str 0 0 None 0.

(** What a pattern means: [?] stands for one character, [*] for any
    number of them, any other character for itself. *)
Inductive matches : list ascii -> list ascii -> Prop :=
| matches_nil : matches [] []
| matches_char x p c s :
    x <> "*"%char -> x = "?"%char \/ x = c -> matches p s ->
    matches (x :: p) (c :: s)
| matches_star_none p s : matches p s -> matches ("*"%char :: p) s
| matches_star_more p c s :
    matches ("*"%char :: p) s -> matches ("*"%char :: p) (c :: s).

(** What the loop knows at its head. *)
Definition glob_inv (pattern str : list ascii) (p s : nat) (star : option nat) (match_ : nat) : Prop :=
  (p <= length pattern)%nat /\ (match_ <= s)%nat /\ (s <= length str)%nat /\
  forall st, star = Some st ->
    pattern !! st = Some "*"%char /\ (st < p)%nat /\
    (p - S st = s - match_)%nat /\
    Forall (fun x => x <> "*"%char) (take (p - S st) (drop (S st) pattern)).

(** What is still open at the head of the loop: the rest of the pattern
    on the rest of the string, or the pattern after the last star on a
    later start. *)
Definition glob_open (pattern str : list ascii) (p s : nat) (star : option nat) (match_ : nat) : Prop :=
  matches (drop p pattern) (drop s str) \/
  exists st m, star = Some st /\ (match_ < m <= length str)%nat /\
               matches (drop (S st) pattern) (drop m str).

End Glob.

(** ** Directories (src/Veeam/VBK/SDirItemRec.hpp, src/core/CMeta.cpp) *)

Module Dir.

(** [SDirItemRec], packed, [sizeof == 0xc0]:  type @0, name_len @4,
    name @8 (0x80 bytes), props_loc @0x88, f90 @0x90 and the union @0x94,
    which is [dir_t] (children_loc @0x94, children_num @0x9c) or [fib_t]
    (blocks_loc @0x98, nBlocks @0xa0, fib_size @0xa8).  An item is kept
    as its bytes. *)
Definition ITEM_SIZE : nat := 0xc0.

Definition type_ (item : buf_t) : Z := rd_s32 0 item.
Definition name_len (item : buf_t) : Z := rd_u32 4 item.
Definition name (item : buf_t) : buf_t := slice 8 0x80 item.
Definition props_loc (item : buf_t) : PhysPageId := rd_ppi 0x88 item.
Definition children_loc (item : buf_t) : PhysPageId := rd_ppi 0x94 item.
Definition children_num (item : buf_t) : Z := rd_s64 0x9c item.
Definition blocks_loc (item : buf_t) : PhysPageId := rd_ppi 0x98 item.
Definition nBlocks (item : buf_t) : Z := rd_u64 0xa0 item.
Definition fib_size (item : buf_t) : Z := rd_u64 0xa8 item.

Definition is_dir (item : buf_t) : bool := type_ item =? 1.

(** [std::string(name, std::min((size_t)name_len, sizeof(name)))] *)
Definition get_name (item : buf_t) : string :=
  string_of_list_byte (take (Z.to_nat (Z.min (name_len item) 0x80)) (name item)).

(** The value of a [char] of the name, which is signed. *)
Definition char (b : byte) : Z := signed 8 (byte_to_Z b).

Definition valid_name (item : buf_t) : bool :=
  if (name_len item =? 0) || (0x80 <? name_len item) then false
  else forallb (fun c => (0x20 <=? char c) && (char c <? 0x7f))
               (take (Z.to_nat (name_len item)) (name item)).

(** [base_t::valid(max_banks)] *)
Definition base_valid (item : buf_t) (max_banks : Z) : bool :=
  let r := (0 <? nBlocks item) && (nBlocks item <=? fib_size item) &&
           (0 <? fib_size item) && ppi_valid (blocks_loc item) in
  if negb (max_banks =? 0) then r && (bank_id (blocks_loc item) <? max_banks) else r.

(** [dir_t::valid(max_banks)] *)
Definition dir_valid (item : buf_t) (max_banks : Z) : bool :=
  let r := ppi_valid (children_loc item) && (0 <? children_num item) in
  if negb (max_banks =? 0) then r && (bank_id (children_loc item) <? max_banks) else r.

(** [SDirItemRec::valid(max_banks)] *)
Definition valid (item : buf_t) (max_banks : Z) : bool :=
  let r := (1 <=? type_ item) && (type_ item <=? 5) && valid_name item &&
           Ppi.valid_or_empty (props_loc item) in
  if negb r then false
  else if negb (max_banks =? 0) &&
          negb (ppi_empty (props_loc item) || (bank_id (props_loc item) <? max_banks))
  then false
  else if type_ item =? 1 then dir_valid item max_banks
  else if type_ item =? 2 then true
  else if type_ item =? 3 then base_valid item max_banks
  else if (type_ item =? 4) || (type_ item =? 5) then true
  else false.

(** [VFileAttribs] as [memcpy] fills it from the bytes at [off]. *)
Definition rd_attribs (off : nat) (buf : buf_t) : CMeta.VFileAttribs :=
  CMeta.mkAttribs (rd_s32 off buf) (rd_s32 (off + 4) buf) (rd_s32 (off + 8) buf)
    (rd_ppi (off + 12) buf) (rd_s64 (off + 20) buf) (rd_s64 (off + 28) buf)
    (rd_s64 (off + 36) buf) (rd_s64 (off + 44) buf).

(** [vLoadFile(dir_item, vFileDesc)]: the descriptor when the result is
    true.  The attributes are copied from
    [sizeof(SDirItemRec) - 0x38 + off]. *)
Definition vLoadFile (item : buf_t) : option CMeta.VFile :=
  if type_ item =? 3
  then Some (CMeta.mkVFile FT_INT_FIB (get_name item) (rd_attribs (0xc0 - 0x38 + 4) item))
  else if type_ item =? 1
  then Some (CMeta.mkVFile FT_SUBFOLDER (get_name item) (rd_attribs (0xc0 - 0x38 + 0) item))
  else if type_ item =? 5
  then Some (CMeta.mkVFile FT_INCREMENT (get_name item) (rd_attribs (0xc0 - 0x38 + 4) item))
  else None.

(** The set [visited_pages] points to, if any, and the calls of the
    callback so far: path and descriptor. *)
Definition state : Type := option (list PhysPageId) * list (string * CMeta.VFile).

Definition call (path : string) (f : CMeta.VFile) (st : state) : state :=
  (fst st, snd st ++ [(path, f)]).

Section Traversal.

Variable beyond : buf_t -> buf_t.
Variable m : CMeta.t.

Section Page.

(** [read_dir], as [process_dir_page] calls it. *)
Variable read_dir_rec :
  PhysPageId -> (string -> string) -> state -> option (outcome state).

(** The [for] of [process_dir_page] over the items [idxs] of the page;
    [cb] gives the path the callback is called with. *)
Fixpoint process_items (page : buf_t) (idxs : list nat) (cb : string -> string)
    (st : state) : option (outcome state) :=
  match idxs with
  | [] => Some (Done st)
  | i :: r =>
      let item := slice (i * ITEM_SIZE) ITEM_SIZE page in
      if negb (valid item 0) then Some (Done st)
      else
        match vLoadFile item with
        | Some vCurFile =>
            let st1 := call (cb (get_name item)) vCurFile st in
            if is_dir item && valid item 0 then
              match read_dir_rec (children_loc item)
                      (fun dirname => cb (get_name item ++ "/" ++ dirname)%string) st1 with
              | Some (Done st2) => process_items page r cb st2
              | other => other
              end
            else process_items page r cb st1
        | None => process_items page r cb st
        end
  end.

(** [PAGE_SIZE/sizeof(SDirItemRec)] items. *)
Definition process_dir_page (page : buf_t) (cb : string -> string) (st : state)
  : option (outcome state) :=
  process_items page (seq 0 21) cb st.

(** The [for (ppi : page_stack)] of [read_dir]. *)
Fixpoint dir_pages (ids : list PhysPageId) (cb : string -> string) (st : state)
  : option (outcome state) :=
  match ids with
  | [] => Some (Done st)
  | ppi :: r =>
      match CMeta.fetch beyond m ppi with
      | None => dir_pages r cb st
      | Some page =>
          match fst st with
          | Some visited =>
              if CMeta.visited_mem ppi visited then dir_pages r cb st
              else
                match process_dir_page page cb (Some (ppi :: visited), snd st) with
                | Some (Done st') => dir_pages r cb st'
                | other => other
                end
          | None =>
              match process_dir_page page cb st with
              | Some (Done st') => dir_pages r cb st'
              | other => other
              end
          end
      end
  end.

End Page.

(** [read_dir(dir_ppi, cb, visited_pages)]; the fuel bounds the depth of
    the calls, and [None] is returned when it runs out. *)
Fixpoint read_dir (fuel : nat) (dir_ppi : PhysPageId) (cb : string -> string)
    (st : state) : option (outcome state) :=
  match fuel with
  | O => None
  | S f =>
      match CMeta.get_page_stack beyond m dir_ppi with
      | Thrown e => Some (Thrown e)
      | Done page_stack =>
          if CPageStack.valid page_stack then
            match CPageStack.iter page_stack with
            | Thrown e => Some (Thrown e)
            | Done ids => dir_pages (read_dir f) ids cb st
            end
          else Some (Done st)
      end
  end.

End Traversal.

(** The page ids under which [get_page] finds a page: a bank of the
    store and a page that starts inside it, the header page of the bank
    (page id -1) included. *)
Definition fetchable (m : CMeta.t) : list PhysPageId :=
  b ← seq 0 (length (CMeta.m_banks m));
  (fun p => PPI (Z.of_nat b) (Z.of_nat p - 1)) <$>
    seq 0 (S (Z.to_nat (len (default [] (CMeta.m_banks m !! b)) / PAGE_SIZE))).

(** Page ids as the fields of the packed record hold them. *)
Definition ppi_int32 (p : PhysPageId) : Prop :=
  -2^31 <= page_id p < 2^31 /\ -2^31 <= bank_id p < 2^31.

(** What holds of a descriptor the callback is called with. *)
Definition listed (f : CMeta.VFile) : Prop :=
  (CMeta.type f = FT_SUBFOLDER \/ CMeta.type f = FT_INT_FIB \/
   CMeta.type f = FT_INCREMENT) /\
  (1 <= String.length (CMeta.name f) <= 128)%nat /\
  (CMeta.type f <> FT_INCREMENT -> ppi_valid (CMeta.ppi (CMeta.attribs f)) = true).

(** Deeper than this the calls of [read_dir] cannot nest when pages are
    tracked. *)
Definition read_dir_fuel (m : CMeta.t) : nat := S (length (fetchable m)).

(** A set of visited pages: distinct pages the store can deliver. *)
Definition tracked (m : CMeta.t) (v : list PhysPageId) : Prop :=
  NoDup v /\ forall x, x ∈ v -> x ∈ fetchable m.

(** A call that returns, with more pages visited and more entries
    listed. *)
Definition returns (m : CMeta.t) (r : option (outcome state)) (v : list PhysPageId)
  : Prop :=
  exists v' out', r = Some (Done (Some v', out')) /\ tracked m v' /\
                  (length v <= length v')%nat /\ Forall (fun e => listed (snd e)) out'.

(** A [read_dir] that returns when called with fuel [f] to spare. *)
Definition ends_within (m : CMeta.t) (f : nat)
    (rec : PhysPageId -> (string -> string) -> state -> option (outcome state)) : Prop :=
  forall ppi cb v out,
    tracked m v -> Forall (fun e => listed (snd e)) out ->
    (length (fetchable m) < f + length v)%nat ->
    returns m (rec ppi cb (Some v, out)) v.

Section Files.

Variable beyond : buf_t -> buf_t.
Variable m : CMeta.t.

(** The callback that [for_each_file] gives to [for_each_page], over the
    pages [for_each_page] calls it with: a page that is not in the set is
    read as a directory page, and the set is left as it is. *)
Fixpoint orphan_pages (pages : list (PhysPageId * buf_t)) (st : state)
  : option (outcome state) :=
  match pages with
  | [] => Some (Done st)
  | (ppi, pdata) :: r =>
      if match fst st with
         | Some visited => CMeta.visited_mem ppi visited
         | None => false
         end
      then orphan_pages r st
      else
        match process_dir_page (read_dir beyond m (read_dir_fuel m)) pdata
                (fun dirname => dirname) st with
        | Some (Done st') => orphan_pages r st'
        | other => other
        end
  end.

(** The [for] over what [deep_scan()] returns. *)
Fixpoint deep_files (files : list CMeta.VFile) (st : state) : state :=
  match files with
  | [] => st
  | vfi :: r =>
      match fst st with
      | Some visited =>
          if CMeta.visited_mem (CMeta.ppi (CMeta.attribs vfi)) visited
          then deep_files r st
          else deep_files r
                 (call (CMeta.name vfi) vfi
                    (Some (CMeta.ppi (CMeta.attribs vfi) :: visited), snd st))
      | None => deep_files r st
      end
  end.

(** [for_each_file(cb)]; [deep_scan] is the result of [deep_scan()],
    which is called when [m_deep_scan] is set. *)
Definition for_each_file (m_deep_scan : bool) (deep_scan : list CMeta.VFile)
  : option (outcome state) :=
  match read_dir beyond m (read_dir_fuel m) (PPI 0 0) (fun fname => fname)
          (Some [], []) with
  | Some (Done st1) =>
      match CMetaPages.for_each_page m with
      | None => None
      | Some pages =>
          match orphan_pages pages st1 with
          | Some (Done st2) =>
              Some (Done (if m_deep_scan then deep_files deep_scan st2 else st2))
          | other => other
          end
      end
  | other => other
  end.

End Files.

(** A directory item as bytes: the head, then the 44 bytes of the
    union. *)
Definition item_bytes (type_ : Z) (name : string) (u : buf_t) : buf_t :=
  le_bytes 4 type_ ++ le_bytes 4 (Z.of_nat (String.length name)) ++
  take 0x80 (list_byte_of_string name ++ replicate 0x80 Byte.x00) ++
  ppi_bytes INVALID_PPI ++ le_bytes 4 0 ++ take 44 (u ++ replicate 44 Byte.x00).

Definition file_item (name : string) (blocks_loc : PhysPageId) (nBlocks fib_size : Z)
  : buf_t :=
  item_bytes 3 name (le_bytes 4 0 ++ ppi_bytes blocks_loc ++ le_bytes 8 nBlocks ++
                     le_bytes 8 fib_size).

Definition folder_item (name : string) (children_loc : PhysPageId) (children_num : Z)
  : buf_t :=
  item_bytes 1 name (ppi_bytes children_loc ++ le_bytes 8 children_num).

(** A store whose root directory 0:0 has the one page 0:1, with a file
    and a folder whose children are the root directory again. *)
Definition looping_store : CMeta.t :=
  CMeta.mk [Samples.bank_of
              [ Samples.index_page INVALID_PPI (PPI 0 0) [PPI 0 1];
                Samples.pad_page Byte.x00
                  (file_item "a.bin" (PPI 0 2) 1 1 ++ folder_item "sub" (PPI 0 0) 1) ]]
           false.

End Dir.

(** ** Reader (src/io/Reader.cpp), as built for Windows, where devices
    are read in whole sectors *)

Module Reader.

Record t : Type := mk {
  m_align : Z;     (* size_t: the sector size of a device, else 0 *)
  m_size : Z       (* size_t *)
}.

Definition chunk_size : Z := 2 ^ 30.

Section Sys.

(** [::read(m_fd, ...)] at a position of the file, for a number of
    bytes: the bytes delivered.  [Thrown] stands for the result -1; a
    call that a signal interrupts is taken as repeated, and [lseek] as
    successful. *)
Variable sys_read : Z -> Z -> outcome buf_t.

(** The [while (total_read < count)] of [locked_read_at]; [out] is what
    the buffer holds so far, [total_read] its length. *)
Fixpoint read_loop (fuel : nat) (offset count : Z) (out : buf_t)
  : option (outcome buf_t) :=
  match fuel with
  | O => None
  | S f =>
      let total_read := len out in
      if negb (total_read <? count) then Some (Done out)
      else
        let to_read := Z.min chunk_size (u64 (count - total_read)) in
        match sys_read (offset + total_read) to_read with
        | Thrown e => Some (Thrown e)
        | Done d =>
            if len d =? 0 then Some (Done out)
            else read_loop f offset count (out ++ d)
        end
  end.

(** [locked_read_at(buf, count, offset)]: the bytes put into [buf];
    their number is the result.  Each turn of the loop that goes on adds
    a byte at least. *)
Definition locked_read_at (count offset : Z) : option (outcome buf_t) :=
  read_loop (S (Z.to_nat count)) offset count [].

(** [read_at(offset, buf, count)]: the result and the bytes copied to
    [buf].  The fuel bounds the depth of the calls. *)
Fixpoint read_at (fuel : nat) (r : t) (offset count : Z)
  : option (outcome (Z * buf_t)) :=
  match fuel with
  | O => None
  | S f =>
      if offset <? 0 then Some (Thrown "offset < 0")
      else if m_size r <=? u64 offset then Some (Done (0, []))
      else if negb (m_align r =? 0) &&
              (negb (count mod m_align r =? 0) || negb (u64 offset mod m_align r =? 0))
      then
        let tmp_size := u64 (count + u64 (m_align r * 2)) in
        let shift := u64 offset mod m_align r in
        match read_at f r (s64 (u64 offset - shift))
                (Z.land tmp_size (Z.lnot (u64 (m_align r - 1)))) with
        | Some (Done (nread, data)) =>
            let tmp := take (Z.to_nat tmp_size)
                            (data ++ replicate (Z.to_nat tmp_size) Byte.x00) in
            let nread := u64 (nread - shift) in
            let count := if nread <? count then nread else count in
            Some (Done (count, slice (Z.to_nat shift) (Z.to_nat count) tmp))
        | other => other
        end
      else if negb (m_align r =? 0) && (m_size r <? u64 (offset + count)) &&
              (m_size r <=? u64 offset)
      then Some (Done (0, []))
      else
        let count :=
          if negb (m_align r =? 0) && (m_size r <? u64 (offset + count))
          then u64 (m_size r - offset) else count in
        match locked_read_at count offset with
        | Some (Done data) =>
            if s64 (len data) =? -1 then Some (Thrown "read") else Some (Done (len data, data))
        | Some (Thrown e) => Some (Thrown e)
        | None => None
        end
  end.

End Sys.

(** A file or device that [::read] delivers piece by piece: at least one
    byte of what is asked for, as long as there is one. *)
Definition reads_file (file : buf_t) (sys_read : Z -> Z -> outcome buf_t) : Prop :=
  forall pos n, 0 <= pos -> 0 < n ->
    exists j, (0 < j)%nat /\
      sys_read pos n = Done (take j (slice (Z.to_nat pos) (Z.to_nat n) file)).

(** A device that delivers no more than seven bytes at a time. *)
Definition slow_device (file : buf_t) : Z -> Z -> outcome buf_t :=
  fun pos n => Done (take 7 (slice (Z.to_nat pos) (Z.to_nat n) file)).

(** Forty bytes, numbered. *)
Definition numbered : buf_t := map (fun i => byte_of_Z (Z.of_nat i)) (seq 0 40).

End Reader.

(** ** Resuming an extraction (src/processing/ExtractContext.cpp,
    [process_file], lines 101 to 182) *)

Module Resume.

Import Extract.

(** What [process_file] has settled when the block loop starts. *)
Record plan : Type := mkPlan {
  should_truncate : bool;
  blocks_to_skip : Z;         (* size_t *)
  fti_start : FileTestInfo
}.

(** The [for] over [vAllB_temp], from block [i] on. *)
Fixpoint count_sparse (i blocks_to_skip : Z) (blocks : list VBlockDesc)
    (skipped_sparse : Z) : Z :=
  match blocks with
  | [] => skipped_sparse
  | b :: r =>
      if i <? blocks_to_skip
      then count_sparse (i + 1) blocks_to_skip r
             (if vb_is_empty b then incr skipped_sparse else skipped_sparse)
      else skipped_sparse
  end.

(** Lines 102 to 144 when [resume] is set, [test_only] is not, and the
    output file exists with [existing_size] bytes. *)
Definition plan_resume (vFile : CMeta.VFile) (existing_size : Z)
    (vAllB_temp : list VBlockDesc) : plan :=
  let existing_blocks := u64 (Z.quot existing_size BLOCK_SIZE) in
  let blocks_to_skip :=
    if 2 <=? existing_blocks then u64 (existing_blocks - 2) else 0 in
  let should_truncate :=
    if 0 <? blocks_to_skip then false else negb (CMeta.is_diff vFile) in
  let skipped_sparse := count_sparse 0 blocks_to_skip vAllB_temp 0 in
  mkPlan should_truncate blocks_to_skip
         (mkFTI skipped_sparse (u64 (blocks_to_skip - skipped_sparse)) 0 0 0 0 0).

(** Lines 151 to 156: the writer, opened and moved to the resume
    position. *)
Definition open_writer (blocks_to_skip : Z) : outcome Writer.t :=
  if 0 <? blocks_to_skip
  then Writer.seek (Writer.mk 0 []) (s64 (u64 (blocks_to_skip * BLOCK_SIZE)))
                   Writer.SEEK_SET
  else Done (Writer.mk 0 []).

(** The variables of [process_file] when the loop of a resumed
    extraction starts. *)
Definition resumed_state (vFile : CMeta.VFile) (p : plan) (w : Writer.t)
    (cache : LruSet.t) (used : gset Z) : state :=
  mkSt (fti_start p) (Some w) (CMeta.filesize (CMeta.attribs vFile)) 0 [] [] 0 255
       cache used.

(** A file of three empty blocks and one byte of a fourth, stored
    block. *)
Definition tail_file : CMeta.VFile :=
  CMeta.mkVFile FT_INT_FIB "tail.bin"
    (CMeta.mkAttribs 0 0 0 (PPI 0 0) 4 (3 * BLOCK_SIZE + 1) 0 0).

Definition tail_blocks : list VBlockDesc :=
  [vb_zero; vb_zero; vb_zero; mkVB BLOCK_SIZE 0 0xa1 1 0 0 0].

(** The block loop on the sample, skipping [k] blocks, from [s]. *)
Definition run_tail (k : Z) (s : state) : outcome state :=
  process_blocks Crc.crc32c Samples.lz4_literals Samples.no_zlib Samples.no_zstd
    Samples.no_md5 Samples.ctx_increment tail_file k 0 tail_blocks s.

(** Where the writer stands after a run. *)
Definition end_pos (r : outcome state) : option Z :=
  match r with
  | Done s => Writer.pos <$> writer s
  | Thrown _ => None
  end.

End Resume.

(** ** Which files an extraction takes (src/commands/MDCommand.cpp,
    src/processing/ExtractContext.cpp, src/utils/common.cpp) *)

Module Select.

(** [is_glob(const std::string&)] *)
Definition is_glob (s : list ascii) : bool :=
  existsb (fun x => Ascii.eqb x "*") s || existsb (fun x => Ascii.eqb x "?") s.

(** [s.find(c) != std::string::npos] *)
Definition has_char (c : ascii) (s : list ascii) : bool :=
  existsb (fun x => Ascii.eqb x c) s.

(** [std::string::find_last_of(c)]: the last position of [c], [None]
    for [npos]. *)
Fixpoint find_last_of (c : ascii) (s : list ascii) : option nat :=
  match s with
  | [] => None
  | x :: r =>
      match find_last_of c r with
      | Some i => Some (S i)
      | None => if Ascii.eqb x c then Some O else None
      end
  end.

(** The members of [ExtractContext] that choose the files. *)
Record filter : Type := mkFilter {
  needle_ppi : PhysPageId;
  xname : list ascii;
  xname_is_glob : bool;
  xname_is_full : bool
}.

Section Needle.

(** [sscanf(str, "%x:%x", &bid, &pid)] of the C library, on [bid] and
    [pid] set to 0: what the call leaves in the two variables. *)
Variable sscanf_ids : list ascii -> Z * Z.

(** [PhysPageId(const std::string&)] *)
Definition ppi_of_string (str : list ascii) : PhysPageId :=
  let '(bid, pid) := sscanf_ids str in
  mkPPI (s32 pid) (s32 bid).

(** [MDCommand::extract_file], lines 245 to 251: a name with a colon and
    fewer than ten characters is read as a page id, and the id [0:0] is
    given up for the default one. *)
Definition needle (xname : list ascii) : PhysPageId :=
  if has_char ":" xname && (length xname <? 10)%nat then
    let ppi := ppi_of_string xname in
    if ppi_zero ppi then INVALID_PPI else ppi
  else INVALID_PPI.

(** [MDCommand::extract_file], lines 322 and 326 to 328: the members of
    the context that choose the files. *)
Definition extract_filter (xname : list ascii) : filter :=
  mkFilter (needle xname) xname (is_glob xname) (has_char "/" xname).

End Needle.

(** [process_file], lines 58 to 82: whether the file goes on to be
    extracted; [None] when the matcher does not answer. *)
Definition selected (f : filter) (pathname : list ascii) (vFile : CMeta.VFile)
  : option bool :=
  if CMeta.is_dir vFile then Some false
  else if ppi_valid (needle_ppi f)
  then Some (ppi_eqb (CMeta.ppi (CMeta.attribs vFile)) (needle_ppi f))
  else if negb (bool_decide (xname f = []))
  then
    if xname_is_glob f then Glob.simple_glob_match (xname f) pathname
    else if xname_is_full f then Some (bool_decide (pathname = xname f))
    else
      let pos := match find_last_of "/" pathname with
                 | None => O
                 | Some p => S p
                 end in
      Some (bool_decide (drop pos pathname = xname f))
  else Some true.

(** A stand-in for the C library on names made of hexadecimal digits
    around one colon: the two numbers. *)
Definition hex_value (s : list ascii) : Z :=
  fold_left (fun acc c =>
               16 * acc + match Digest.from_hex c with Done v => v | Thrown _ => 0 end)
            s 0.

Fixpoint split_colon (s : list ascii) : list ascii * list ascii :=
  match s with
  | [] => ([], [])
  | c :: r =>
      if Ascii.eqb c ":" then ([], r)
      else let '(a, b) := split_colon r in (c :: a, b)
  end.

Definition hex_ids (s : list ascii) : Z * Z :=
  let '(a, b) := split_colon s in (hex_value a, hex_value b).

(** A file whose page stack starts at page 0:5. *)
Definition file_at_5 : CMeta.VFile :=
  CMeta.mkVFile FT_INT_FIB "summary.xml" (CMeta.mkAttribs 0 0 0 (PPI 0 5) 1 1 0 0).

End Select.

(** * Properties *)

Import Samples.

(** ** Machine arithmetic *)

Lemma u32_small z : 0 <= z < 2^32 -> u32 z = z.
Proof. intros. unfold u32. apply Z.mod_small. lia. Qed.

Lemma u32_neg z : -2^31 <= z < 0 -> u32 z = z + 2^32.
Proof. intros. unfold u32. symmetry. apply (Z.mod_unique _ _ (-1)); lia. Qed.

Lemma u64_small z : 0 <= z < 2^64 -> u64 z = z.
Proof. intros. unfold u64. apply Z.mod_small. lia. Qed.

Lemma u64_neg z : -2^63 <= z < 0 -> u64 z = z + 2^64.
Proof. intros. unfold u64. symmetry. apply (Z.mod_unique _ _ (-1)); lia. Qed.

Lemma u64_range z : 0 <= u64 z < 2^64.
Proof. unfold u64. apply Z.mod_pos_bound. lia. Qed.

Lemma byte_to_Z_range b : 0 <= byte_to_Z b < 256.
Proof. destruct b; vm_compute; split; congruence. Qed.

Lemma le_Z_nonneg bs : 0 <= le_Z bs.
Proof.
  induction bs as [|b r IH]; simpl; [lia|].
  pose proof (byte_to_Z_range b). lia.
Qed.

Lemma land_15 n : Z.land n 15 = n mod 16.
Proof. change 15 with (Z.ones 4). by rewrite Z.land_ones by lia. Qed.

Lemma resize_length n buf : length (resize n buf) = n.
Proof. unfold resize. rewrite length_app, length_take, length_replicate. lia. Qed.

(** ** vcrc32: the values pinned by tests/vcrc32_test.cpp *)

Example crc32c_empty : Crc.crc32c 0 [] = 0.
Proof. reflexivity. Qed.

Example crc32c_zeroes :
  Crc.crc32c 0 (replicate 1 Byte.x00) = 0x527d5351 /\
  Crc.crc32c 0 (replicate 2 Byte.x00) = 0xf16177d2 /\
  Crc.crc32c 0 (replicate 3 Byte.x00) = 0x6064a37a /\
  Crc.crc32c 0 (replicate 4 Byte.x00) = 0x48674bc7.
Proof. repeat split; vm_compute; reflexivity. Qed.

Example crc32c_hello_world :
  Crc.crc32c 0 (map byte_of_Z [72;101;108;108;111;44;32;87;111;114;108;100;33])
  = 0x4d551068.
Proof. vm_compute. reflexivity. Qed.

(** ** PhysPageId *)

Lemma ppi_eqb_eq a b : ppi_eqb a b = true <-> a = b.
Proof.
  unfold ppi_eqb. destruct a, b; simpl.
  rewrite andb_true_iff, !Z.eqb_eq.
  split; [intros []; congruence | intros [= -> ->]; done].
Qed.

Example ppi_default_invalid : ppi_valid INVALID_PPI = false /\ ppi_empty INVALID_PPI = true.
Proof. split; reflexivity. Qed.

Example ppi_roundtrip : rd_ppi 0 (ppi_bytes (PPI 0x12 0x22)) = PPI 0x12 0x22.
Proof. reflexivity. Qed.

(** ** get_page *)

Lemma page_offset_plain p :
  -1 <= page_id p < 2^31 - 1 -> CMeta.page_offset p = (page_id p + 1) * PAGE_SIZE.
Proof.
  intros H. unfold CMeta.page_offset, s32, signed, u64, PAGE_SIZE.
  rewrite (Z.mod_small (page_id p + 1) (2^32)) by lia.
  destruct (Z.ltb_spec (page_id p + 1) (2^(32-1))); [|simpl in *; lia].
  rewrite (Z.mod_small (page_id p + 1)) by lia.
  apply Z.mod_small. lia.
Qed.

(** For a page id below [-1] the sum [page_id+1] is negative and its
    conversion to [size_t] puts the product just under [2^64]. *)
Lemma page_offset_negative p :
  -2^31 <= page_id p < -1 ->
  CMeta.page_offset p = 2^64 + (page_id p + 1) * PAGE_SIZE.
Proof.
  intros H. unfold CMeta.page_offset, s32, signed, u64, PAGE_SIZE.
  replace ((page_id p + 1) mod 2^32) with (page_id p + 1 + 2^32)
    by (apply (Z.mod_unique _ _ (-1)); lia).
  destruct (Z.ltb_spec (page_id p + 1 + 2^32) (2^(32-1))); [simpl in *; lia|].
  replace (page_id p + 1 + 2^32 - 2^32) with (page_id p + 1) by lia.
  replace ((page_id p + 1) mod 2^64) with (page_id p + 1 + 2^64)
    by (apply (Z.mod_unique _ _ (-1)); lia).
  symmetry. apply (Z.mod_unique _ _ 4095); lia.
Qed.

(** At [page_id = INT_MAX] the sum does not fit an [int]; wrapped, the
    product is [2^64 - 2^43]. *)
Lemma page_offset_int_max p :
  page_id p = 2^31 - 1 -> CMeta.page_offset p = 2^64 - 2^43.
Proof. intros H. unfold CMeta.page_offset. rewrite H. reflexivity. Qed.

(** Outside [-1 <= page_id < INT_MAX] the offset is beyond every bank of
    at most [2^43] bytes. *)
Lemma page_offset_beyond p :
  int32 (page_id p) -> page_id p < -1 \/ page_id p = 2^31 - 1 ->
  2^43 <= CMeta.page_offset p.
Proof.
  unfold int32. intros Hp [Hn|Hm].
  - rewrite page_offset_negative by lia. unfold PAGE_SIZE. lia.
  - rewrite page_offset_int_max by done. lia.
Qed.

(** C10, as stated: the bank 0 of 4097 bytes is loaded and its size
    exceeds [(page_id+1)*PAGE_SIZE = -4096] for the page id [0:-2], yet
    [get_page] fails: the product is formed in [size_t]. *)
Lemma get_page_counterexample :
  ~ (fst (fst (CMeta.get_page no_slack meta_partial (PPI 0 (-2)) [])) = true <->
     0 <= bank_id (PPI 0 (-2)) < Z.of_nat (length (CMeta.m_banks meta_partial)) /\
     (page_id (PPI 0 (-2)) + 1) * PAGE_SIZE
       < len (CMeta.bank_at meta_partial (PPI 0 (-2)))).
Proof.
  intros [_ H].
  assert (fst (fst (CMeta.get_page no_slack meta_partial (PPI 0 (-2)) [])) = true)
    as Hs.
  { apply H. split; [simpl; lia | vm_compute; reflexivity]. }
  vm_compute in Hs. discriminate.
Qed.

(** C10, amended. For every [PhysPageId] and banks of at most [2^43]
    bytes, [get_page] succeeds exactly when
    [0 <= bank_id < number of loaded banks], [page_id >= -1] and the size
    of that bank strictly exceeds [(page_id+1)*PAGE_SIZE]: one byte of
    the page is enough, and a page id below [-1] is never served.  On
    failure the output buffer is empty, and the object is unchanged in
    either case. *)
Theorem get_page_spec (beyond : buf_t -> buf_t) (m : CMeta.t) (p : PhysPageId)
    (dst : buf_t) :
  int32 (bank_id p) -> int32 (page_id p) ->
  Z.of_nat (length (CMeta.m_banks m)) <= 2^31 ->
  Forall (fun bank => len bank <= 2^43) (CMeta.m_banks m) ->
  (fst (fst (CMeta.get_page beyond m p dst)) = true <->
     exists bank, 0 <= bank_id p /\
                  CMeta.m_banks m !! Z.to_nat (bank_id p) = Some bank /\
                  -1 <= page_id p /\
                  (page_id p + 1) * PAGE_SIZE < len bank) /\
  (fst (fst (CMeta.get_page beyond m p dst)) = false ->
     snd (fst (CMeta.get_page beyond m p dst)) = []) /\
  snd (CMeta.get_page beyond m p dst) = m.
Proof.
  intros Hb Hp Hn Hsz. unfold int32 in *.
  split; [|split].
  - unfold CMeta.get_page, CMeta.bank_at.
    destruct (Z.leb_spec (Z.of_nat (length (CMeta.m_banks m))) (u32 (bank_id p)))
      as [H1|H1]; simpl.
    + split; [discriminate|]. intros (bank & H0 & Hl & _).
      apply lookup_lt_Some in Hl. rewrite u32_small in H1 by lia. lia.
    + assert (0 <= bank_id p).
      { destruct (Z.lt_ge_cases (bank_id p) 0); [|lia].
        rewrite u32_neg in H1 by lia. lia. }
      rewrite u32_small in H1 by lia.
      destruct (lookup_lt_is_Some_2 (CMeta.m_banks m) (Z.to_nat (bank_id p)))
        as [bank Hbank]; [lia|].
      rewrite Hbank. simpl.
      assert (len bank <= 2^43) as Hbig.
      { rewrite Forall_forall in Hsz. apply Hsz.
        by eapply list_elem_of_lookup_2. }
      destruct (Z.leb_spec (len bank) (CMeta.page_offset p)) as [Hle|Hgt]; simpl.
      * split; [discriminate|]. intros (b' & _ & Hl & Hge & Hlt). simplify_eq.
        destruct (Z.eq_dec (page_id p) (2^31 - 1)) as [Hm|Hm].
        -- rewrite Hm in Hlt. unfold PAGE_SIZE in Hlt. lia.
        -- rewrite page_offset_plain in Hle by lia. lia.
      * split; [|done]. intros _. exists bank.
        destruct (Z.lt_ge_cases (page_id p) (-1)) as [Hneg|Hge].
        { pose proof (page_offset_beyond p Hp (or_introl Hneg)). lia. }
        destruct (Z.eq_dec (page_id p) (2^31 - 1)) as [Hm|Hm].
        { pose proof (page_offset_beyond p Hp (or_intror Hm)). lia. }
        rewrite page_offset_plain in Hgt by lia. done.
  - unfold CMeta.get_page. repeat case_match; simpl; done.
  - unfold CMeta.get_page. repeat case_match; simpl; done.
Qed.

(** C10, on a bank of 4097 bytes: page 0:0 is served although only its
    first byte is there. *)
Lemma get_page_spec_witness :
  (int32 0 /\ int32 0 /\ Z.of_nat (length (CMeta.m_banks meta_partial)) <= 2^31 /\
   Forall (fun bank => len bank <= 2^43) (CMeta.m_banks meta_partial)) /\
  fst (fst (CMeta.get_page no_slack meta_partial (PPI 0 0) [])) = true.
Proof.
  assert (int32 0) as H0 by (unfold int32; lia).
  assert (Z.of_nat (length (CMeta.m_banks meta_partial)) <= 2^31) as Hn
    by (simpl; lia).
  assert (Forall (fun bank => len bank <= 2^43) (CMeta.m_banks meta_partial)) as Hs.
  { repeat constructor. vm_compute. discriminate. }
  split; [done|].
  pose proof (get_page_spec no_slack meta_partial (PPI 0 0) [] H0 H0 Hn Hs)
    as (Hiff & _ & _).
  apply Hiff. exists (replicate 4097 Byte.x00).
  split; [simpl; lia|]. split; [reflexivity|]. split; [simpl; lia|].
  vm_compute. reflexivity.
Defined.

(** ** FileHeader *)

(** C8, as stated: with 24 bytes for each [BankInfo] the slot of format 0
    would take 0x2000 bytes; [slot_size] is 0x1000, a [BankInfo] being 16
    bytes. *)
Lemma slot_size_counterexample :
  ~ (FileHeader.max_banks legacy_header = 0xF8 /\
     FileHeader.slot_size legacy_header =
       Z.land (Z.land (FileHeader.max_banks legacy_header * 24) (Z.lnot 0xF) + 120)
              (Z.lnot 0xFFF) + 0x1000 /\
     FileHeader.BankInfo_sizeof = 0x18).
Proof. intros (_ & _ & H). vm_compute in H. discriminate. Qed.

Example slot_size_legacy : FileHeader.slot_size legacy_header = 0x1000.
Proof. reflexivity. Qed.

(** C8, amended. For [slot_fmt] 0, 5, 9, [max_banks] is 0xF8, 0x7F00,
    0x7F00 and [slot_size] is
    [(((max_banks * 16) & ~0xF) + 120) & ~0xFFF + 0x1000], i.e. 0x1000,
    0x80000, 0x80000: a [BankInfo] occupies 0x10 bytes. *)
Theorem slot_size_spec (h : FileHeader.t) :
  FileHeader.slot_fmt h = 0 \/ FileHeader.slot_fmt h = 5 \/ FileHeader.slot_fmt h = 9 ->
  FileHeader.max_banks h = (if FileHeader.slot_fmt h =? 0 then 0xF8 else 0x7F00) /\
  FileHeader.BankInfo_sizeof = 0x10 /\
  FileHeader.slot_size h =
    Z.land (Z.land (FileHeader.max_banks h * 0x10) (Z.lnot 0xF) + 120) (Z.lnot 0xFFF)
    + 0x1000 /\
  FileHeader.slot_size h = (if FileHeader.slot_fmt h =? 0 then 0x1000 else 0x80000).
Proof.
  unfold FileHeader.slot_size, FileHeader.max_banks.
  intros [-> | [-> | ->]]; vm_compute; done.
Qed.

Lemma slot_size_spec_witness :
  FileHeader.slot_fmt md5_header = 9 /\
  FileHeader.max_banks md5_header = 0x7F00 /\
  FileHeader.slot_size md5_header = 0x80000.
Proof.
  split; [reflexivity|].
  pose proof (slot_size_spec md5_header (or_intror (or_intror eq_refl)))
    as (Hm & _ & _ & Hs).
  split; [exact Hm | exact Hs].
Defined.

(** ** CPageStack and get_page_stack *)

(** The [while] of [calc_idx] ends by its own test well within the fuel
    it is given: more fuel does not change the result. *)
Lemma reqTableNum_stable (page_idx : Z) (j : nat) : forall (k : nat) (f1 f2 : nat),
  0 <= page_idx -> page_idx + 1 <= 510 * 4 ^ Z.of_nat (k + j) ->
  (k + j <= 24)%nat -> (j < f1)%nat -> (j < f2)%nat ->
  CPageStack.reqTableNum_loop f1 page_idx (4 ^ Z.of_nat k)
  = CPageStack.reqTableNum_loop f2 page_idx (4 ^ Z.of_nat k).
Proof.
  induction j as [|j IH]; intros k f1 f2 H0 Hle Hk H1 H2;
    destruct f1 as [|f1]; [lia| |lia|]; destruct f2 as [|f2]; try lia; simpl.
  - assert (4 ^ Z.of_nat k <= 4 ^ 24) by (apply Z.pow_le_mono_r; lia).
    rewrite Nat.add_0_r in Hle.
    rewrite (u64_small (510 * 4 ^ Z.of_nat k)), (u64_small (page_idx + 1)) by lia.
    destruct (Z.ltb_spec (510 * 4 ^ Z.of_nat k) (page_idx + 1)); [lia | done].
  - destruct (_ <? _); [|done].
    assert (4 ^ Z.of_nat k * 4 = 4 ^ Z.of_nat (S k)) as E.
    { rewrite Nat2Z.inj_succ, Z.pow_succ_r by lia. lia. }
    assert (4 ^ Z.of_nat (S k) <= 4 ^ 24) by (apply Z.pow_le_mono_r; lia).
    rewrite E, u64_small by lia.
    apply IH; try lia. by replace (S k + j)%nat with (k + S j)%nat by lia.
Qed.

Lemma calc_idx_fuel (page_idx : Z) (fuel : nat) :
  0 <= page_idx < 2^48 -> (32 <= fuel)%nat ->
  CPageStack.reqTableNum_loop fuel page_idx 1
  = CPageStack.reqTableNum_loop 32 page_idx 1.
Proof.
  intros H Hf. apply (reqTableNum_stable page_idx 24 0); simpl; lia.
Qed.

Example calc_idx_values :
  CPageStack.calc_idx 0 = 2 /\ CPageStack.calc_idx 509 = 511 /\
  CPageStack.calc_idx 510 = 516 /\ CPageStack.calc_idx 511 = 517.
Proof. repeat split; reflexivity. Qed.

Lemma visited_mem_spec p vs : CMeta.visited_mem p vs = true <-> p ∈ vs.
Proof.
  unfold CMeta.visited_mem. rewrite existsb_exists. split.
  - intros (x & Hin & Heq). apply ppi_eqb_eq in Heq as ->. by apply list_elem_of_In.
  - intros Hin. exists p. split; [by apply list_elem_of_In | by apply ppi_eqb_eq].
Qed.

Lemma add_page_ok s page :
  CPageStack.m_finalized s = false -> len page = PAGE_SIZE ->
  exists s', CPageStack.add_page s page = Done s' /\ CPageStack.m_finalized s' = false.
Proof.
  intros Hf Hl. unfold CPageStack.add_page. rewrite Hl, Z.eqb_refl, Hf. simpl. eauto.
Qed.

Lemma trim_spec ids : forall n,
  (CPageStack.trim ids n <= n)%nat /\
  (CPageStack.trim ids n = O \/
   exists j, CPageStack.trim ids n = S j /\
             ppi_valid (default INVALID_PPI (ids !! j)) = true).
Proof.
  induction n as [|j IH]; simpl; [split; [lia | by left]|].
  destruct (ppi_valid (default INVALID_PPI (ids !! j))) eqn:Hv; simpl.
  - split; [lia|]. right. eauto.
  - destruct IH as [? ?]. split; [lia | done].
Qed.

Lemma fill_length tables : forall idxs ids,
  length (CPageStack.fill tables idxs ids) = length ids.
Proof.
  induction idxs as [|i r IH]; intros ids; simpl; [done|].
  rewrite IH. case_match; [apply length_insert | done].
Qed.

Lemma resize_ids_length n ids : length (CPageStack.resize_ids n ids) = n.
Proof.
  unfold CPageStack.resize_ids. rewrite length_app, length_take, length_replicate. lia.
Qed.

(** [finalize] on a stack that is not finalized yet: the list it leaves
    is empty or ends in a valid page id. *)
Lemma finalize_spec st :
  CPageStack.m_finalized st = false ->
  exists s, CPageStack.finalize st = Done s /\ CPageStack.m_finalized s = true /\
    (CPageStack.m_pageIds s = [] \/
     exists p, last (CPageStack.m_pageIds s) = Some p /\ ppi_valid p = true).
Proof.
  intros Hf. unfold CPageStack.finalize. rewrite Hf. eexists. split; [done|]. simpl.
  split; [done|].
  set (n := length (CPageStack.m_pageTables st)).
  set (ids := CPageStack.fill _ _ _).
  assert (length ids = n) as Hlen.
  { unfold ids. by rewrite fill_length, resize_ids_length. }
  destruct (trim_spec ids n) as [Hle [H0|(j & Hj & Hv)]].
  - left. by rewrite H0.
  - right. rewrite Hj in *. unfold CPageStack.resize_ids.
    replace (S j - length ids)%nat with 0%nat by lia.
    simpl. rewrite app_nil_r.
    destruct (ids !! j) as [p|] eqn:Hp; [|simpl in Hv; done].
    exists p. split; [|done].
    rewrite last_lookup, length_take.
    replace (Nat.pred (S j `min` length ids)) with j by lia.
    rewrite lookup_take_lt by lia. done.
Qed.

Section Walk.

Variable beyond : buf_t -> buf_t.

Lemma fetch_length m p page :
  CMeta.fetch beyond m p = Some page -> len page = PAGE_SIZE.
Proof.
  unfold CMeta.fetch, CMeta.get_page. repeat case_match; try discriminate.
  intros [= <-]. simplify_eq. unfold len.
  rewrite length_take, length_app, length_replicate. unfold PAGE_SIZE. lia.
Qed.

Lemma universe_length_aux (l : list nat) :
  length (l ≫= (fun b => (fun p => PPI (Z.of_nat b) (Z.of_nat p)) <$> seq 0 1025))
  = (length l * 1025)%nat.
Proof.
  induction l as [|b l IH]; [done|].
  rewrite bind_cons, length_app, IH, length_fmap, length_seq. simpl. lia.
Qed.

Lemma universe_length m :
  length (universe m) = (length (CMeta.m_banks m) * 1025)%nat.
Proof. unfold universe. by rewrite universe_length_aux, length_seq. Qed.

Lemma fetched_in_universe m p page :
  ppi_valid p = true -> CMeta.fetch beyond m p = Some page -> p ∈ universe m.
Proof.
  unfold ppi_valid, CMeta.fetch, CMeta.get_page, MAX_BANKS. intros Hv Hf.
  rewrite !andb_true_iff, !Z.ltb_lt, !Z.leb_le in Hv. destruct Hv as [[[? ?] ?] ?].
  destruct (Z.leb_spec (Z.of_nat (length (CMeta.m_banks m))) (u32 (bank_id p)))
    as [Hb|Hb]; [discriminate|].
  rewrite u32_small in Hb by lia.
  unfold universe. apply list_elem_of_bind. exists (Z.to_nat (bank_id p)). split.
  - apply list_elem_of_fmap. exists (Z.to_nat (page_id p)). split.
    + destruct p; simpl in *. unfold PPI. f_equal; lia.
    + apply elem_of_seq. lia.
  - apply elem_of_seq. lia.
Qed.

Lemma visited_bound (m : CMeta.t) (vs : list PhysPageId) :
  NoDup vs -> (forall x, x ∈ vs -> x ∈ universe m) ->
  (length vs <= length (universe m))%nat.
Proof. intros Hnd Hin. apply submseteq_length, NoDup_submseteq; done. Qed.

(** The loop of [get_page_stack] ends: the visited pages are distinct
    pages of the loaded banks, so the fuel outlasts them. *)
Lemma walk_terminates m ppi0 fuel : forall p vs first st,
  NoDup vs -> (forall x, x ∈ vs -> x ∈ universe m) ->
  (first = true -> vs = []) ->
  CPageStack.m_finalized st = false ->
  (length (universe m) < fuel + length vs)%nat ->
  exists s, CMeta.walk beyond fuel m ppi0 p vs first st = Some (Done s) /\
            CPageStack.m_finalized s = false.
Proof.
  induction fuel as [|f IH]; intros p vs first st Hnd Hin Hfirst Hfin Hlen.
  - pose proof (visited_bound m vs Hnd Hin). lia.
  - simpl. destruct (ppi_valid p) eqn:Hv; simpl; [|eauto].
    destruct (CMeta.fetch beyond m p) as [page|] eqn:Hf; [|eauto].
    destruct (first && negb (ppi_eqb (rd_ppi 8 page) ppi0)) eqn:H1; [eauto|].
    destruct (negb first && CMeta.visited_mem p vs) eqn:H2; [eauto|].
    destruct (add_page_ok st page Hfin (fetch_length _ _ _ Hf)) as (st' & -> & Hfin').
    assert (p ∉ vs) as Hnotin.
    { destruct first; [rewrite Hfirst by done; apply not_elem_of_nil|].
      simpl in H2. intros Hc. apply visited_mem_spec in Hc. congruence. }
    apply IH; try done.
    + by constructor.
    + intros x [->|Hx]%elem_of_cons; [by eapply fetched_in_universe | by apply Hin].
    + simpl. lia.
Qed.

Lemma walk_fuel_mono m ppi0 fuel : forall k p vs first st r,
  CMeta.walk beyond fuel m ppi0 p vs first st = Some r ->
  CMeta.walk beyond (fuel + k) m ppi0 p vs first st = Some r.
Proof.
  induction fuel as [|f IH]; intros k p vs first st r; [discriminate|].
  simpl. repeat case_match; try done. apply IH.
Qed.

(** [get_page_stack] returns, with a finalized stack. *)
Lemma get_page_stack_total (m : CMeta.t) (ppi0 : PhysPageId) :
  exists s, CMeta.get_page_stack beyond m ppi0 = Done s /\
    CPageStack.m_finalized s = true /\
    (CPageStack.m_pageIds s = [] \/
     exists p, last (CPageStack.m_pageIds s) = Some p /\ ppi_valid p = true).
Proof.
  unfold CMeta.get_page_stack.
  destruct (walk_terminates m ppi0 (CMeta.walk_fuel m) ppi0 [] true CPageStack.fresh)
    as (st & -> & Hst); try done.
  - constructor.
  - intros x Hx. by apply not_elem_of_nil in Hx.
  - rewrite universe_length. unfold CMeta.walk_fuel. simpl. lia.
  - simpl. by apply finalize_spec.
Qed.

End Walk.

(** C5, as stated: with no bank loaded the stack of root 0:0 is empty;
    and a root page whose first entry is unused yields a list that holds
    the invalid id [-1:-1]. *)
Lemma page_stack_counterexample :
  (exists s, CMeta.get_page_stack no_slack (CMeta.mk [] false) (PPI 0 0) = Done s /\
             CPageStack.m_pageIds s = []) /\
  (exists s, CMeta.get_page_stack no_slack meta_gap (PPI 0 0) = Done s /\
             CPageStack.m_pageIds s = [INVALID_PPI; PPI 0 1] /\
             ppi_valid INVALID_PPI = false).
Proof.
  split.
  - eexists. split; [vm_compute; reflexivity | reflexivity].
  - eexists. split; [vm_compute; reflexivity | split; reflexivity].
Qed.

(** The loop of [get_file_blocks] over the page stack of the file
    passes over the invalid entries (its test [!ppi1.valid()]). *)
Lemma collect_skips_invalid beyond m vfi ids : forall blocks,
  CMeta.collect beyond m vfi ids blocks
  = CMeta.collect beyond m vfi (List.filter ppi_valid ids) blocks.
Proof.
  induction ids as [|p r IH]; intros blocks; [done|].
  cbn [CMeta.collect List.filter].
  destruct (ppi_valid p) eqn:Hv; cbn [negb]; [|apply IH].
  cbn [CMeta.collect]. rewrite Hv. cbn [negb].
  destruct (CMeta.fetch beyond m p); [|apply IH].
  match goal with |- match ?s with _ => _ end = _ => destruct s end;
    [apply IH | done].
Qed.

(** Without a root page no page is added, and the stack is finalized
    empty. *)
Lemma get_page_stack_no_root beyond m ppi0 :
  ppi_valid ppi0 = false \/ CMeta.fetch beyond m ppi0 = None \/
  (exists page, CMeta.fetch beyond m ppi0 = Some page /\ rd_ppi 8 page <> ppi0) ->
  CMeta.get_page_stack beyond m ppi0 = Done (CPageStack.mk [] [] true).
Proof.
  intros H. unfold CMeta.get_page_stack, CMeta.walk_fuel. cbn [CMeta.walk].
  destruct H as [Hv | [Hf | (page & Hf & Hne)]].
  - rewrite Hv. reflexivity.
  - destruct (ppi_valid ppi0); cbn [negb]; [rewrite Hf|]; reflexivity.
  - destruct (ppi_valid ppi0); cbn [negb]; [|reflexivity]. rewrite Hf.
    destruct (ppi_eqb (rd_ppi 8 page) ppi0) eqn:He.
    + apply ppi_eqb_eq in He. done.
    + reflexivity.
Qed.

(** C5, amended. For every root and any loaded banks, [get_page_stack]
    returns a finalized stack whose page-id list is empty or ends in a
    valid [PhysPageId]; earlier entries may be invalid, and the loop of
    [get_file_blocks] over the page stack of the file passes over them.
    The list is empty whenever the root id is invalid, its page cannot
    be fetched or the page fetched does not carry the root's own id;
    [valid()] holds exactly when the list is not empty. *)
Theorem page_stack_finalized (beyond : buf_t -> buf_t) (m : CMeta.t)
    (ppi0 : PhysPageId) :
  exists s, CMeta.get_page_stack beyond m ppi0 = Done s /\
    CPageStack.m_finalized s = true /\
    (CPageStack.m_pageIds s = [] \/
     exists p, last (CPageStack.m_pageIds s) = Some p /\ ppi_valid p = true) /\
    (CPageStack.valid s = true <-> CPageStack.m_pageIds s <> []) /\
    (ppi_valid ppi0 = false \/ CMeta.fetch beyond m ppi0 = None \/
     (exists page, CMeta.fetch beyond m ppi0 = Some page /\
                   rd_ppi 8 page <> ppi0) ->
     CPageStack.m_pageIds s = []) /\
    (forall vfi blocks,
       CMeta.collect beyond m vfi (CPageStack.m_pageIds s) blocks =
       CMeta.collect beyond m vfi
         (List.filter ppi_valid (CPageStack.m_pageIds s)) blocks).
Proof.
  destruct (get_page_stack_total beyond m ppi0) as (s & Hs & Hf & Hl).
  exists s. split; [done|]. split; [done|]. split; [done|].
  split; [|split].
  - unfold CPageStack.valid. rewrite Hf. simpl. split.
    + intros H%negb_true_iff%bool_decide_eq_false. done.
    + intros H. apply negb_true_iff, bool_decide_eq_false. done.
  - intros H. rewrite (get_page_stack_no_root beyond m ppi0 H) in Hs.
    by simplify_eq.
  - intros vfi blocks. apply collect_skips_invalid.
Qed.

(** The sample stack with the unused first entry, as the page stack of
    a file: its entries [-1:-1; 0:1] give [get_file_blocks] what the
    entry [0:1] alone gives. *)
Example collect_gap vfi :
  CMeta.collect no_slack meta_gap vfi [INVALID_PPI; PPI 0 1] []
  = CMeta.collect no_slack meta_gap vfi [PPI 0 1] [].
Proof. apply (collect_skips_invalid no_slack meta_gap vfi [INVALID_PPI; PPI 0 1]). Qed.


(** ** read_datastore *)

Lemma bd_eqb_eq a b : bd_eqb a b = true <-> a = b.
Proof.
  unfold bd_eqb. destruct a, b; simpl.
  rewrite !andb_true_iff, !Z.eqb_eq. split.
  - intros [[[[[[[[[[? ?] ?] ?] ?] ?] ?] ?] ?] ?] ?]. congruence.
  - intros [=]. subst. repeat split.
Qed.

Lemma bd_valid_sizes d :
  bd_valid d = true -> compSize d <= allocSize d /\ allocSize d <> 0.
Proof.
  unfold bd_valid. rewrite !andb_true_iff, negb_true_iff, Z.leb_le, Z.eqb_neq. tauto.
Qed.

Example bd_roundtrip : rd_bd 0 (bd_bytes bd_first) = bd_first.
Proof. vm_compute. reflexivity. Qed.

Example bd_empty_zero_and_ff :
  bd_empty (rd_bd 0 (replicate 60 Byte.x00)) = true /\
  bd_empty (rd_bd 0 (replicate 60 Byte.xff)) = true.
Proof. split; vm_compute; reflexivity. Qed.

Example bd_test_vectors : bd_valid bd_first = true /\ bd_valid bd_damaged = false.
Proof. split; reflexivity. Qed.

Lemma add_descriptor_ok ig bd bds log bds' log' :
  CMeta.add_descriptor ig bd (bds, log) = Done (bds', log') ->
  table_ok ig bds -> table_ok ig bds'.
Proof.
  unfold CMeta.add_descriptor, CMeta.log_or_die. intros H Hok.
  destruct (bd_empty bd) eqn:He; [by simplify_eq|].
  destruct (bd_valid bd) eqn:Hv.
  - destruct (digest bd =? 0) eqn:Hd; simpl in H; [by simplify_eq|].
    apply Z.eqb_neq in Hd. simplify_eq.
    intros k d [[<- <-]|[? ?]]%lookup_insert_Some; [done | by apply Hok].
  - destruct ig; [|discriminate]. simpl in H.
    destruct (negb (digest bd =? 0) && bool_decide (bds !! digest bd = None)) eqn:Hc;
      simplify_eq; [|done].
    apply andb_true_iff in Hc as [Hd _]. apply negb_true_iff, Z.eqb_neq in Hd.
    intros k d [[<- <-]|[? ?]]%lookup_insert_Some; [done | by apply Hok].
Qed.

Lemma add_descriptors_ok ig ds : forall st st',
  CMeta.add_descriptors ig ds st = Done st' ->
  table_ok ig (fst st) -> table_ok ig (fst st').
Proof.
  induction ds as [|d r IH]; intros st st' H Hok; simpl in H; [by simplify_eq|].
  destruct (CMeta.add_descriptor ig d st) as [st1|] eqn:H1; [|discriminate].
  eapply IH; [done|]. destruct st, st1. eapply add_descriptor_ok; done.
Qed.

Lemma read_pages_ok beyond m ids : forall st st',
  CMeta.read_pages beyond m ids st = Done st' ->
  table_ok (CMeta.m_ignore_errors m) (fst st) ->
  table_ok (CMeta.m_ignore_errors m) (fst st').
Proof.
  induction ids as [|p r IH]; intros st st' H Hok; cbn [CMeta.read_pages] in H;
    [by simplify_eq|].
  destruct (CMeta.fetch beyond m p) as [page|].
  - destruct (CMeta.add_descriptors _ _ st) as [st1|] eqn:H1; [|discriminate].
    eapply IH; [done|]. eapply add_descriptors_ok; done.
  - destruct (CMeta.log_or_die _ _ _) as [l1|]; [|discriminate].
    eapply IH; [done|]. done.
Qed.

(** C3, as stated: two valid records with the same digest that differ in
    [usageCnt]; the table ends up with the later one although the earlier
    one was valid. *)
Lemma later_valid_record_wins :
  bd_valid bd_first = true /\ bd_valid bd_second = true /\
  digest bd_first = digest bd_second /\ bd_first <> bd_second /\
  match CMeta.read_datastore no_slack meta_duplicates DEFAULT_DATASTORE_PPI with
  | Done (bds, log) => bds !! digest bd_first = Some bd_second /\ log = duplicate_warnings
  | Thrown _ => False
  end.
Proof.
  split; [reflexivity|]. split; [reflexivity|]. split; [reflexivity|].
  split; [discriminate|]. vm_compute. split; reflexivity.
Qed.

(** C3, amended. [read_datastore] inserts a record only under its own
    non-zero digest.  When the digest of a non-empty record is already in
    the table: a valid record replaces the earlier one, whether that one
    was valid or not, silently if the two are identical and with the two
    duplicate warnings if they differ; an invalid record is reported (an
    error is logged, and thrown unless errors are ignored) and the earlier
    one is kept. *)
Theorem add_descriptor_spec (ig : bool) (bd : BlockDescriptor)
    (bds : gmap Z BlockDescriptor) (log : list CMeta.log_event)
    (bds' : gmap Z BlockDescriptor) (log' : list CMeta.log_event) :
  CMeta.add_descriptor ig bd (bds, log) = Done (bds', log') ->
  (forall k, bds' !! k <> bds !! k ->
     k = digest bd /\ digest bd <> 0 /\ bd_empty bd = false /\ bds' !! k = Some bd) /\
  (forall old, bds !! digest bd = Some old -> digest bd <> 0 -> bd_empty bd = false ->
     (bd_valid bd = true ->
        bds' !! digest bd = Some bd /\
        (old = bd -> bds' = bds /\ log' = log) /\
        (old <> bd -> log' = log ++ duplicate_warnings)) /\
     (bd_valid bd = false ->
        ig = true /\ bds' = bds /\ log' = log ++ [CMeta.LogError "invalid BD"])).
Proof.
  unfold CMeta.add_descriptor, CMeta.log_or_die, duplicate_warnings. intros H. split.
  - intros k Hk.
    destruct (bd_empty bd) eqn:He; [by simplify_eq|].
    destruct (bd_valid bd) eqn:Hv.
    + destruct (digest bd =? 0) eqn:Hd; simpl in H; [by simplify_eq|].
      apply Z.eqb_neq in Hd. simplify_eq.
      destruct (decide (k = digest bd)) as [->|Hne].
      * by rewrite lookup_insert_eq.
      * by rewrite lookup_insert_ne in Hk.
    + destruct ig; [|discriminate]. simpl in H.
      destruct (negb (digest bd =? 0) && bool_decide (bds !! digest bd = None)) eqn:Hc;
        simplify_eq; try done.
      apply andb_true_iff in Hc as [Hd _]. apply negb_true_iff, Z.eqb_neq in Hd.
      destruct (decide (k = digest bd)) as [->|Hne].
      * by rewrite lookup_insert_eq.
      * by rewrite lookup_insert_ne in Hk.
  - intros old Hold Hd He. rewrite He in H.
    apply Z.eqb_neq in Hd. split; intros Hv; rewrite Hv, ?Hd, ?Hold in H; simpl in H.
    + simplify_eq. split; [by rewrite lookup_insert_eq|]. split.
      * intros ->. split; [by apply insert_id|].
        replace (bd_eqb bd bd) with true; [done|]. symmetry. by apply bd_eqb_eq.
      * intros Hne. destruct (bd_eqb old bd) eqn:E; [by apply bd_eqb_eq in E|done].
    + destruct ig; [|discriminate]. simpl in H. by simplify_eq.
Qed.

(** C3, on the two sample records: the second replaces the first. *)
Lemma add_descriptor_spec_witness :
  CMeta.add_descriptor false bd_second ({[digest bd_first := bd_first]}, [])
    = Done ({[digest bd_first := bd_second]}, duplicate_warnings) /\
  ({[digest bd_first := bd_second]} : gmap Z BlockDescriptor) !! digest bd_second
    = Some bd_second.
Proof.
  assert (CMeta.add_descriptor false bd_second ({[digest bd_first := bd_first]}, [])
          = Done ({[digest bd_first := bd_second]}, duplicate_warnings)) as H
    by (vm_compute; reflexivity).
  split; [exact H|].
  pose proof (add_descriptor_spec false bd_second _ _ _ _ H) as [_ Hdup].
  destruct (Hdup bd_first) as [Hvalid _]; [reflexivity | discriminate | reflexivity |].
  destruct Hvalid as [Hl _]; [reflexivity | exact Hl].
Defined.

(** C4, as stated: when errors are ignored, a damaged record with
    [allocSize < compSize] is taken into the table. *)
Lemma damaged_record_in_table :
  match CMeta.read_datastore no_slack meta_damaged DEFAULT_DATASTORE_PPI with
  | Done (bds, _) =>
      bds !! digest bd_damaged = Some bd_damaged /\
      ~ (compSize bd_damaged <= allocSize bd_damaged)
  | Thrown _ => False
  end.
Proof. vm_compute. split; [reflexivity | intros H; apply H; reflexivity]. Qed.

(** C4, amended. Every value of the table returned by [read_datastore]
    is stored under its own digest, which is non-zero (no entry is an
    all-zero record); when errors are not ignored every value is valid, so
    [allocSize >= compSize].  With errors ignored, invalid records are
    kept as read. *)
Theorem datastore_entries (beyond : buf_t -> buf_t) (m : CMeta.t) (ppi0 : PhysPageId)
    (bds : gmap Z BlockDescriptor) (log : list CMeta.log_event) :
  CMeta.read_datastore beyond m ppi0 = Done (bds, log) ->
  forall k d, bds !! k = Some d ->
    digest d = k /\ digest d <> 0 /\ bd_empty d = false /\
    (CMeta.m_ignore_errors m = false ->
       bd_valid d = true /\ compSize d <= allocSize d).
Proof.
  unfold CMeta.read_datastore. intros H k d Hk.
  destruct (CMeta.get_page_stack beyond m ppi0) as [ps|]; [|discriminate].
  destruct (CPageStack.size ps); [|discriminate].
  destruct (CPageStack.iter ps) as [ids|]; [|discriminate].
  apply read_pages_ok in H; [|intros ? ? ?; simplify_map_eq].
  destruct (H k d Hk) as (? & ? & ? & Hv). repeat split; try done.
  - by apply Hv.
  - by apply bd_valid_sizes, Hv.
Qed.

(** C4, on the sample datastore read without ignoring errors. *)
Lemma datastore_entries_witness :
  CMeta.read_datastore no_slack meta_duplicates DEFAULT_DATASTORE_PPI
    = Done ({[digest bd_second := bd_second]}, duplicate_warnings) /\
  compSize bd_second <= allocSize bd_second.
Proof.
  assert (CMeta.read_datastore no_slack meta_duplicates DEFAULT_DATASTORE_PPI
          = Done ({[digest bd_second := bd_second]}, duplicate_warnings)) as H
    by (vm_compute; reflexivity).
  split; [exact H|].
  destruct (datastore_entries no_slack meta_duplicates DEFAULT_DATASTORE_PPI _ _ H
              (digest bd_second) bd_second) as (_ & _ & _ & Hv); [reflexivity|].
  destruct Hv as [_ Hle]; [reflexivity | exact Hle].
Defined.

(** [read_datastore] returns unless an error is thrown by [log_or_die]:
    with errors ignored it always returns. *)
Lemma add_descriptors_ignore ds : forall st,
  exists st', CMeta.add_descriptors true ds st = Done st'.
Proof.
  induction ds as [|d r IH]; intros st; simpl; [eauto|].
  assert (exists st1, CMeta.add_descriptor true d st = Done st1) as [st1 ->].
  { unfold CMeta.add_descriptor, CMeta.log_or_die. destruct st.
    repeat case_match; eauto. }
  apply IH.
Qed.

Lemma read_datastore_total beyond m ppi0 :
  CMeta.m_ignore_errors m = true ->
  exists r, CMeta.read_datastore beyond m ppi0 = Done r.
Proof.
  intros Hig. unfold CMeta.read_datastore.
  destruct (get_page_stack_total beyond m ppi0) as (s & -> & Hf & _).
  unfold CPageStack.size, CPageStack.iter. rewrite Hf.
  generalize (∅ : gmap Z BlockDescriptor,
              if negb (CPageStack.valid s) then [CMeta.LogWarn "empty PageStack"] else []).
  induction (CPageStack.m_pageIds s) as [|p r IH]; intros st;
    cbn [CMeta.read_pages]; [eauto|].
  rewrite Hig. destruct (CMeta.fetch beyond m p) as [page|].
  - destruct (add_descriptors_ignore (CMeta.page_descriptors page) st) as [st1 ->].
    apply IH.
  - simpl. apply IH.
Qed.

(** ** get_file_blocks *)

Lemma pop_sparse_spec n : forall l,
  (exists dropped, l = dropped ++ CMeta.pop_sparse n l /\
                   Forall (fun b => vb_is_sparse b = true) dropped /\
                   (Z.of_nat (length l) <= u64 n -> dropped = [])) /\
  (Z.of_nat (length (CMeta.pop_sparse n l)) <= u64 n \/
   exists b t, CMeta.pop_sparse n l = b :: t /\ vb_is_sparse b = false).
Proof.
  induction l as [|b r IH]; cbn [CMeta.pop_sparse].
  - split; [exists []; done|]. left. simpl. pose proof (u64_range n). lia.
  - destruct (Z.ltb_spec (u64 n) (Z.of_nat (length (b :: r)))) as [Hlt|Hge]; simpl andb.
    + destruct (vb_is_sparse b) eqn:Hs.
      * destruct IH as [(dropped & Hd & Hall & _) Hlast]. split; [|done].
        exists (b :: dropped). split; [simpl; by f_equal|].
        split; [by constructor|]. lia.
      * split; [exists []; done|]. right. eauto.
    + split; [exists []; done|]. by left.
Qed.

Lemma trim_sparse_spec n blocks :
  (exists sparse_tail, blocks = CMeta.trim_sparse n blocks ++ sparse_tail /\
                       Forall (fun b => vb_is_sparse b = true) sparse_tail /\
                       (Z.of_nat (length blocks) <= u64 n -> sparse_tail = [])) /\
  (Z.of_nat (length (CMeta.trim_sparse n blocks)) <= u64 n \/
   exists b, last (CMeta.trim_sparse n blocks) = Some b /\ vb_is_sparse b = false).
Proof.
  unfold CMeta.trim_sparse.
  destruct (pop_sparse_spec n (rev blocks)) as [(dropped & Hd & Hall & Hnil) Hlast].
  split.
  - exists (rev dropped). split; [|split].
    + rewrite <- rev_app_distr, <- Hd. by rewrite rev_involutive.
    + by apply List.Forall_rev.
    + intros Hle. rewrite Hnil; [done|]. by rewrite length_rev.
  - destruct Hlast as [Hle|(b & t & Heq & Hs)].
    + left. by rewrite length_rev.
    + right. exists b. rewrite Heq. simpl. rewrite last_snoc. done.
Qed.

Lemma for_each_at_total {S : Type} (f : nat -> S -> outcome (S * bool)) :
  (forall o s, exists r, f o s = Done r) ->
  forall offs s, exists s', for_each_at offs f s = Done s'.
Proof.
  intros Hf. induction offs as [|o r IH]; intros s; simpl; [eauto|].
  destruct (Hf o s) as [[s1 [|]] ->]; [apply IH | eauto].
Qed.

Section Collect.

Variable beyond : buf_t -> buf_t.

Lemma fib_pages_total m md ids : forall st,
  exists st', CMeta.fib_pages beyond m md ids st = Done st'.
Proof.
  induction ids as [|p r IH]; intros st; simpl; [eauto|].
  destruct (CMeta.fetch beyond m p) as [buf2|]; [|apply IH].
  destruct (for_each_at_total (CMeta.push_fib md buf2)) with
    (offs := record_offsets fib_sizeof buf2) (s := st) as [st1 H1].
  { intros o [blocks n]. unfold CMeta.push_fib. eauto. }
  unfold for_each. rewrite H1. apply IH.
Qed.

Lemma push_meta_total m buf1 o blocks :
  exists r, CMeta.push_meta beyond m buf1 o blocks = Done r.
Proof.
  unfold CMeta.push_meta. destruct (negb _); [eauto|]. destruct (md_is_sparse _); [eauto|].
  destruct (get_page_stack_total beyond m (md_ppi (rd_md o buf1))) as (s & -> & Hf & _).
  unfold CPageStack.iter. rewrite Hf.
  destruct (fib_pages_total m (rd_md o buf1) (CPageStack.m_pageIds s) (blocks, 0))
    as [[b n] ->]. eauto.
Qed.

Lemma collect_total m vfi ids : forall blocks,
  exists r, CMeta.collect beyond m vfi ids blocks = Done r.
Proof.
  induction ids as [|p r IH]; intros blocks; simpl; [eauto|].
  destruct (negb (ppi_valid p)); [apply IH|].
  destruct (CMeta.fetch beyond m p) as [buf1|]; [|apply IH].
  assert (exists b1,
    match CMeta.type vfi with
    | FT_INCREMENT =>
        for_each patch_sizeof buf1
          (CMeta.push_patch (CMeta.nBlocks (CMeta.attribs vfi)) buf1) blocks
    | _ => for_each md_sizeof buf1 (CMeta.push_meta beyond m buf1) blocks
    end = Done b1) as [b1 ->].
  { unfold for_each.
    destruct (CMeta.type vfi);
      first [ apply for_each_at_total; intros; apply push_meta_total
            | apply for_each_at_total; intros; unfold CMeta.push_patch; eauto ]. }
  apply IH.
Qed.

(** [get_file_blocks] returns unless [reserve] throws. *)
Lemma get_file_blocks_total m vfi :
  u64 (CMeta.nBlocks (CMeta.attribs vfi)) <= CMeta.VAllBlocks_max_size ->
  exists blocks, CMeta.get_file_blocks beyond m vfi = Done blocks.
Proof.
  intros Hn. unfold CMeta.get_file_blocks, CMeta.collected_blocks.
  destruct (Z.ltb_spec CMeta.VAllBlocks_max_size (u64 (CMeta.nBlocks (CMeta.attribs vfi))));
    [lia|].
  destruct (get_page_stack_total beyond m (CMeta.ppi (CMeta.attribs vfi)))
    as (s & -> & Hf & _).
  unfold CPageStack.iter. rewrite Hf.
  destruct (collect_total m vfi (CPageStack.m_pageIds s) []) as [r ->]. eauto.
Qed.

End Collect.


(** ** CSlot *)

(** The size printed for the slots of tests/VBKCommand_vbk_test.cpp
    ([size=7f080] for [max_banks=7f00]): 128 bytes of header and 16 bytes
    for each [BankInfo]. *)
Example slot_size_in_tests :
  CSlot.max_banks wide_slot_header = 0x7f00 /\
  CSlot.allocated_banks wide_slot_header = 3 /\
  CSlot.size wide_slot_header = 0x7f080.
Proof. repeat split; vm_compute; reflexivity. Qed.

(** What the two checks of a slot establish: the CRC of the members
    after [crc] and of the [max_banks] records [BankInfo] is the stored
    one, and the counts are in range. *)
Lemma slot_checks (vcrc32 : Z -> buf_t -> Z) (s : buf_t) :
  CSlot.valid_fast s = true -> CSlot.valid_crc vcrc32 s = true ->
  vcrc32 0 (slice 4 (Z.to_nat (CSlot.members_sizeof - 4 + 16 * CSlot.max_banks s)) s)
    = CSlot.crc s /\
  CSlot.allocated_banks s <= CSlot.max_banks s /\
  0 < CSlot.max_banks s <= MAX_BANKS /\
  CSlot.crc s <> 0 /\ CSlot.has_snapshot s = 1.
Proof.
  unfold CSlot.valid_fast, CSlot.valid_crc, CSlot.crc_input.
  rewrite !andb_true_iff, negb_true_iff, !Z.eqb_eq, Z.eqb_neq, Z.ltb_lt, !Z.leb_le.
  intros [[[[Hc Hs] Hm0] Hm1] Ha] Hcrc. unfold MAX_BANKS in *.
  assert (CSlot.size s = 128 + 16 * CSlot.max_banks s) as Hsize.
  { unfold CSlot.size, CSlot.sizeof, FileHeader.BankInfo_sizeof. rewrite u64_small; lia. }
  rewrite Hsize in *. rewrite u32_small in Hcrc by lia.
  unfold CSlot.members_sizeof.
  replace (4 + 4 + 108 + 4 + 4 - 4 + 16 * CSlot.max_banks s)
    with (128 + 16 * CSlot.max_banks s - 8) by lia.
  repeat split; try done; lia.
Qed.

(** ** import_slot *)

(** The banks [import_slot] loads and the errors it logs do not depend
    on the CRC function: the check of the slot only reaches the flags of
    the debug message. *)
Lemma import_slot_crc_unused (crc1 crc2 : Z -> buf_t -> Z) beyond reader keys m offset :
  match CMetaSlot.import_slot crc1 beyond reader keys m offset,
        CMetaSlot.import_slot crc2 beyond reader keys m offset with
  | Done (m1, _, log1), Done (m2, _, log2) => m1 = m2 /\ log1 = log2
  | Thrown e1, Thrown e2 => e1 = e2
  | _, _ => False
  end.
Proof.
  unfold CMetaSlot.import_slot.
  destruct (reader offset _) as [[n0 buf0]|e]; [|done].
  destruct (negb (n0 =? PAGE_SIZE)); [done|].
  destruct (CSlot.size buf0 <? PAGE_SIZE); [done|].
  destruct (reader (s64 (offset + PAGE_SIZE)) _) as [[n1 rest]|e]; [|done].
  match goal with |- context [negb (n1 =? ?t)] => destruct (negb (n1 =? t)) end; [done|].
  cbv zeta.
  match goal with |- context [CMetaSlot.read_banks ?r ?s ?i ?st] =>
    destruct (CMetaSlot.read_banks r s i st) as [[banks log]|e] end; [|done].
  match goal with |- context [if ?c then keys ?s ?b else _] =>
    destruct (if c then keys s b else Done b) as [banks'|e] end; done.
Qed.

(** The sample slot passes both checks, and the damaged one fails
    [valid_crc] only. *)
Example sample_slots_checked :
  len CMetaSlot.sound_slot = CSlot.size CMetaSlot.sound_slot /\
  CSlot.valid_fast CMetaSlot.sound_slot = true /\
  CSlot.valid_crc Crc.crc32c CMetaSlot.sound_slot = true /\
  CSlot.valid_fast CMetaSlot.damaged_slot = true /\
  CSlot.valid_crc Crc.crc32c CMetaSlot.damaged_slot = false.
Proof. repeat split; vm_compute; reflexivity. Qed.


(** ** AES256::decrypt *)

Lemma pkcs7_unpad_len_spec buf n p :
  n <> 0 -> Crypto.pkcs7_unpad_len buf n = Done p ->
  rd_u8 (Z.to_nat (n - 1)) buf = p /\ 1 <= p <= 16 /\ p <= n /\
  Forall (fun b => byte_to_Z b = p) (slice (Z.to_nat (n - p)) (Z.to_nat p) buf).
Proof.
  unfold Crypto.pkcs7_unpad_len. intros Hn. apply Z.eqb_neq in Hn. rewrite Hn.
  set (pad := rd_u8 _ _).
  destruct ((pad =? 0) || (16 <? pad) || (n <? pad)) eqn:Hb; [discriminate|].
  rewrite !orb_false_iff, Z.eqb_neq, !Z.ltb_ge in Hb. destruct Hb as [[? ?] ?].
  destruct (Crypto.pad_ok _ _) eqn:Hok; [|discriminate]. intros [= <-].
  assert (0 <= pad) by apply le_Z_nonneg.
  repeat split; try lia.
  unfold Crypto.pad_ok in Hok. rewrite forallb_forall in Hok.
  apply Forall_forall. intros b Hb. apply Z.eqb_eq, Hok. by apply list_elem_of_In.
Qed.

(** C9, as stated: a call on an empty buffer, whose length is not a
    non-zero multiple of 16, raises nothing and returns at once, also
    when unpadding is requested. *)
Lemma decrypt_empty_is_silent :
  ~ (exists e, Crypto.decrypt plain_cipher [] true 0 = Thrown e) /\
  Crypto.decrypt plain_cipher [] true 0 = Done [] /\
  Crypto.decrypt_raw plain_cipher [] 0 true = Done [].
Proof.
  split; [intros [e H]; vm_compute in H; discriminate|].
  split; reflexivity.
Qed.

(** C9, amended. A call to AES-256-CBC decryption whose input length
    [n] is zero returns without an error and leaves the data untouched;
    for [n <> 0] an error is raised unless [n] is a multiple of 16 (and
    within the buffer).  When PKCS#7 unpadding is requested on a non-empty
    input, the call succeeds only if the last plaintext byte [p] lies in
    [1,16], [p <= n], and the last [p] plaintext bytes all equal [p], and
    the result is the plaintext without them; the raw-buffer overload
    rejects the request. *)
Theorem decrypt_errors (c : Crypto.AES256) (data : buf_t) (remove_padding : bool)
    (size : Z) :
  let n := if size =? 0 then len data else size in
  let plain :=
    Crypto.cbc c (Z.to_nat (n / 16)) (Crypto.iv0_ c) data ++ drop (Z.to_nat n) data in
  (n = 0 -> Crypto.decrypt c data remove_padding size = Done data) /\
  (n <> 0 -> len data < n \/ n mod 16 <> 0 ->
     exists e, Crypto.decrypt c data remove_padding size = Thrown e) /\
  (n <> 0 -> remove_padding = false -> n <= len data -> n mod 16 = 0 ->
     Crypto.decrypt c data remove_padding size = Done plain) /\
  (n <> 0 -> remove_padding = true ->
     forall out, Crypto.decrypt c data remove_padding size = Done out ->
       (n <= len data /\ n mod 16 = 0) /\
       exists p, rd_u8 (Z.to_nat (n - 1)) plain = p /\ 1 <= p <= 16 /\ p <= n /\
         Forall (fun b => byte_to_Z b = p) (slice (Z.to_nat (n - p)) (Z.to_nat p) plain) /\
         out = resize (Z.to_nat (n - p)) plain) /\
  (size = 0 -> Crypto.decrypt_raw c data size remove_padding = Done data) /\
  (size <> 0 -> size mod 16 <> 0 \/ remove_padding = true ->
     exists e, Crypto.decrypt_raw c data size remove_padding = Thrown e).
Proof.
  intros n plain. unfold Crypto.decrypt, Crypto.decrypt_raw. fold n. rewrite !land_15.
  split; [|split; [|split; [|split; [|split]]]].
  - intros ->. done.
  - intros Hn Hbad. apply Z.eqb_neq in Hn. rewrite Hn.
    destruct (Z.ltb_spec (len data) n); [eauto|].
    destruct (Z.eqb_spec (n mod 16) 0) as [E|E]; simpl; [lia | eauto].
  - intros Hn -> Hle Hmod. apply Z.eqb_neq in Hn. rewrite Hn.
    destruct (Z.ltb_spec (len data) n); [lia|]. rewrite Hmod. done.
  - intros Hn -> out Hd.
    pose proof Hn as Hn'. apply Z.eqb_neq in Hn'. rewrite Hn' in Hd.
    destruct (Z.ltb_spec (len data) n); [discriminate|].
    destruct (Z.eqb_spec (n mod 16) 0); [|discriminate]. simpl in Hd. fold plain in Hd.
    destruct (Crypto.pkcs7_unpad_len plain n) as [p|] eqn:Hp; [|discriminate].
    injection Hd as <-. split; [done|]. exists p.
    destruct (pkcs7_unpad_len_spec plain n p Hn Hp) as (? & ? & ? & ?). done.
  - intros ->. done.
  - intros Hs Hbad. apply Z.eqb_neq in Hs. rewrite Hs.
    destruct (Z.eqb_spec (size mod 16) 0) as [E|E]; simpl; [|eauto].
    destruct Hbad as [?| ->]; [lia | eauto].
Qed.

(** C9, on a block of sixteen bytes 0x10 under the sample cipher: the
    whole block is padding. *)
Lemma decrypt_errors_witness :
  Crypto.decrypt plain_cipher (replicate 16 (byte_of_Z 16)) true 0 = Done [] /\
  exists p, 1 <= p <= 16 /\ [] = resize (Z.to_nat (16 - p)) (replicate 16 (byte_of_Z 16)).
Proof.
  assert (Crypto.decrypt plain_cipher (replicate 16 (byte_of_Z 16)) true 0 = Done [])
    as H by (vm_compute; reflexivity).
  split; [exact H|].
  destruct (decrypt_errors plain_cipher (replicate 16 (byte_of_Z 16)) true 0)
    as (_ & _ & _ & Hpad & _).
  destruct (Hpad ltac:(vm_compute; discriminate) eq_refl [] H)
    as (_ & p & _ & Hp & _ & _ & Hout).
  exists p. split; [exact Hp | exact Hout].
Defined.

Example decrypt_bad_padding :
  Crypto.decrypt plain_cipher
    (replicate 12 (byte_of_Z 7) ++ replicate 4 (byte_of_Z 0)) true 0
  = Thrown "invalid PKCS#7 padding".
Proof. vm_compute. reflexivity. Qed.

(** ** The extraction engine *)

Import Extract.

Lemma overwrite_length new old : length (overwrite new old) = length old.
Proof. unfold overwrite. rewrite length_app, length_take, length_drop. lia. Qed.

Lemma emit_writer buf n s :
  writer (emit buf n s)
  = (fun w => Writer.write w (take (Z.to_nat n) buf)) <$> writer s.
Proof. unfold emit. simpl. by destruct (writer s). Qed.

Lemma accept_writer d s : writer (accept d s) = writer s.
Proof. done. Qed.

Lemma with_fti_writer g s : writer (with_fti g s) = writer s.
Proof. done. Qed.

Lemma le_Z_bound bs : le_Z bs < 256 ^ Z.of_nat (length bs).
Proof.
  induction bs as [|b r IH]; [simpl; lia|].
  cbn [le_Z length]. rewrite Nat2Z.inj_succ, Z.pow_succ_r by lia.
  pose proof (byte_to_Z_range b). lia.
Qed.

(** In a block read from a patch descriptor, [vib_offset] is the
    descriptor's [block_idx]. *)
Lemma vib_offset_is_block_idx off buf :
  0 <= rd_patch_block_idx off buf ->
  vib_offset (rd_vb off buf) = rd_patch_block_idx off buf.
Proof.
  unfold rd_patch_block_idx, rd_vb, rd_s64, s64, signed. simpl vib_offset.
  set (x := rd_u64 (off + 29) buf).
  assert (0 <= x < 2^64) as Hx.
  { unfold x, rd_u64. split; [apply le_Z_nonneg|].
    eapply Z.lt_le_trans; [apply le_Z_bound|].
    unfold slice. rewrite length_take.
    change (2^64) with (256 ^ Z.of_nat 8). apply Z.pow_le_mono_r; lia. }
  rewrite Z.mod_small by lia. case_match; lia.
Qed.

(** Lines 232-239 on their own. *)
Lemma seek_to_target_spec vFile blk s :
  match writer s with
  | None => seek_to_target vFile blk s = Done s
  | Some w =>
      if CMeta.is_diff vFile && vb_is_patch blk
      then
        let target := s64 (u64 (vib_offset blk * BLOCK_SIZE)) in
        if target <? 0 then exists e, seek_to_target vFile blk s = Thrown e
        else seek_to_target vFile blk s =
             Done (with_writer
                     (Some (Writer.mk target
                              (Writer.events w ++ [Writer.Seek target Writer.SEEK_SET])))
                     s)
      else seek_to_target vFile blk s = Done s
  end.
Proof.
  unfold seek_to_target. destruct (writer s) as [w|]; [|done].
  destruct (CMeta.is_diff vFile && vb_is_patch blk); [|done].
  unfold Writer.seek. case_match; [eauto|done].
Qed.

Section Engine.

Variable vcrc32 : Z -> buf_t -> Z.
Variable lz4 : buf_t -> buf_t -> Z -> Z -> Z * buf_t.
Variable zlib : buf_t -> buf_t -> bool * Z * buf_t.
Variable zstd : buf_t -> buf_t -> option (Z * Z * buf_t).
Variable md5 : buf_t -> Z.

Lemma verified_case_writer n s d :
  wrote_at_most_once (writer s) (writer (fst (verified_case md5 n s d))).
Proof.
  unfold verified_case. case_match; unfold fst; [right|left; done].
  rewrite accept_writer, emit_writer. eauto.
Qed.

Lemma lz4_case_writer loc s dg :
  wrote_at_most_once (writer s) (writer (fst (lz4_case vcrc32 lz4 loc s dg))).
Proof.
  unfold lz4_case. destruct (lz_valid _); [|left; done].
  destruct (lz4 _ _ _ _) as [res out].
  repeat case_match; unfold fst; right;
    rewrite ?accept_writer, ?with_fti_writer, emit_writer; eauto.
Qed.

Lemma zlib_case_writer s d :
  wrote_at_most_once (writer s) (writer (fst (zlib_case zlib md5 s d))).
Proof.
  unfold zlib_case. destruct (zlib _ _) as [[ok n] out].
  destruct ok; [|left; done]. exact (verified_case_writer n (with_lzBuf2 _ s) d).
Qed.

Lemma zstd_case_writer s d :
  wrote_at_most_once (writer s) (writer (fst (zstd_case zstd md5 s d))).
Proof.
  unfold zstd_case. destruct (zstd _ _) as [[[ret n] out]|]; [|left; done].
  case_match; [left; done|].
  exact (verified_case_writer n (with_lzBuf2 _ (with_lzBuf2 _ s)) d).
Qed.

Lemma none_case_writer s dg :
  wrote_at_most_once (writer s) (writer (fst (none_case s dg))).
Proof. unfold none_case, fst. right. rewrite accept_writer, emit_writer. eauto. Qed.

Lemma unpack_writer blk d loc s s' k :
  unpack vcrc32 lz4 zlib zstd md5 blk d loc s = Done (s', k) ->
  wrote_at_most_once (writer s) (writer s').
Proof.
  unfold unpack. intros H.
  repeat (case_match; try discriminate); injection H as H;
    first [ by (left; simplify_eq)
          | replace s' with (fst (s', k)) by done; rewrite <- H ].
  - apply none_case_writer.
  - apply lz4_case_writer.
  - apply zlib_case_writer.
  - apply zstd_case_writer.
Qed.

Lemma load_writer ctx rd loc s r :
  load ctx rd loc s = Done r ->
  writer (match r with inl x => x | inr x => x end) = writer s.
Proof.
  unfold load. intros H. repeat (case_match; try discriminate); by simplify_eq.
Qed.

(** The writer across the body of one block: untouched, or the seek of
    lines 232-239 followed by at most one write. *)
Lemma block_body_writer ctx vFile blk s s' k :
  block_body vcrc32 lz4 zlib zstd md5 ctx vFile blk s = Done (s', k) ->
  writer s' = writer s \/
  exists s1 s2, writer s1 = writer s /\ seek_to_target vFile blk s1 = Done s2 /\
                wrote_at_most_once (writer s2) (writer s').
Proof.
  unfold block_body. intros H.
  destruct (vb_is_empty blk); [left; by simplify_eq|].
  set (found := match bds ctx !! vb_hash blk with Some _ => _ | None => _ end) in H.
  assert (forall d s1, found = Some (d, s1) -> writer s1 = writer s) as Hfound.
  { unfold found. intros d s1. repeat case_match; intros; by simplify_eq. }
  destruct found as [[d s1]|]; [|left; by simplify_eq].
  specialize (Hfound d s1 eq_refl).
  destruct (seek_to_target vFile blk s1) as [s2|] eqn:Hseek; [|discriminate].
  right. exists s1, s2. split; [done|]. split; [done|].
  destruct (locate ctx d) as [loc|]; [|left; by simplify_eq].
  destruct (active_file ctx (l_device loc)) as [rd|]; [|discriminate].
  destruct (match writer s2 with None => _ | Some _ => _ end) as [hit s3] eqn:Hhit.
  assert (writer s3 = writer s2) as H3.
  { destruct (writer s2) eqn:Hw; [by simplify_eq|].
    destruct (LruSet.contains _ _). simplify_eq. done. }
  rewrite <- H3.
  destruct (hit || _); [left; by simplify_eq|].
  destruct (no_read ctx && _); [left; by simplify_eq|].
  destruct (load ctx rd loc s3) as [[s4|s4]|] eqn:Hload; [| |discriminate].
  - apply load_writer in Hload. left. by simplify_eq.
  - apply load_writer in Hload. rewrite <- Hload. by eapply unpack_writer.
Qed.

(** The block loop never touches [nMissMD]. *)
Lemma verified_case_nMissMD n s d :
  nMissMD (fti (fst (verified_case md5 n s d))) = nMissMD (fti s).
Proof. unfold verified_case. case_match; reflexivity. Qed.

Lemma lz4_case_nMissMD loc s dg :
  nMissMD (fti (fst (lz4_case vcrc32 lz4 loc s dg))) = nMissMD (fti s).
Proof.
  unfold lz4_case. destruct (lz_valid _); [|reflexivity].
  destruct (lz4 _ _ _ _) as [res out]. repeat case_match; reflexivity.
Qed.

Lemma zlib_case_nMissMD s d :
  nMissMD (fti (fst (zlib_case zlib md5 s d))) = nMissMD (fti s).
Proof.
  unfold zlib_case. destruct (zlib _ _) as [[ok n] out].
  destruct ok; [|reflexivity]. exact (verified_case_nMissMD n (with_lzBuf2 _ s) d).
Qed.

Lemma zstd_case_nMissMD s d :
  nMissMD (fti (fst (zstd_case zstd md5 s d))) = nMissMD (fti s).
Proof.
  unfold zstd_case. destruct (zstd _ _) as [[[ret n] out]|]; [|reflexivity].
  case_match; [reflexivity|].
  exact (verified_case_nMissMD n (with_lzBuf2 _ (with_lzBuf2 _ s)) d).
Qed.

Lemma unpack_nMissMD blk d loc s s' k :
  unpack vcrc32 lz4 zlib zstd md5 blk d loc s = Done (s', k) ->
  nMissMD (fti s') = nMissMD (fti s).
Proof.
  unfold unpack. intros H.
  repeat (case_match; try discriminate); injection H as H;
    first [ by (subst; reflexivity)
          | replace s' with (fst (s', k)) by reflexivity; rewrite <- H ].
  - apply lz4_case_nMissMD.
  - apply zlib_case_nMissMD.
  - apply zstd_case_nMissMD.
Qed.

Lemma load_nMissMD ctx rd loc s r :
  load ctx rd loc s = Done r ->
  nMissMD (fti (match r with inl x => x | inr x => x end)) = nMissMD (fti s).
Proof.
  unfold load. intros H. repeat (case_match; try discriminate); by simplify_eq.
Qed.

Lemma seek_to_target_fti vFile blk s s2 :
  seek_to_target vFile blk s = Done s2 -> fti s2 = fti s.
Proof.
  unfold seek_to_target, Writer.seek. intros H.
  repeat (case_match; try discriminate); by simplify_eq.
Qed.

Lemma block_body_nMissMD ctx vFile blk s s' k :
  block_body vcrc32 lz4 zlib zstd md5 ctx vFile blk s = Done (s', k) ->
  nMissMD (fti s') = nMissMD (fti s).
Proof.
  unfold block_body. intros H.
  destruct (vb_is_empty blk); [by simplify_eq|].
  set (found := match bds ctx !! vb_hash blk with Some _ => _ | None => _ end) in H.
  assert (forall d s1, found = Some (d, s1) -> fti s1 = fti s) as Hfound.
  { unfold found. intros d s1. repeat case_match; intros; by simplify_eq. }
  destruct found as [[d s1]|]; [|by simplify_eq].
  specialize (Hfound d s1 eq_refl). rewrite <- Hfound.
  destruct (seek_to_target vFile blk s1) as [s2|] eqn:Hseek; [|discriminate].
  apply seek_to_target_fti in Hseek. rewrite <- Hseek.
  destruct (locate ctx d) as [loc|]; [|by simplify_eq].
  destruct (active_file ctx (l_device loc)) as [rd|]; [|discriminate].
  destruct (match writer s2 with None => _ | Some _ => _ end) as [hit s3] eqn:Hhit.
  assert (fti s3 = fti s2) as H3.
  { destruct (writer s2) eqn:Hw; [by simplify_eq|].
    destruct (LruSet.contains _ _). simplify_eq. done. }
  rewrite <- H3.
  destruct (hit || _); [by simplify_eq|].
  destruct (no_read ctx && _); [by simplify_eq|].
  destruct (load ctx rd loc s3) as [[s4|s4]|] eqn:Hload; [| |discriminate].
  - apply load_nMissMD in Hload. by simplify_eq.
  - apply load_nMissMD in Hload. rewrite <- Hload. by eapply unpack_nMissMD.
Qed.

Lemma process_block_nMissMD ctx vFile blk s s' :
  process_block vcrc32 lz4 zlib zstd md5 ctx vFile blk s = Done s' ->
  nMissMD (fti s') = nMissMD (fti s).
Proof.
  unfold process_block. intros H.
  destruct (block_body _ _ _ _ _ _ _ _ _) as [[s1 k]|] eqn:Hb; [|discriminate].
  apply block_body_nMissMD in Hb. rewrite <- Hb.
  unfold skip, Writer.seek in H. repeat (case_match; try discriminate); by simplify_eq.
Qed.

Lemma process_blocks_nMissMD ctx vFile skipn blocks : forall i s s',
  process_blocks vcrc32 lz4 zlib zstd md5 ctx vFile skipn i blocks s = Done s' ->
  nMissMD (fti s') = nMissMD (fti s).
Proof.
  induction blocks as [|b r IH]; intros i s s' H; simpl in H; [by simplify_eq|].
  destruct (i <? skipn); [by eapply IH|].
  destruct (process_block _ _ _ _ _ _ _ _ _) as [s1|] eqn:Hb; [|discriminate].
  apply process_block_nMissMD in Hb. rewrite <- Hb. by eapply IH.
Qed.

Lemma process_file_nMissMD beyond meta ctx vFile skipn s s' :
  process_file vcrc32 lz4 zlib zstd md5 beyond meta ctx vFile skipn s = Done s' ->
  exists vAllB, CMeta.get_file_blocks beyond meta vFile = Done vAllB /\
    nMissMD (fti s') =
      nMissMD (fst (account_missing (CMeta.nBlocks (CMeta.attribs vFile)) vAllB (fti s))).
Proof.
  unfold process_file. intros H.
  destruct (CMeta.get_file_blocks beyond meta vFile) as [vAllB|]; [|discriminate].
  exists vAllB. split; [done|].
  destruct (account_missing _ _ _) as [f warned].
  apply process_blocks_nMissMD in H. by rewrite H.
Qed.
End Engine.

(** C2, as stated: an LZ4 block whose header is valid and carries a wrong
    CRC.  The decompressor returns the expected size, the byte is written
    to the output, and the block is then counted as a CRC failure. *)
Lemma lz4_written_despite_bad_crc :
  lz_valid (rd_lz_hdr lz4_block_bad_crc) = true /\
  Crc.crc32c 0 [byte_of_Z 0x41] <> lz_crc (rd_lz_hdr lz4_block_bad_crc) /\
  match sample_process_block (ctx_lz4 lz4_block_bad_crc) one_byte_file lz4_vblock
          (start one_byte_file) with
  | Done s' =>
      writer s' = Some (Writer.mk 1 [Writer.Write 0 [byte_of_Z 0x41]]) /\
      nErrCRC (fti s') = 1 /\ nOK (fti s') = 0
  | Thrown _ => False
  end.
Proof.
  split; [vm_compute; reflexivity|]. split; [vm_compute; discriminate|].
  vm_compute. repeat split; reflexivity.
Qed.

(** C2, amended. For a non-sparse block with [compType == LZ4] and a
    valid 12-byte header, the [srcSize] bytes of the output buffer (cut to
    the remaining file size) are written to the output before any check.
    The block is then counted as a decompression failure when the
    decompressor did not return [srcSize], else as a CRC failure when the
    vcrc32 of the output differs from the header's [crc], else as OK (and
    its digest cached): for every block counted as OK the recomputed
    vcrc32 equals the header's [crc]. *)
Theorem lz4_block_classified (vcrc32 : Z -> buf_t -> Z)
    (lz4 : buf_t -> buf_t -> Z -> Z -> Z * buf_t)
    (loc : located) (s : state) (dg : Z) :
  let plz := rd_lz_hdr (lzBuf s) in
  let dst := resize (Z.to_nat (lz_srcSize plz)) (lzBuf2 s) in
  let comp_size :=
    if negb (l_keyset loc =? 0) then u64 (len (lzBuf s) - 12)
    else u64 (l_compSize loc - 12) in
  let lz4res :=
    fst (lz4 (drop lz_hdr_sizeof (lzBuf s)) dst (s32 comp_size) (s32 (len dst))) in
  let s' := fst (lz4_case vcrc32 lz4 loc s dg) in
  lz_valid plz = true ->
  snd (lz4_case vcrc32 lz4 loc s dg) = 0 /\
  len (lzBuf2 s') = lz_srcSize plz /\
  writer s' =
    (fun w => Writer.write w
       (take (Z.to_nat (to_write_of (remaining_size s) (lz_srcSize plz))) (lzBuf2 s')))
    <$> writer s /\
  (u64 lz4res <> lz_srcSize plz ->
     fti s' = bump_ErrDecomp (fti s) /\ m_cache s' = m_cache s) /\
  (u64 lz4res = lz_srcSize plz -> vcrc32 0 (lzBuf2 s') <> lz_crc plz ->
     fti s' = bump_ErrCRC (fti s) /\ m_cache s' = m_cache s) /\
  (u64 lz4res = lz_srcSize plz -> vcrc32 0 (lzBuf2 s') = lz_crc plz ->
     fti s' = bump_OK (fti s) /\ m_cache s' = LruSet.insert dg (m_cache s)).
Proof.
  intros plz dst comp_size lz4res s' Hv. subst s'. unfold lz4_case.
  fold plz. rewrite Hv. fold dst. fold comp_size.
  unfold lz4res. destruct (lz4 _ _ _ _) as [res out]. cbn [fst].
  assert (len (overwrite out dst) = lz_srcSize plz) as Hlen.
  { unfold len. rewrite overwrite_length. unfold dst. rewrite resize_length.
    unfold lz_valid in Hv. rewrite !andb_true_iff, Z.ltb_lt in Hv. lia. }
  set (s1 := with_lzBuf2 (overwrite out dst) s).
  set (s2 := emit (lzBuf2 s1) (to_write_of (remaining_size s1) (lz_srcSize plz)) s1).
  change (lzBuf2 s2) with (overwrite out dst). rewrite Hlen.
  destruct (Z.eqb_spec (u64 res) (lz_srcSize plz)) as [E1|E1]; cbn [negb].
  - destruct (Z.eqb_spec (vcrc32 0 (overwrite out dst)) (lz_crc plz)) as [E2|E2];
      cbn [negb fst snd]; repeat split; try done; try by destruct (writer s).
  - cbn [fst snd]. repeat split; try done; try by destruct (writer s).
Qed.

(** C2, on the sample block whose header carries the CRC of its byte. *)
Lemma lz4_block_classified_witness :
  lz_valid (rd_lz_hdr (lzBuf lz4_loaded)) = true /\
  fti (fst (lz4_case Crc.crc32c lz4_literals lz4_location lz4_loaded 0xb10c))
  = bump_OK (fti lz4_loaded).
Proof.
  assert (lz_valid (rd_lz_hdr (lzBuf lz4_loaded)) = true) as Hv
    by (vm_compute; reflexivity).
  split; [exact Hv|].
  destruct (lz4_block_classified Crc.crc32c lz4_literals lz4_location lz4_loaded
              0xb10c Hv) as (_ & _ & _ & _ & _ & Hok).
  apply Hok; vm_compute; reflexivity.
Defined.

(** C7, as stated: an increment with two stored blocks, the first for
    block 5 and the second for block 0.  The writer seeks to
    [5 * BLOCK_SIZE] for the first; no seek precedes the second, which is
    written right behind the first instead of at offset 0. *)
Lemma patch_block_zero_not_sought :
  CMeta.is_diff (increment_file 2) = true /\
  CMeta.get_file_blocks no_slack meta_increment_one_page (increment_file 2)
    = Done increment_blocks /\
  match sample_process_file meta_increment_one_page ctx_increment (increment_file 2) 0
          (start (increment_file 2)) with
  | Done s' =>
      writer s' =
        Some (Writer.mk (5 * BLOCK_SIZE + 8)
                [ Writer.Seek (5 * BLOCK_SIZE) Writer.SEEK_SET;
                  Writer.Write (5 * BLOCK_SIZE) (map byte_of_Z [1;1;1;1]);
                  Writer.Write (5 * BLOCK_SIZE + 4) (map byte_of_Z [2;2;2;2]) ])
  | Thrown _ => False
  end.
Proof.
  split; [reflexivity|]. split; [vm_compute; reflexivity|].
  vm_compute. reflexivity.
Qed.

(** C7, amended. When a block of a patch/increment file reaches the
    write stage and a writer is open, the writer first seeks to
    [vib_offset * BLOCK_SIZE] (the descriptor's [block_idx * BLOCK_SIZE])
    exactly when the block has [size == BLOCK_SIZE] and
    [vib_offset != 0], and the data, if any is written, lands there; a
    block with [vib_offset == 0] or another size is written at the
    writer's current position without a seek. *)
Theorem patch_block_seek (vcrc32 : Z -> buf_t -> Z)
    (lz4 : buf_t -> buf_t -> Z -> Z -> Z * buf_t)
    (zlib : buf_t -> buf_t -> bool * Z * buf_t)
    (zstd : buf_t -> buf_t -> option (Z * Z * buf_t)) (md5 : buf_t -> Z)
    (ctx : context) (vFile : CMeta.VFile) (blk : VBlockDesc) (s s' : state) (k : Z)
    (w : Writer.t) :
  block_body vcrc32 lz4 zlib zstd md5 ctx vFile blk s = Done (s', k) ->
  writer s = Some w ->
  let seeks := CMeta.is_diff vFile && vb_is_patch blk in
  let target := s64 (u64 (vib_offset blk * BLOCK_SIZE)) in
  let sought :=
    Writer.mk target (Writer.events w ++ [Writer.Seek target Writer.SEEK_SET]) in
  (writer s' = Some w \/
   (seeks = true /\ 0 <= target /\
    (writer s' = Some sought \/
     exists data, writer s' = Some (Writer.write sought data))) \/
   (seeks = false /\ exists data, writer s' = Some (Writer.write w data))) /\
  (seeks = true <->
     CMeta.is_diff vFile = true /\ vb_size blk = BLOCK_SIZE /\ vib_offset blk <> 0) /\
  (0 <= vib_offset blk < 2^43 -> target = vib_offset blk * BLOCK_SIZE) /\
  (forall off buf, 0 <= rd_patch_block_idx off buf ->
     vib_offset (rd_vb off buf) = rd_patch_block_idx off buf).
Proof.
  intros Hbody Hw seeks target sought. split; [|split; [|split]].
  - destruct (block_body_writer _ _ _ _ _ _ _ _ _ _ _ Hbody)
      as [Hsame|(s1 & s2 & H1 & Hseek & Hwrote)].
    { left. by rewrite Hsame. }
    rewrite Hw in H1.
    pose proof (seek_to_target_spec vFile blk s1) as Hspec. rewrite H1 in Hspec.
    fold seeks in Hspec. destruct seeks.
    + cbn zeta in Hspec. fold target in Hspec.
      destruct (Z.ltb_spec target 0) as [|Hpos];
        [destruct Hspec as [e He]; congruence|].
      rewrite Hseek in Hspec. injection Hspec as ->.
      right. left. split; [done|]. split; [done|].
      destruct Hwrote as [->|[data ->]]; [by left | right; by exists data].
    + rewrite Hseek in Hspec. injection Hspec as ->. rewrite H1 in Hwrote.
      destruct Hwrote as [->|[data ->]]; [by left|].
      right. right. split; [done|]. by exists data.
  - unfold seeks, vb_is_patch.
    rewrite !andb_true_iff, negb_true_iff, Z.eqb_eq, Z.eqb_neq. tauto.
  - intros Hr. unfold target, s64, signed, u64, BLOCK_SIZE.
    rewrite (Z.mod_small (vib_offset blk * 1048576)) by lia.
    rewrite Z.mod_small by lia.
    destruct (Z.ltb_spec (vib_offset blk * 1048576) (2 ^ (64 - 1))); [done|].
    simpl in *. lia.
  - apply vib_offset_is_block_idx.
Qed.

(** C7, on the first block of the sample increment, whose [vib_offset]
    is 5. *)
Lemma patch_block_seek_witness :
  sample_block_body ctx_increment (increment_file 2) (mkVB BLOCK_SIZE 0 0xa1 1 5 0 0)
    (start (increment_file 2)) = Done (fst after_first_patch, snd after_first_patch) /\
  writer (fst after_first_patch) =
    Some (Writer.mk (5 * BLOCK_SIZE + 4)
            [ Writer.Seek (5 * BLOCK_SIZE) Writer.SEEK_SET;
              Writer.Write (5 * BLOCK_SIZE) (map byte_of_Z [1;1;1;1]) ]).
Proof.
  assert (sample_block_body ctx_increment (increment_file 2)
            (mkVB BLOCK_SIZE 0 0xa1 1 5 0 0) (start (increment_file 2))
          = Done (fst after_first_patch, snd after_first_patch)) as E
    by (vm_compute; reflexivity).
  split; [exact E|].
  destruct (patch_block_seek _ _ _ _ _ _ _ _ _ _ _ empty_writer E eq_refl)
    as [[Hnone|[(_ & _ & [Hs|[data Hd]])|(Hno & _)]] _].
  - vm_compute in Hnone. discriminate.
  - vm_compute in Hs. discriminate.
  - vm_compute. reflexivity.
  - vm_compute in Hno. discriminate.
Defined.

(** ** get_file_blocks and the missing-metadata count *)

(** C1, as stated: a file with [nBlocks = 1] whose page stack holds two
    data pages; two blocks are returned, none of them sparse, nothing is
    capped, and [process_file] only logs the excess. *)
Lemma file_blocks_exceed_nBlocks :
  CMeta.nBlocks (CMeta.attribs (increment_file 1)) = 1 /\
  CMeta.get_file_blocks no_slack meta_increment (increment_file 1)
    = Done increment_blocks /\
  ~ (Z.of_nat (length increment_blocks) <= 1) /\
  Extract.account_missing 1 increment_blocks Extract.fti0 = (Extract.fti0, true).
Proof.
  split; [reflexivity|]. split; [vm_compute; reflexivity|].
  split; [simpl; lia | reflexivity].
Qed.

(** C1, amended. For a file with [nBlocks = N], [get_file_blocks]
    returns (unless [N] is negative or beyond what a vector can reserve)
    the collected blocks without the trailing sparse blocks in excess of
    [N]: the list has at most [N] blocks or ends in a block that is not
    sparse, and nothing else is removed.  With at most [N] blocks in the
    list [nMissMD = N - length]; with more, a warning is logged and
    [nMissMD] is left as it was.  The block loop does not touch the
    counter, so this is the value [process_file] reports. *)
Theorem file_blocks_length (beyond : buf_t -> buf_t) (m : CMeta.t) (vfi : CMeta.VFile) :
  int64 (CMeta.nBlocks (CMeta.attribs vfi)) ->
  let N := CMeta.nBlocks (CMeta.attribs vfi) in
  (0 <= N <= CMeta.VAllBlocks_max_size ->
     exists blocks, CMeta.get_file_blocks beyond m vfi = Done blocks) /\
  forall blocks, CMeta.get_file_blocks beyond m vfi = Done blocks ->
    0 <= N /\
    (exists collected sparse_tail,
        CMeta.collected_blocks beyond m vfi = Done collected /\
        collected = blocks ++ sparse_tail /\
        Forall (fun b => vb_is_sparse b = true) sparse_tail /\
        (Z.of_nat (length collected) <= N -> sparse_tail = [])) /\
    (Z.of_nat (length blocks) <= N \/
     exists b, last blocks = Some b /\ vb_is_sparse b = false) /\
    (forall f, Z.of_nat (length blocks) <= N ->
       Extract.account_missing N blocks f =
         (Extract.set_MissMD (N - Z.of_nat (length blocks)) f, false)) /\
    (forall f, N < Z.of_nat (length blocks) ->
       Extract.account_missing N blocks f = (f, true)) /\
    (forall vcrc32 lz4 zlib zstd md5 ctx blocks_to_skip s s',
       Extract.process_file vcrc32 lz4 zlib zstd md5 beyond m ctx vfi blocks_to_skip s
         = Done s' ->
       Extract.nMissMD (Extract.fti s') =
         if Z.of_nat (length blocks) <=? N then N - Z.of_nat (length blocks)
         else Extract.nMissMD (Extract.fti s)).
Proof.
  intros HN N. unfold int64 in HN. fold N in HN. split.
  { intros Hr. apply get_file_blocks_total. fold N. rewrite u64_small; lia. }
  intros blocks H. pose proof H as Hgfb. unfold CMeta.get_file_blocks in H.
  destruct (CMeta.collected_blocks beyond m vfi) as [collected|] eqn:Hc; [|discriminate].
  injection H as H. fold N in H. rewrite <- H. rewrite <- H in Hgfb. clear H.
  assert (0 <= N) as Hpos.
  { unfold CMeta.collected_blocks in Hc. fold N in Hc.
    destruct (Z.ltb_spec CMeta.VAllBlocks_max_size (u64 N)) as [|Hle]; [discriminate|].
    destruct (Z.lt_ge_cases N 0) as [Hneg|]; [|lia].
    rewrite u64_neg in Hle by lia.
    assert (CMeta.VAllBlocks_max_size < 2^63) by (vm_compute; done). lia. }
  assert (u64 N = N) as Hu by (apply u64_small; lia).
  destruct (trim_sparse_spec N collected) as [(tail & Heq & Hall & Hnil) Hlast].
  rewrite Hu in *.
  assert (forall f, Z.of_nat (length (CMeta.trim_sparse N collected)) <= N ->
            Extract.account_missing N (CMeta.trim_sparse N collected) f =
            (Extract.set_MissMD (N - Z.of_nat (length (CMeta.trim_sparse N collected))) f,
             false)) as Hfew.
  { intros f Hf. unfold Extract.account_missing. rewrite Hu.
    destruct (Z.ltb_spec N (Z.of_nat (length (CMeta.trim_sparse N collected)))); [lia|].
    rewrite u64_small by lia. done. }
  assert (forall f, N < Z.of_nat (length (CMeta.trim_sparse N collected)) ->
            Extract.account_missing N (CMeta.trim_sparse N collected) f = (f, true))
    as Hmany.
  { intros f Hf. unfold Extract.account_missing. rewrite Hu.
    destruct (Z.ltb_spec N (Z.of_nat (length (CMeta.trim_sparse N collected))));
      [done | lia]. }
  split; [done|]. split; [|split; [done|split; [done|split; [done|]]]].
  - exists collected, tail. done.
  - intros vcrc32 lz4 zlib zstd md5 ctx blocks_to_skip s s' Hpf.
    destruct (process_file_nMissMD _ _ _ _ _ _ _ _ _ _ _ _ Hpf) as (vAllB & Hv & ->).
    fold N. rewrite Hgfb in Hv. injection Hv as <-.
    destruct (Z.leb_spec (Z.of_nat (length (CMeta.trim_sparse N collected))) N).
    + by rewrite Hfew.
    + by rewrite Hmany by lia.
Qed.

(** C1, on the sample increment with [nBlocks = 2] and both descriptors
    in one page: its two blocks are returned and no metadata is missing. *)
Lemma file_blocks_length_witness :
  int64 2 /\
  CMeta.get_file_blocks no_slack meta_increment_one_page (increment_file 2)
    = Done increment_blocks /\
  Extract.account_missing 2 increment_blocks Extract.fti0
    = (Extract.set_MissMD 0 Extract.fti0, false).
Proof.
  assert (int64 2) as H2 by (unfold int64; lia).
  assert (CMeta.get_file_blocks no_slack meta_increment_one_page (increment_file 2)
          = Done increment_blocks) as E by (vm_compute; reflexivity).
  split; [exact H2|]. split; [exact E|].
  destruct (file_blocks_length no_slack meta_increment_one_page (increment_file 2) H2)
    as [_ Hspec].
  destruct (Hspec increment_blocks E) as (_ & _ & _ & Hmiss & _ & _).
  apply (Hmiss Extract.fti0). simpl. lia.
Defined.

(** * Further properties of the code *)

(** Comparisons decided by case analysis, then [lia]. *)
Ltac blia :=
  repeat match goal with
         | |- context [?a <=? ?b] => destruct (Z.leb_spec a b)
         | |- context [?a <? ?b] => destruct (Z.ltb_spec a b)
         | |- context [?a =? ?b] => destruct (Z.eqb_spec a b)
         end;
  cbn [andb orb negb]; try reflexivity; try lia.

(** ** PhysPageId *)

(** X1. [PhysPageId::operator<] is a strict total order on page ids, and
    the ids it does not separate are the ones [operator==] identifies:
    it is irreflexive, asymmetric and transitive, and two ids neither of
    which is below the other are equal. *)
Theorem ppi_lt_strict_total_order :
  (forall a, Ppi.lt a a = false) /\
  (forall a b, Ppi.lt a b = true -> Ppi.lt b a = false) /\
  (forall a b c, Ppi.lt a b = true -> Ppi.lt b c = true -> Ppi.lt a c = true) /\
  (forall a b, Ppi.lt a b = false -> Ppi.lt b a = false -> ppi_eqb a b = true) /\
  (forall a b, ppi_eqb a b = true -> Ppi.lt a b = false).
Proof.
  unfold Ppi.lt, ppi_eqb.
  repeat split; intros;
    repeat match goal with
           | H : context [if ?c then _ else _] |- _ => destruct c eqn:?
           | |- context [if ?c then _ else _] => destruct c eqn:?
           end; lia.
Qed.

(** ** CPageStack::calc_idx *)

Lemma reqTableNum_loop_bounds p fuel : forall req,
  0 <= p < 2^32 -> 1 <= req <= 2^26 ->
  req <= CPageStack.reqTableNum_loop fuel p req <= 2^26.
Proof.
  induction fuel as [|f IH]; intros req Hp Hr; simpl; [lia|].
  rewrite (u64_small (510 * req)), (u64_small (p + 1)) by lia.
  destruct (510 * req <? p + 1) eqn:E; [|lia].
  rewrite u64_small by lia.
  specialize (IH (req * 4) Hp). lia.
Qed.

Lemma reqTableNum_loop_mono p q fuel : forall req,
  0 <= p <= q -> q < 2^32 -> 1 <= req <= 2^26 ->
  CPageStack.reqTableNum_loop fuel p req <= CPageStack.reqTableNum_loop fuel q req.
Proof.
  induction fuel as [|f IH]; intros req Hp Hq Hr; simpl; [lia|].
  rewrite (u64_small (510 * req)), (u64_small (p + 1)), (u64_small (q + 1)) by lia.
  destruct (510 * req <? p + 1) eqn:E1; destruct (510 * req <? q + 1) eqn:E2; try lia.
  - rewrite u64_small by lia. apply IH; lia.
  - rewrite u64_small by lia.
    pose proof (reqTableNum_loop_bounds q f (req * 4)). lia.
Qed.

(** X2. [calc_idx] gives different pages different slots of the page
    tables, in increasing order, and never the first slot of a table page
    (a multiple of 512, where the link to the next table page lies); the
    first 510 pages sit in slots 2 to 511. *)
Theorem calc_idx_slots (p q : Z) :
  0 <= p < q -> q < 2^32 ->
  CPageStack.calc_idx p < CPageStack.calc_idx q /\
  CPageStack.calc_idx p mod 512 <> 0 /\
  (p < 510 -> CPageStack.calc_idx p = p + 2).
Proof.
  intros Hp Hq. unfold CPageStack.calc_idx.
  pose proof (reqTableNum_loop_bounds p 32 1) as Bp.
  pose proof (reqTableNum_loop_bounds q 32 1) as Bq.
  pose proof (reqTableNum_loop_mono p q 32 1) as M.
  set (rp := CPageStack.reqTableNum_loop 32 p 1) in *.
  set (rq := CPageStack.reqTableNum_loop 32 q 1) in *.
  cbv zeta.
  rewrite (u64_small (rp + p)), (u64_small (rq + q)) by lia.
  pose proof (Z.div_mod (rp + p) 511). pose proof (Z.mod_pos_bound (rp + p) 511).
  pose proof (Z.div_mod (rq + q) 511). pose proof (Z.mod_pos_bound (rq + q) 511).
  assert (0 <= (rp + p) / 511 < 2^32) by (split; [apply Z.div_pos; lia | apply Z.div_lt_upper_bound; lia]).
  assert (0 <= (rq + q) / 511 < 2^32) by (split; [apply Z.div_pos; lia | apply Z.div_lt_upper_bound; lia]).
  rewrite !u64_small by lia.
  split; [|split].
  - assert ((rp + p) / 511 <= (rq + q) / 511) by (apply Z.div_le_mono; lia). lia.
  - replace (512 * ((rp + p) / 511) + (rp + p) mod 511 + 1)
      with ((rp + p) mod 511 + 1 + (rp + p) / 511 * 512) by lia.
    rewrite Z_mod_plus_full, Z.mod_small; lia.
  - intros Hs. assert (rp = 1) as ->.
    { unfold rp. cbn [CPageStack.reqTableNum_loop].
      rewrite (u64_small (510 * 1)), (u64_small (p + 1)) by lia.
      destruct (510 * 1 <? p + 1) eqn:E; [lia|done]. }
    rewrite Z.div_small, Z.mod_small by lia. lia.
Qed.

Lemma calc_idx_slots_witness :
  CPageStack.calc_idx 509 < CPageStack.calc_idx 510 /\
  CPageStack.calc_idx 509 mod 512 <> 0 /\
  (509 < 510 -> CPageStack.calc_idx 509 = 509 + 2).
Proof. apply (calc_idx_slots 509 510); lia. Defined.

(** ** SMetaTableDescriptor *)

(** X3. A descriptor that passes [valid()] describes between one byte and
    [CAPACITY] bytes of the file: [size()] is [CAPACITY] for a sparse
    descriptor and [block_size * nBlocks] (no overflow) otherwise, and a
    valid descriptor is never [empty()]. *)
Theorem md_valid_size (d : SMetaTableDescriptor) :
  md_valid d = true ->
  0 < MetaTable.size d <= MetaTable.CAPACITY /\
  MetaTable.empty d = false /\
  (md_is_sparse d = true -> MetaTable.size d = MetaTable.CAPACITY) /\
  (md_is_sparse d = false -> MetaTable.size d = md_block_size d * md_nBlocks d).
Proof.
  unfold md_valid, MetaTable.size, MetaTable.empty, md_is_sparse, MetaTable.CAPACITY,
    MAX_BLOCKS, BLOCK_SIZE.
  intros H.
  destruct (md_nBlocks d =? 0) eqn:E0.
  - apply andb_prop in H as [H1 H3]. apply andb_prop in H1 as [_ H2].
    rewrite H2, H3. simpl.
    replace (md_block_size d =? 0) with false by lia.
    rewrite andb_false_r. simpl. repeat split; try done; lia.
  - simpl. rewrite andb_false_r.
    assert (0 < md_block_size d * md_nBlocks d <= 1088 * 1048576) as Hb.
    { destruct (md_nBlocks d =? 1) eqn:E1.
      - repeat (apply andb_prop in H as [H ?]). nia.
      - repeat (apply andb_prop in H as [H ?]). nia. }
    unfold s64, signed, u64.
    rewrite (Z.mod_small (md_block_size d * md_nBlocks d)) by lia.
    replace (_ <? 2 ^ (64 - 1)) with true by lia.
    rewrite Z.mod_small by lia.
    repeat split; try done; lia.
Qed.

Lemma md_valid_size_witness :
  let d := mkMD (PPI 2 6) BLOCK_SIZE 781 in
  0 < MetaTable.size d <= MetaTable.CAPACITY /\
  MetaTable.empty d = false /\
  (md_is_sparse d = true -> MetaTable.size d = MetaTable.CAPACITY) /\
  (md_is_sparse d = false -> MetaTable.size d = md_block_size d * md_nBlocks d).
Proof. apply (md_valid_size (mkMD (PPI 2 6) BLOCK_SIZE 781)). reflexivity. Defined.

(** ** SPatchBlockDescriptorV7 read as a VBlockDesc *)

Lemma s64_small z : -2^63 <= z < 2^63 -> s64 z = z.
Proof.
  intros H. unfold s64, signed.
  destruct (Z_lt_le_dec z 0).
  - rewrite <- (Z.mod_unique z (2^64) (-1) (z + 2^64)) by lia.
    replace (z + 2^64 <? 2^(64-1)) with false by lia. lia.
  - rewrite Z.mod_small by lia.
    replace (z <? 2^(64-1)) with true by lia. done.
Qed.

Lemma le_Z_zero bs : le_Z bs = 0 -> Forall (fun b => byte_to_Z b = 0) bs.
Proof.
  induction bs as [|b r IH]; [constructor|].
  cbn [le_Z]. intros H.
  pose proof (byte_to_Z_range b). pose proof (le_Z_nonneg r).
  constructor; [lia|]. apply IH. lia.
Qed.

Lemma le_Z_all_zero bs : Forall (fun b => byte_to_Z b = 0) bs -> le_Z bs = 0.
Proof.
  induction 1 as [|b r Hb _ IH]; [done|]. cbn [le_Z]. lia.
Qed.

Lemma slice_slice off n k m buf :
  (k + m <= n)%nat -> slice (off + k) m buf = take m (drop k (slice off n buf)).
Proof.
  intros H. unfold slice.
  rewrite skipn_firstn_comm, take_take, drop_drop.
  f_equal. lia.
Qed.

Lemma le_Z_slice_zero off n k m buf :
  (k + m <= n)%nat -> le_Z (slice off n buf) = 0 -> le_Z (slice (off + k) m buf) = 0.
Proof.
  intros H Hz. rewrite (slice_slice off n k m) by done.
  apply le_Z_all_zero. apply Forall_take, Forall_drop. by apply le_Z_zero.
Qed.

Lemma rd_u64_range off buf : 0 <= rd_u64 off buf < 2^64.
Proof.
  unfold rd_u64. split; [apply le_Z_nonneg|].
  eapply Z.lt_le_trans; [apply le_Z_bound|].
  unfold slice. rewrite length_take.
  change (2^64) with (256 ^ Z.of_nat 8). apply Z.pow_le_mono_r; lia.
Qed.

(** X4. [get_file_blocks] stores a patch descriptor as a [VBlockDesc].
    For a descriptor that passes [SPatchBlockDescriptorV7::valid()] the
    block it becomes has the descriptor's size and digest, its
    [vib_offset] is the descriptor's [block_idx] and its last two fields
    are zero; it is never sparse, it is a patch block exactly when
    [block_idx] is not zero, and (for indices below 2^43) the offset the
    engine seeks to is the descriptor's [fib_offset()]. *)
Theorem patch_descriptor_as_block (off : nat) (buf : buf_t) :
  Patch.valid (Patch.rd off buf) = true ->
  let d := Patch.rd off buf in
  let b := rd_vb off buf in
  vb_size b = BLOCK_SIZE /\ vb_hash b = Patch.digest d /\ vb_hash b <> 0 /\
  vib_offset b = Patch.block_idx d /\ vb_qw2 b = 0 /\ vb_t2 b = 0 /\
  vb_is_sparse b = false /\
  vb_is_patch b = negb (Patch.block_idx d =? 0) /\
  (Patch.block_idx d < 2^43 ->
   s64 (u64 (vib_offset b * BLOCK_SIZE)) = Patch.fib_offset d /\
   Patch.fib_offset d = Patch.block_idx d * BLOCK_SIZE).
Proof.
  intros H d b. unfold Patch.valid in H. fold d in H.
  repeat (apply andb_prop in H as [H ?]).
  assert (vib_offset b = Patch.block_idx d) as Hv.
  { apply vib_offset_is_block_idx.
    change (rd_patch_block_idx off buf) with (Patch.block_idx d). lia. }
  assert (vb_size b = BLOCK_SIZE) as Hs by (change (vb_size b) with (Patch.size d); lia).
  assert (Patch.digest2 d = 0) as Hd2 by lia.
  split; [done|]. split; [done|].
  split; [change (vb_hash b) with (Patch.digest d); lia|].
  split; [done|].
  split.
  { change (vb_qw2 b) with (le_Z (slice (off + 37) 8 buf)).
    rewrite <- (Nat.add_0_r (off + 37)).
    apply (le_Z_slice_zero (off + 37) 16 0 8); [lia|exact Hd2]. }
  split.
  { change (vb_t2 b) with (le_Z (slice (off + 45) 1 buf)).
    replace (off + 45)%nat with (off + 37 + 8)%nat by lia.
    apply (le_Z_slice_zero (off + 37) 16 8 1); [lia|exact Hd2]. }
  split.
  { unfold vb_is_sparse, vb_is_zero. rewrite Hs. done. }
  split.
  { unfold vb_is_patch. rewrite Hs, Hv. done. }
  intros Hlt. rewrite Hv. unfold Patch.fib_offset.
  assert (0 <= Patch.block_idx d * BLOCK_SIZE < 2^63) as Hr.
  { unfold BLOCK_SIZE. lia. }
  rewrite u64_small, s64_small by lia. done.
Qed.

Lemma patch_descriptor_as_block_witness :
  let buf := patch_bytes BLOCK_SIZE 0 0xa1 1 5 0 in
  vb_is_patch (rd_vb 0 buf) = negb (Patch.block_idx (Patch.rd 0 buf) =? 0) /\
  Patch.fib_offset (Patch.rd 0 buf) = 5 * BLOCK_SIZE.
Proof.
  pose proof (patch_descriptor_as_block 0 (patch_bytes BLOCK_SIZE 0 0xa1 1 5 0) eq_refl)
    as (_ & _ & _ & _ & _ & _ & _ & Hp & Hf).
  split; [exact Hp|].
  destruct Hf as [_ Hf]; [vm_compute; reflexivity|exact Hf].
Defined.

(** ** FileHeader::slot_size and CSlot::size *)

(** X5. The area [FileHeader::slot_size()] reserves for a slot is a whole
    number of pages and holds every [CSlot] with at most [max_banks()]
    bank records, whatever the slot format. *)
Theorem slot_size_holds_slot (h : FileHeader.t) (s : buf_t) :
  CSlot.max_banks s <= FileHeader.max_banks h ->
  CSlot.size s <= FileHeader.slot_size h /\
  FileHeader.slot_size h mod PAGE_SIZE = 0 /\
  PAGE_SIZE <= FileHeader.slot_size h.
Proof.
  unfold CSlot.size, FileHeader.slot_size, CSlot.sizeof, FileHeader.BankInfo_sizeof.
  assert (0 <= CSlot.max_banks s) as H0 by apply le_Z_nonneg.
  unfold FileHeader.max_banks.
  destruct (FileHeader.slot_fmt h =? 0);
    [|destruct ((FileHeader.slot_fmt h =? 5) || (FileHeader.slot_fmt h =? 9))];
    intros Hm; rewrite u64_small by lia.
  all: split; [|split; vm_compute; congruence].
  all: match goal with
       | |- _ <= ?r => let v := eval vm_compute in r in change r with v
       end; lia.
Qed.

Lemma slot_size_holds_slot_witness :
  CSlot.size wide_slot_header <= FileHeader.slot_size md5_header /\
  FileHeader.slot_size md5_header mod PAGE_SIZE = 0 /\
  PAGE_SIZE <= FileHeader.slot_size md5_header.
Proof. apply (slot_size_holds_slot md5_header wide_slot_header). vm_compute. congruence. Defined.

(** ** CBank::HeaderPage *)

Lemma free_scan_spec h l : forall was,
  CBank.free_scan h l was =
  forallb (fun i => Z.land (CBank.free_word h i) 0xfefefefe =? 0) l &&
  (was || existsb (fun i => negb (CBank.free_word h i =? 0x01010101)) l).
Proof.
  induction l as [|i r IH]; intros was; cbn [CBank.free_scan forallb existsb].
  - by rewrite orb_false_r.
  - destruct (Z.land (CBank.free_word h i) 4278124286 =? 0); [|done].
    cbn [negb andb]. rewrite IH. by rewrite orb_assoc.
Qed.

Lemma zeroes_are_zero_word h j :
  CBank.zeroes_are_zero h = true -> (j < 256)%nat -> CBank.zeroes_word h j = 0.
Proof.
  unfold CBank.zeroes_are_zero. rewrite forallb_forall. intros H Hj.
  specialize (H j). rewrite in_seq in H. apply Z.eqb_eq, H. lia.
Qed.

Lemma free_word_in_zeroes h j : CBank.free_word h (128 + j) = CBank.zeroes_word h j.
Proof. unfold CBank.free_word, CBank.zeroes_word. f_equal. lia. Qed.

(** X6. What [CBank::HeaderPage::valid()] tests.  The scan of
    [free_pages] walks 256 eight-byte words from the start of the array,
    so its second half reads the [zeroes] field, and of every word it
    tests the low four bytes only.  Hence a header is valid exactly when
    [nPages] is between 0x20 and 0x400, the low four bytes of each of the
    128 eight-byte groups of [free_pages] are 0 or 1, [zeroes] is zero and
    the encryption fields are consistent: bytes 4 to 7 of every group are
    not looked at, and no page has to be marked occupied. *)
Theorem bank_header_valid_iff (h : buf_t) :
  CBank.valid h =
  (0x20 <=? CBank.nPages h) && (CBank.nPages h <=? 0x400) &&
  forallb (fun i => Z.land (CBank.free_word h i) 0xfefefefe =? 0) (seq 0 128) &&
  CBank.zeroes_are_zero h && CBank.valid_encr_config h.
Proof.
  unfold CBank.valid, CBank.free_pages_valid, CBank.V13_MIN_PAGES, CBank.V13_MAX_PAGES.
  rewrite free_scan_spec.
  destruct (CBank.zeroes_are_zero h) eqn:Hz; [|by rewrite !andb_false_r].
  f_equal. f_equal. f_equal.
  change 256%nat with (128 + 128)%nat. rewrite seq_app, forallb_app, existsb_app.
  assert (forallb (fun i => Z.land (CBank.free_word h i) 4278124286 =? 0)
            (seq (0 + 128) 128) = true) as ->.
  { apply forallb_forall. intros x Hx. apply in_seq in Hx.
    replace x with (128 + (x - 128))%nat by lia.
    rewrite free_word_in_zeroes, zeroes_are_zero_word by (done || lia). done. }
  assert (existsb (fun i => negb (CBank.free_word h i =? 16843009))
            (seq (0 + 128) 128) = true) as ->.
  { apply existsb_exists. exists 128%nat. split; [apply in_seq; lia|].
    change 128%nat with (128 + 0)%nat.
    rewrite free_word_in_zeroes, zeroes_are_zero_word by (done || lia). done. }
  by rewrite andb_true_r, !orb_true_r, andb_true_r.
Qed.

(** A header that marks every page free is valid, and so is one with
    0xff in the bytes of [free_pages] that are not looked at. *)
Example bank_header_all_free :
  CBank.valid (CBank.all_free_header 0x20) = true /\
  CBank.valid (CBank.odd_header 0x20) = true.
Proof. split; vm_compute; reflexivity. Qed.

Lemma nPages_range h : 0 <= CBank.nPages h.
Proof. apply le_Z_nonneg. Qed.

(** X7. A bank whose header page is valid has between 0x22 and 0x402
    pages: [bank_size()] is [(nPages+2) * PAGE_SIZE], at least 0x22000 and
    at most [MAX_BANK_SIZE].  If the bank is encrypted, the key id is not
    zero and the encrypted part is not empty and ends inside the bank
    ([encr_size <= bank_size - PAGE_SIZE]); if it is not, both fields are
    zero. *)
Theorem bank_header_bounds (h : buf_t) :
  CBank.valid h = true ->
  CBank.bank_size h = (CBank.nPages h + 2) * PAGE_SIZE /\
  0x22000 <= CBank.bank_size h <= CBank.MAX_BANK_SIZE /\
  (CBank.is_encrypted h = true ->
   CBank.keyset_id h <> 0 /\ 0 < CBank.encr_size h <= CBank.bank_size h - PAGE_SIZE) /\
  (CBank.is_encrypted h = false -> CBank.keyset_id h = 0 /\ CBank.encr_size h = 0).
Proof.
  unfold CBank.valid, CBank.V13_MIN_PAGES, CBank.V13_MAX_PAGES. intros H.
  apply andb_prop in H as [H He]. apply andb_prop in H as [H _].
  apply andb_prop in H as [H _]. apply andb_prop in H as [Hlo Hhi].
  assert (CBank.bank_size h = (CBank.nPages h + 2) * PAGE_SIZE) as Hs.
  { unfold CBank.bank_size, PAGE_SIZE. rewrite u64_small, u32_small; lia. }
  split; [done|]. split; [unfold CBank.MAX_BANK_SIZE, PAGE_SIZE in *; lia|].
  unfold CBank.is_encrypted. rewrite He. cbn [andb].
  unfold CBank.valid_encr_config in He.
  rewrite (u64_small (CBank.bank_size h - PAGE_SIZE)) in He
    by (unfold PAGE_SIZE in *; lia).
  assert (0 <= CBank.encr_size h) by apply le_Z_nonneg.
  split; intros Hx.
  - apply orb_prop in He as [He|He]; repeat (apply andb_prop in He as [He ?]); lia.
  - apply orb_prop in He as [He|He]; repeat (apply andb_prop in He as [He ?]); lia.
Qed.

Lemma bank_header_bounds_witness :
  CBank.bank_size (CBank.all_free_header 0x20) = (0x20 + 2) * PAGE_SIZE /\
  CBank.is_encrypted (CBank.all_free_header 0x20) = false.
Proof.
  pose proof (bank_header_bounds (CBank.all_free_header 0x20) eq_refl) as (Hs & _).
  split; [exact Hs | vm_compute; reflexivity].
Defined.

(** ** lru_set *)

Lemma lru_mem_elem k s : LruSet.mem k s = true <-> k ∈ LruSet.keys s.
Proof.
  unfold LruSet.mem. rewrite existsb_exists. split.
  - intros (x & Hin & Heq). apply Z.eqb_eq in Heq. subst. by apply list_elem_of_In.
  - intros H. exists k. split; [by apply list_elem_of_In | apply Z.eqb_refl].
Qed.

Lemma lru_mem_false k s : LruSet.mem k s = false <-> k ∉ LruSet.keys s.
Proof.
  rewrite <- lru_mem_elem. destruct (LruSet.mem k s); split; congruence.
Qed.

Lemma lru_promote_ok k s :
  lru_ok s -> k ∈ LruSet.keys s -> lru_ok (LruSet.promote k s).
Proof.
  intros [Hnd Hcap] Hin. unfold lru_ok, LruSet.promote. cbn.
  split.
  - apply NoDup_cons. split; [|by apply NoDup_filter].
    rewrite list_elem_of_filter. naive_solver.
  - pose proof (length_filter_lt (fun x => x ≠ k) (LruSet.keys s) k Hin) as Hlt.
    assert (¬ k ≠ k) as Hk by naive_solver. specialize (Hlt Hk). lia.
Qed.

Lemma lru_promote_mem j k s :
  k ∈ LruSet.keys s -> LruSet.mem j (LruSet.promote k s) = LruSet.mem j s.
Proof.
  intros Hin. apply eq_true_iff_eq. rewrite !lru_mem_elem.
  unfold LruSet.promote. cbn. rewrite elem_of_cons, list_elem_of_filter.
  destruct (decide (j = k)); naive_solver.
Qed.

Lemma take_pred_elem (l : list Z) j :
  NoDup l -> j ∈ take (length l - 1) l <-> j ∈ l /\ Some j ≠ last l.
Proof.
  intros Hnd. destruct (last l) as [x|] eqn:Hl.
  - apply last_Some in Hl as [l' ->].
    rewrite length_app. cbn. replace (length l' + 1 - 1)%nat with (length l') by lia.
    rewrite take_app_length. apply NoDup_app in Hnd as (_ & Hd & _).
    rewrite elem_of_app, list_elem_of_singleton.
    split; [|naive_solver].
    intros Hj. split; [by left|]. intros [= ->]. apply (Hd x Hj). by left.
  - apply last_None in Hl. subst. cbn. set_solver.
Qed.

Lemma lru_insert_props (s : LruSet.t) (k : Z) :
  0 < LruSet.capacity s -> lru_ok s ->
  let s' := LruSet.insert k s in
  lru_ok s' /\ LruSet.capacity s' = LruSet.capacity s /\ LruSet.mem k s' = true /\
  (forall j, LruSet.mem j s' = true -> j = k \/ LruSet.mem j s = true) /\
  (forall j, LruSet.mem j s = true -> LruSet.mem j s' = false ->
     LruSet.mem k s = false /\
     Z.of_nat (length (LruSet.keys s)) = LruSet.capacity s /\
     last (LruSet.keys s) = Some j).
Proof.
  intros Hcap [Hnd Hlen] s'. unfold s', LruSet.insert.
  destruct (LruSet.mem k s) eqn:Hk.
  - apply lru_mem_elem in Hk.
    split; [by apply lru_promote_ok|]. split; [done|].
    split; [rewrite lru_promote_mem by done; by apply lru_mem_elem|].
    split; intros j; rewrite lru_promote_mem by done; [by right | congruence].
  - apply lru_mem_false in Hk.
    destruct (LruSet.capacity s <=? Z.of_nat (length (LruSet.keys s))) eqn:Hfull.
    + assert (Z.of_nat (length (LruSet.keys s)) = LruSet.capacity s) as Heq by lia.
      split.
      { split; cbn.
        - apply NoDup_cons. split.
          + intros Hin. apply Hk. eapply elem_of_sublist; [done|]. apply sublist_take.
          + eapply sublist_NoDup; [done|apply sublist_take].
        - rewrite length_take. lia. }
      split; [done|].
      split; [apply lru_mem_elem; cbn; by left|].
      split; intros j; rewrite ?lru_mem_elem, ?lru_mem_false; cbn;
        rewrite elem_of_cons, take_pred_elem by done.
      * naive_solver.
      * intros Hj Hn. split; [done|]. split; [done|].
        destruct (decide (Some j = last (LruSet.keys s))) as [<-|Hne]; [done|].
        exfalso. apply Hn. right. done.
    + split; [split; cbn; [apply NoDup_cons; by split | lia]|].
      split; [done|].
      split; [apply lru_mem_elem; cbn; by left|].
      split; intros j; rewrite ?lru_mem_elem, ?lru_mem_false; cbn; rewrite elem_of_cons.
      * naive_solver.
      * intros Hj Hn. exfalso. apply Hn. by right.
Qed.

(** X8. [lru_set::insert] keeps the set within its capacity and free of
    duplicates, and the inserted key is in the set afterwards.  No other
    key comes in; no key goes out when the key was already there or the
    set was not full, and otherwise exactly the key at the back of the
    list (the least recently used one) goes out. *)
Theorem lru_insert_spec (s : LruSet.t) (k : Z) :
  0 < LruSet.capacity s -> lru_ok s ->
  let s' := LruSet.insert k s in
  lru_ok s' /\ LruSet.capacity s' = LruSet.capacity s /\ LruSet.mem k s' = true /\
  (forall j, LruSet.mem j s' = true -> j = k \/ LruSet.mem j s = true) /\
  (forall j, LruSet.mem j s = true -> LruSet.mem j s' = false ->
     LruSet.mem k s = false /\
     Z.of_nat (length (LruSet.keys s)) = LruSet.capacity s /\
     last (LruSet.keys s) = Some j).
Proof. exact (lru_insert_props s k). Qed.

Lemma lru_insert_spec_witness :
  let s := LruSet.mk 3 [3; 2; 1] in
  LruSet.mem 4 (LruSet.insert 4 s) = true /\ LruSet.mem 1 (LruSet.insert 4 s) = false.
Proof.
  assert (lru_ok (LruSet.mk 3 [3; 2; 1])) as Hok.
  { split; [|cbn; lia]. repeat (apply NoDup_cons; split; [set_solver|]). apply NoDup_nil_2. }
  pose proof (lru_insert_spec (LruSet.mk 3 [3; 2; 1]) 4 eq_refl Hok) as (_ & _ & Hm & _).
  split; [exact Hm | reflexivity].
Defined.

(** X9. [lru_set::contains] answers whether the key is in the set and
    changes neither the keys nor the invariant; a key it has just found is
    not the one the next [insert] drops (for a capacity of two or more). *)
Theorem lru_contains_spec (s : LruSet.t) (j k : Z) :
  2 <= LruSet.capacity s -> lru_ok s ->
  let '(hit, s1) := LruSet.contains j s in
  hit = LruSet.mem j s /\ lru_ok s1 /\ LruSet.capacity s1 = LruSet.capacity s /\
  (forall i, LruSet.mem i s1 = LruSet.mem i s) /\
  (hit = true -> LruSet.mem j (LruSet.insert k s1) = true).
Proof.
  intros Hcap Hok. unfold LruSet.contains.
  destruct (LruSet.mem j s) eqn:Hj.
  - apply lru_mem_elem in Hj.
    pose proof (lru_promote_ok j s Hok Hj) as Hok1.
    split; [done|]. split; [done|]. split; [done|].
    split; [intros i; by apply lru_promote_mem|].
    intros _.
    destruct (LruSet.mem j (LruSet.insert k (LruSet.promote j s))) eqn:Hm; [done|].
    exfalso.
    assert (0 < LruSet.capacity (LruSet.promote j s)) as Hc1 by (cbn; lia).
    destruct (lru_insert_props (LruSet.promote j s) k Hc1 Hok1) as (_ & _ & _ & _ & Hout).
    destruct (Hout j) as (_ & Hfull & Hlast); [|done|].
    { apply lru_mem_elem. cbn. by left. }
    cbn in Hfull, Hlast.
    destruct (filter (fun x => x ≠ j) (LruSet.keys s)) as [|y r] eqn:Hf.
    + cbn in Hfull. lia.
    + assert (j ∈ y :: r) as Hin.
      { change (last (j :: y :: r)) with (last (y :: r)) in Hlast.
        by apply last_Some_elem_of in Hlast. }
      rewrite <- Hf in Hin. apply list_elem_of_filter in Hin. naive_solver.
  - split; [done|]. split; [done|]. split; [done|]. split; [done|]. discriminate.
Qed.

Lemma lru_contains_spec_witness :
  LruSet.mem 1 (LruSet.insert 4 (snd (LruSet.contains 1 (LruSet.mk 3 [3; 2; 1])))) = true.
Proof.
  assert (lru_ok (LruSet.mk 3 [3; 2; 1])) as Hok.
  { split; [|cbn; lia]. repeat (apply NoDup_cons; split; [set_solver|]). apply NoDup_nil_2. }
  assert (2 <= LruSet.capacity (LruSet.mk 3 [3; 2; 1])) as Hc by (cbn; lia).
  pose proof (lru_contains_spec (LruSet.mk 3 [3; 2; 1]) 1 4 Hc Hok) as H.
  cbn in H. destruct H as (_ & _ & _ & _ & H). exact (H eq_refl).
Defined.

(** ** BitFileMappedArray *)

Lemma byte_to_of z : byte_to_Z (byte_of_Z z) = z mod 256.
Proof.
  unfold byte_to_Z, byte_of_Z.
  pose proof (Z.mod_pos_bound z 256 ltac:(lia)) as Hb.
  destruct (Byte.of_N (Z.to_N (z mod 256))) as [b|] eqn:E.
  - apply Byte.to_of_N in E. rewrite E. lia.
  - apply Byte.of_N_None_iff in E. lia.
Qed.

Lemma land_bit x k : 0 <= k -> negb (Z.land x (Z.shiftl 1 k) =? 0) = Z.testbit x k.
Proof.
  intros Hk. rewrite Z.shiftl_1_l.
  destruct (Z.testbit x k) eqn:T.
  - destruct (Z.land x (2 ^ k) =? 0) eqn:E; [|done].
    apply Z.eqb_eq in E.
    assert (Z.testbit (Z.land x (2 ^ k)) k = true) as Hc.
    { rewrite Z.land_spec, T, Z.pow2_bits_true by lia. done. }
    rewrite E, Z.bits_0 in Hc. done.
  - assert (Z.land x (2 ^ k) = 0) as ->; [|done].
    apply Z.bits_inj'. intros n Hn.
    rewrite Z.land_spec, Z.bits_0, Z.pow2_bits_eqb by lia.
    destruct (k =? n) eqn:E; [|by rewrite andb_false_r].
    apply Z.eqb_eq in E. subst. by rewrite T.
Qed.

Lemma testbit_mod256 z k : 0 <= k < 8 -> Z.testbit (z mod 256) k = Z.testbit z k.
Proof. intros H. change 256 with (2^8). apply Z.mod_pow2_bits_low. lia. Qed.

Lemma testbit_255 k : 0 <= k -> Z.testbit 255 k = (k <? 8).
Proof.
  intros H. change 255 with (Z.ones 8).
  destruct (k <? 8) eqn:E.
  - apply Z.ones_spec_low. lia.
  - apply Z.ones_spec_high. lia.
Qed.

Lemma testbit_low_mask e k :
  0 <= e -> 0 <= k -> Z.testbit (Z.shiftl 1 (e + 1) - 1) k = (k <=? e).
Proof.
  intros He Hk. rewrite Z.shiftl_1_l.
  replace (2 ^ (e + 1) - 1) with (Z.ones (e + 1)) by (rewrite Z.ones_equiv; lia).
  destruct (k <=? e) eqn:E.
  - apply Z.ones_spec_low. lia.
  - apply Z.ones_spec_high. lia.
Qed.

Section BitArray.

Import BitFileMappedArray.

Lemma at_store B m c v c' :
  0 <= c -> 0 <= c' ->
  at_ (mk B (store c v m)) c' =
  if (c' =? c) && (c <? len m) then v mod 256 else at_ (mk B m) c'.
Proof.
  intros Hc Hc'. unfold at_, store, len. cbn [m_mmap].
  destruct (c' =? c) eqn:E.
  - apply Z.eqb_eq in E. subst c'. cbn [andb].
    destruct (c <? Z.of_nat (length m)) eqn:El.
    + rewrite list_lookup_insert_eq by lia. cbn. apply byte_to_of.
    + rewrite list_insert_ge by lia. done.
  - cbn [andb]. rewrite list_lookup_insert_ne by lia. done.
Qed.

Lemma bit_at a idx : 0 <= idx -> bit a idx = Z.testbit (at_ a (idx / 8)) (7 - idx mod 8).
Proof.
  intros H. unfold bit. apply land_bit.
  pose proof (Z.mod_pos_bound idx 8). lia.
Qed.

Lemma at_range a c : 0 <= at_ a c < 256.
Proof. apply byte_to_Z_range. Qed.

(** X10. [BitFileMappedArray::set] followed by [get] on the same index
    gives the value set, and no other bit of the array changes; both
    throw for an index that is not below the number of bits. *)
Theorem bit_set_get (a : BitFileMappedArray.t) (i j : Z) (v : bool) :
  0 <= i < m_bit_size a -> 0 <= j < m_bit_size a ->
  m_bit_size a <= 8 * len (m_mmap a) ->
  (exists a', set a i v = Done a' /\ m_bit_size a' = m_bit_size a /\
     length (m_mmap a') = length (m_mmap a) /\
     get a' i = Done v /\ (j <> i -> get a' j = get a j)) /\
  (forall k, m_bit_size a <= k ->
     get a k = Thrown "Bit index out of range" /\
     set a k v = Thrown "Bit index out of range").
Proof.
  intros Hi Hj Hlen. split.
  - unfold set. replace (m_bit_size a <=? i) with false by lia.
    eexists. split; [reflexivity|]. cbn [m_bit_size m_mmap].
    split; [done|]. split; [unfold store; by rewrite length_insert|].
    pose proof (Z.div_mod i 8 ltac:(lia)). pose proof (Z.mod_pos_bound i 8 ltac:(lia)).
    pose proof (Z.div_mod j 8 ltac:(lia)). pose proof (Z.mod_pos_bound j 8 ltac:(lia)).
    assert (0 <= i / 8 < len (m_mmap a)) by (unfold len in *; lia).
    assert (0 <= j / 8) by lia.
    unfold get. cbn [m_bit_size].
    replace (m_bit_size a <=? i) with false by lia.
    replace (m_bit_size a <=? j) with false by lia.
    split.
    + f_equal. rewrite land_bit by lia.
      rewrite at_store by lia. rewrite Z.eqb_refl.
      replace (i / 8 <? len (m_mmap a)) with true by lia. cbn [andb].
      rewrite testbit_mod256 by lia.
      destruct v.
      * rewrite Z.lor_spec, Z.shiftl_1_l, Z.pow2_bits_true by lia. apply orb_true_r.
      * rewrite Z.land_spec, Z.lnot_spec, Z.shiftl_1_l, Z.pow2_bits_true by lia.
        apply andb_false_r.
    + intros Hne. f_equal. rewrite !land_bit by lia.
      rewrite at_store by lia.
      destruct (j / 8 =? i / 8) eqn:E.
      * apply Z.eqb_eq in E.
        replace (i / 8 <? len (m_mmap a)) with true by lia. cbn [andb].
        rewrite testbit_mod256 by lia.
        destruct a as [B m]. cbn [m_bit_size m_mmap] in *. rewrite E.
        assert (7 - i mod 8 <> 7 - j mod 8) as Hb by lia.
        destruct v.
        -- rewrite Z.lor_spec, Z.shiftl_1_l, Z.pow2_bits_false by lia. apply orb_false_r.
        -- rewrite Z.land_spec, Z.lnot_spec, Z.shiftl_1_l, Z.pow2_bits_false by lia.
           apply andb_true_r.
      * cbn [andb]. by destruct a.
  - intros k Hk. unfold get, set. replace (m_bit_size a <=? k) with true by lia. done.
Qed.

Lemma bit_set_get_witness :
  let a := BitFileMappedArray.mk 12 [Byte.x00; Byte.x00] in
  exists a', set a 9 true = Done a' /\ get a' 9 = Done true /\ get a' 8 = get a 8.
Proof.
  assert (0 <= 9 < 12) as H1 by lia. assert (0 <= 8 < 12) as H2 by lia.
  destruct (bit_set_get (BitFileMappedArray.mk 12 [Byte.x00; Byte.x00]) 9 8 true H1 H2)
    as [(a' & Hs & _ & _ & Hg & Ho) _]; [vm_compute; congruence|].
  exists a'. split; [exact Hs|]. split; [exact Hg|]. apply Ho. lia.
Defined.

Lemma fill_ff_length n : forall from m, length (fill_ff from n m) = length m.
Proof.
  induction n as [|k IH]; intros from m; cbn [fill_ff]; [done|].
  rewrite IH. unfold store. by rewrite length_insert.
Qed.

Lemma len_store c v m : len (store c v m) = len m.
Proof. unfold len, store. by rewrite length_insert. Qed.

Lemma len_fill_ff n from m : len (fill_ff from n m) = len m.
Proof. unfold len. by rewrite fill_ff_length. Qed.

Lemma at_fill B n : forall from m c,
  0 <= from -> 0 <= c -> from + Z.of_nat n <= len m ->
  at_ (mk B (fill_ff from n m)) c =
  if (from <=? c) && (c <? from + Z.of_nat n) then 255 else at_ (mk B m) c.
Proof.
  induction n as [|k IH]; intros from m c Hf Hc Hl; cbn [fill_ff].
  - replace ((from <=? c) && (c <? from + Z.of_nat 0)) with false by blia. done.
  - rewrite IH; [|lia|lia|].
    2:{ rewrite len_store. lia. }
    rewrite at_store by lia.
    destruct (Z.eq_dec c from) as [->|Hne].
    + rewrite Z.eqb_refl. replace (from <? len m) with true by blia.
      replace ((from + 1 <=? from) && _) with false by blia.
      replace ((from <=? from) && _) with true by blia. done.
    + replace (c =? from) with false by blia. cbn [andb].
      replace ((from + 1 <=? c) && (c <? from + 1 + Z.of_nat k))
        with ((from <=? c) && (c <? from + Z.of_nat (S k))) by blia.
      done.
Qed.

Lemma at_or_mask c M a c' :
  0 <= c < len (m_mmap a) -> 0 <= c' ->
  at_ (or_mask c M a) c' =
  if c' =? c then Z.lor (at_ a c) (u8 M) mod 256 else at_ a c'.
Proof.
  intros Hc Hc'. unfold or_mask. rewrite at_store by lia.
  replace (c <? len (m_mmap a)) with true by blia. rewrite andb_true_r.
  by destruct a.
Qed.

Lemma testbit_or_mask x M k :
  0 <= k < 8 -> Z.testbit (Z.lor x (u8 M) mod 256) k = Z.testbit x k || Z.testbit M k.
Proof.
  intros Hk. rewrite testbit_mod256, Z.lor_spec by done.
  unfold u8. change (2^8) with 256. by rewrite testbit_mod256.
Qed.

(** X11. What [set_range(start, end)] does for a range that crosses a
    byte boundary.  It returns without an error and never clears a bit.
    Every bit of the bytes strictly between the first and the last byte
    of the range is set.  In the first byte the bits up to and including
    [start] are set (the whole byte when [start] is its last bit), and in
    the last byte the bits from [end-1] on; every other bit keeps its
    value.  So the bits of the range that follow [start] in its byte, and
    those that precede [end-1] in its byte, are not set by the call, and
    bits outside the range in those two bytes are. *)
Theorem set_range_bits (a : BitFileMappedArray.t) (start end_ j : Z) :
  0 <= start < end_ -> end_ <= m_bit_size a ->
  m_bit_size a <= 8 * len (m_mmap a) ->
  start / 8 <> (end_ - 1) / 8 ->
  0 <= j < m_bit_size a ->
  exists a', set_range a start end_ = Done a' /\ m_bit_size a' = m_bit_size a /\
    get a j = Done (bit a j) /\
    get a' j = Done
      (if (start / 8 <? j / 8) && (j / 8 <? (end_ - 1) / 8) then true
       else if j / 8 =? start / 8 then
         (if start mod 8 =? 7 then true else (j <=? start) || bit a j)
       else if j / 8 =? (end_ - 1) / 8 then (end_ - 1 <=? j) || bit a j
       else bit a j).
Proof.
  intros Hs He Hlen Hne Hj.
  pose proof (Z.div_mod start 8 ltac:(lia)). pose proof (Z.mod_pos_bound start 8 ltac:(lia)).
  pose proof (Z.div_mod (end_ - 1) 8 ltac:(lia)).
  pose proof (Z.mod_pos_bound (end_ - 1) 8 ltac:(lia)).
  pose proof (Z.div_mod j 8 ltac:(lia)). pose proof (Z.mod_pos_bound j 8 ltac:(lia)).
  assert (start / 8 <= (end_ - 1) / 8) by (apply Z.div_le_mono; lia).
  set (sb := start / 8) in *. set (eb := (end_ - 1) / 8) in *. set (c := j / 8) in *.
  assert (0 <= sb < eb) by lia.
  assert (eb < len (m_mmap a)) by lia.
  assert (0 <= c < len (m_mmap a)) by lia.
  unfold set_range.
  replace ((m_bit_size a <=? start) || (m_bit_size a <? end_) || (end_ <=? start))
    with false by blia.
  fold sb eb. replace (sb =? eb) with false by blia.
  assert (get a j = Done (bit a j)) as Hget.
  { unfold get. replace (m_bit_size a <=? j) with false by blia. done. }
  set (k := 7 - j mod 8) in *. assert (0 <= k < 8) by lia.
  assert (u32 (Z.shiftl 1 (7 - (end_ - 1) mod 8 + 1)) = Z.shiftl 1 (7 - (end_ - 1) mod 8 + 1)) as Hu.
  { apply u32_small. rewrite Z.shiftl_1_l. split; [lia|].
    apply Z.lt_le_trans with (2 ^ 9); [|lia]. apply Z.pow_lt_mono_r; lia. }
  rewrite Hu.
  assert (forall x, Z.testbit (Z.lor (at_ x eb) (u8 (Z.shiftl 1 (7 - (end_ - 1) mod 8 + 1) - 1)) mod 256) k
                    = Z.testbit (at_ x eb) k || (k <=? 7 - (end_ - 1) mod 8)) as Hend.
  { intros x. rewrite testbit_or_mask, testbit_low_mask by lia. done. }
  assert (Z.testbit (Z.lor (at_ a sb) (u8 (Z.shiftl 255 (7 - start mod 8))) mod 256) k
          = Z.testbit (at_ a sb) k || (7 - start mod 8 <=? k)) as Hstart.
  { rewrite testbit_or_mask by lia. f_equal.
    destruct (7 - start mod 8 <=? k) eqn:E.
    - rewrite Z.shiftl_spec, testbit_255 by lia. lia.
    - apply Z.shiftl_spec_low. lia. }
  destruct (negb (7 - start mod 8 =? 0)) eqn:Esb.
  - (* the first byte is or-ed with its mask *)
    eexists. split; [reflexivity|]. unfold or_mask. cbn [m_bit_size m_mmap].
    split; [done|]. split; [done|].
    unfold get. cbn [m_bit_size m_mmap]. replace (m_bit_size a <=? j) with false by blia.
    f_equal. rewrite land_bit by lia. fold c k.
    rewrite at_store by lia.
    rewrite len_fill_ff, len_store.
    replace (eb <? len (m_mmap a)) with true by blia.
    rewrite andb_true_r.
    assert (forall c', 0 <= c' ->
      at_ (mk (m_bit_size a)
              (fill_ff (sb + 1) (Z.to_nat (eb - (sb + 1)))
                 (store sb (Z.lor (at_ a sb) (u8 (Z.shiftl 255 (7 - start mod 8)))) (m_mmap a)))) c'
      = if (sb + 1 <=? c') && (c' <? eb) then 255
        else if c' =? sb then Z.lor (at_ a sb) (u8 (Z.shiftl 255 (7 - start mod 8))) mod 256
        else at_ a c') as Hat.
    { intros c' Hc'. rewrite at_fill; [| lia | lia |].
      2:{ rewrite len_store. lia. }
      replace (sb + 1 + Z.of_nat (Z.to_nat (eb - (sb + 1)))) with eb by lia.
      destruct ((sb + 1 <=? c') && (c' <? eb)); [done|].
      rewrite at_store by lia. replace (sb <? len (m_mmap a)) with true by blia.
      rewrite andb_true_r. by destruct a. }
    rewrite bit_at by lia. fold c k.
    destruct (c =? eb) eqn:Ece.
    + apply Z.eqb_eq in Ece.
      replace ((sb <? c) && (c <? eb)) with false by blia.
      replace (c =? sb) with false by blia.
      rewrite testbit_mod256, Z.lor_spec by lia.
      rewrite Hat by lia.
      replace ((sb + 1 <=? eb) && (eb <? eb)) with false by blia.
      replace (eb =? sb) with false by blia.
      unfold u8. change (2^8) with 256. rewrite testbit_mod256 by lia.
      rewrite testbit_low_mask by lia. rewrite Ece.
      rewrite orb_comm. f_equal. lia.
    + rewrite Hat by lia.
      destruct ((sb + 1 <=? c) && (c <? eb)) eqn:Emid.
      * replace ((sb <? c) && (c <? eb)) with true by blia.
        rewrite testbit_255 by lia. lia.
      * replace ((sb <? c) && (c <? eb)) with false by blia.
        destruct (c =? sb) eqn:Ecs.
        -- apply Z.eqb_eq in Ecs. rewrite Hstart.
           replace (start mod 8 =? 7) with false by blia.
           rewrite Ecs. rewrite orb_comm. f_equal. lia.
        -- done.
  - (* [start] is the last bit of its byte: the byte is filled *)
    eexists. split; [reflexivity|]. unfold or_mask. cbn [m_bit_size m_mmap].
    split; [done|]. split; [done|].
    unfold get. cbn [m_bit_size m_mmap]. replace (m_bit_size a <=? j) with false by blia.
    f_equal. rewrite land_bit by lia. fold c k.
    rewrite at_store by lia.
    rewrite len_fill_ff.
    replace (eb <? len (m_mmap a)) with true by blia.
    rewrite andb_true_r.
    assert (forall c', 0 <= c' ->
      at_ (mk (m_bit_size a) (fill_ff sb (Z.to_nat (eb - sb)) (m_mmap a))) c'
      = if (sb <=? c') && (c' <? eb) then 255 else at_ a c') as Hat.
    { intros c' Hc'. rewrite at_fill by lia.
      replace (sb + Z.of_nat (Z.to_nat (eb - sb))) with eb by lia.
      destruct ((sb <=? c') && (c' <? eb)); [done|]. by destruct a. }
    rewrite bit_at by lia. fold c k.
    destruct (c =? eb) eqn:Ece.
    + apply Z.eqb_eq in Ece.
      replace ((sb <? c) && (c <? eb)) with false by blia.
      replace (c =? sb) with false by blia.
      rewrite testbit_mod256, Z.lor_spec by lia.
      rewrite Hat by lia.
      replace ((sb <=? eb) && (eb <? eb)) with false by blia.
      unfold u8. change (2^8) with 256. rewrite testbit_mod256 by lia.
      rewrite testbit_low_mask by lia. rewrite Ece.
      rewrite orb_comm. f_equal. lia.
    + rewrite Hat by lia.
      destruct ((sb <=? c) && (c <? eb)) eqn:Emid.
      * rewrite testbit_255 by lia.
        destruct ((sb <? c) && (c <? eb)) eqn:Em2; [lia|].
        replace (c =? sb) with true by lia.
        replace (start mod 8 =? 7) with true by blia. lia.
      * replace ((sb <? c) && (c <? eb)) with false by blia.
        replace (c =? sb) with false by blia. done.
Qed.

Lemma set_range_bits_witness :
  let a := BitFileMappedArray.mk 16 [Byte.x00; Byte.x00] in
  exists a', set_range a 0 16 = Done a' /\
             get a' 0 = Done true /\ get a' 1 = Done false /\ get a' 15 = Done true.
Proof.
  assert (0 <= 0 < 16) as H1 by lia.
  assert (16 <= 16) as H2 by lia.
  assert (0 / 8 <> (16 - 1) / 8) as H4 by (vm_compute; congruence).
  destruct (set_range_bits (BitFileMappedArray.mk 16 [Byte.x00; Byte.x00]) 0 16 1 H1 H2)
    as (a' & Hs & _ & _ & Hg); [vm_compute; congruence | exact H4 | cbn; lia |].
  exists a'. split; [exact Hs|].
  vm_compute in Hs. injection Hs as <-. split; [|split]; vm_compute; reflexivity.
Defined.

End BitArray.

(** ** is_all_zero *)

Lemma le_Z_eqb_zero w : (le_Z w =? 0) = forallb (fun x => byte_to_Z x =? 0) w.
Proof.
  induction w as [|b r IH]; [done|]. cbn [le_Z forallb]. rewrite <- IH.
  pose proof (byte_to_Z_range b). pose proof (le_Z_nonneg r). blia.
Qed.

Lemma forallb_eq {A} (f g : A -> bool) l :
  (forall x, f x = g x) -> forallb f l = forallb g l.
Proof. intros H. induction l as [|x r IH]; [done|]. cbn. by rewrite H, IH. Qed.

Lemma words_zero (l : buf_t) n : forall s,
  forallb (fun j => le_Z (take 8 (drop (8 * j) l)) =? 0) (seq s n) =
  forallb (fun x => byte_to_Z x =? 0) (take (8 * n) (drop (8 * s) l)).
Proof.
  induction n as [|n IH]; intros s; [by rewrite Nat.mul_0_r|].
  cbn [seq forallb]. rewrite IH, le_Z_eqb_zero.
  replace (8 * S n)%nat with (8 + 8 * n)%nat by lia.
  rewrite <- take_take_drop, forallb_app, drop_drop.
  replace (8 * S s)%nat with (8 * s + 8)%nat by lia. done.
Qed.

(** X12. [is_all_zero] and [buf_t::is_all_zero] return true exactly when
    every byte of the buffer is zero, for every length (the empty buffer
    included) and wherever the buffer starts relative to an eight-byte
    boundary. *)
Theorem is_all_zero_correct (addr : Z) (data : buf_t) :
  AllZero.is_all_zero addr data = forallb (fun x => byte_to_Z x =? 0) data /\
  AllZero.buf_is_all_zero addr data = forallb (fun x => byte_to_Z x =? 0) data.
Proof.
  assert (AllZero.is_all_zero addr data = forallb (fun x => byte_to_Z x =? 0) data) as H.
  { unfold AllZero.is_all_zero. cbv zeta.
    pose proof (Z.mod_pos_bound addr 8 ltac:(lia)) as Hm.
    set (i := if negb (8 - addr mod 8 =? 8) && (8 - addr mod 8 <=? len data)
              then 8 - addr mod 8 else 0).
    assert (0 <= i <= len data) as Hi.
    { unfold i. destruct (negb _ && _) eqn:E; [|unfold len; lia].
      apply andb_prop in E as [_ E]. apply Z.leb_le in E. lia. }
    set (chunks := (len data - i) / 8).
    pose proof (Z.div_mod (len data - i) 8 ltac:(lia)) as Hd.
    pose proof (Z.mod_pos_bound (len data - i) 8 ltac:(lia)) as Hr.
    fold chunks in Hd.
    assert (0 <= chunks) by (apply Z.div_pos; lia).
    assert (forallb (fun j => rd_u64 (Z.to_nat i + 8 * j) data =? 0) (seq 0 (Z.to_nat chunks))
            = forallb (fun x => byte_to_Z x =? 0)
                (take (8 * Z.to_nat chunks) (drop (Z.to_nat i) data))) as ->.
    { pose proof (words_zero (drop (Z.to_nat i) data) (Z.to_nat chunks) 0) as W.
      rewrite Nat.mul_0_r, drop_0 in W. rewrite <- W.
      apply forallb_eq. intros j. unfold rd_u64, slice. by rewrite drop_drop. }
    rewrite <- !forallb_app.
    replace (Z.to_nat (i + chunks * 8)) with (Z.to_nat i + 8 * Z.to_nat chunks)%nat by lia.
    rewrite <- drop_drop, <- app_assoc, (take_drop (8 * Z.to_nat chunks)), take_drop.
    done. }
  split; [done|]. unfold AllZero.buf_is_all_zero.
  destruct (len data =? 0) eqn:E; [|done].
  destruct data; [done|]. apply Z.eqb_eq in E. unfold len in E. cbn [length] in E. lia.
Qed.

(** ** The engine: one block *)

Section EngineSteps.

Variable vcrc32 : Z -> buf_t -> Z.
Variable lz4 : buf_t -> buf_t -> Z -> Z -> Z * buf_t.
Variable zlib : buf_t -> buf_t -> bool * Z * buf_t.
Variable zstd : buf_t -> buf_t -> option (Z * Z * buf_t).
Variable md5 : buf_t -> Z.

Lemma step_skipped f f' w :
  f' = f \/ f' = bump_sparse f \/ f' = bump_OK f \/ f' = bump_MissHT f \/
  f' = bump_ErrDecomp f \/ f' = bump_ReadErr f ->
  block_step f f' w w BLOCK_SIZE.
Proof. intros H. left. done. Qed.

Lemma accept_fti d s : fti (accept d s) = bump_OK (fti s).
Proof. reflexivity. Qed.

Lemma emit_fti buf n s : fti (emit buf n s) = fti s.
Proof. reflexivity. Qed.

Lemma with_fti_fti g s : fti (with_fti g s) = g (fti s).
Proof. reflexivity. Qed.

Lemma with_lzBuf2_fti b s : fti (with_lzBuf2 b s) = fti s.
Proof. reflexivity. Qed.

Lemma with_lzBuf2_writer b s : writer (with_lzBuf2 b s) = writer s.
Proof. reflexivity. Qed.

Lemma verified_case_step n s d :
  block_step (fti s) (fti (fst (verified_case md5 n s d)))
             (writer s) (writer (fst (verified_case md5 n s d)))
             (snd (verified_case md5 n s d)).
Proof.
  unfold verified_case. case_match; unfold fst, snd.
  - right. split; [done|]. rewrite accept_writer, emit_writer, accept_fti, emit_fti.
    split; [eauto|by left].
  - apply step_skipped. rewrite with_fti_fti. tauto.
Qed.

Lemma lz4_case_step loc s dg :
  block_step (fti s) (fti (fst (lz4_case vcrc32 lz4 loc s dg)))
             (writer s) (writer (fst (lz4_case vcrc32 lz4 loc s dg)))
             (snd (lz4_case vcrc32 lz4 loc s dg)).
Proof.
  unfold lz4_case. destruct (lz_valid _).
  - destruct (lz4 _ _ _ _) as [res out].
    repeat case_match; unfold fst, snd; right; (split; [done|]);
      rewrite ?accept_writer, ?with_fti_writer, ?emit_writer,
              ?accept_fti, ?with_fti_fti, ?emit_fti, ?with_lzBuf2_writer, ?with_lzBuf2_fti;
      (split; [eauto|tauto]).
  - unfold fst, snd. apply step_skipped. rewrite with_fti_fti. tauto.
Qed.

Lemma zlib_case_step s d :
  block_step (fti s) (fti (fst (zlib_case zlib md5 s d)))
             (writer s) (writer (fst (zlib_case zlib md5 s d)))
             (snd (zlib_case zlib md5 s d)).
Proof.
  unfold zlib_case. destruct (zlib _ _) as [[ok n] out].
  destruct ok.
  - exact (verified_case_step n (with_lzBuf2 _ s) d).
  - unfold fst, snd. apply step_skipped. rewrite with_fti_fti. tauto.
Qed.

Lemma zstd_case_step s d :
  block_step (fti s) (fti (fst (zstd_case zstd md5 s d)))
             (writer s) (writer (fst (zstd_case zstd md5 s d)))
             (snd (zstd_case zstd md5 s d)).
Proof.
  unfold zstd_case. destruct (zstd _ _) as [[[ret n] out]|].
  - case_match.
    + unfold fst, snd. apply step_skipped. rewrite with_fti_fti. tauto.
    + exact (verified_case_step n (with_lzBuf2 _ (with_lzBuf2 _ s)) d).
  - unfold fst, snd. apply step_skipped. rewrite with_fti_fti. tauto.
Qed.

Lemma none_case_step s dg :
  block_step (fti s) (fti (fst (none_case s dg)))
             (writer s) (writer (fst (none_case s dg))) (snd (none_case s dg)).
Proof.
  unfold none_case, fst, snd. right. split; [done|].
  rewrite accept_writer, emit_writer, accept_fti, emit_fti. split; [eauto|by left].
Qed.

Lemma step_of_pair (x : state * Z) s' k f w :
  Done x = Done (s', k) ->
  block_step f (fti (fst x)) w (writer (fst x)) (snd x) ->
  block_step f (fti s') w (writer s') k.
Proof. intros H. injection H as ->. done. Qed.

Lemma unpack_step blk d loc s s' k :
  unpack vcrc32 lz4 zlib zstd md5 blk d loc s = Done (s', k) ->
  block_step (fti s) (fti s') (writer s) (writer s') k.
Proof.
  unfold unpack. intros H.
  repeat (case_match; try discriminate); (eapply step_of_pair; [exact H|]);
    first [ apply none_case_step | apply lz4_case_step | apply zlib_case_step
          | apply zstd_case_step
          | cbn [fst snd]; apply step_skipped; rewrite ?with_fti_fti; tauto ].
Qed.

Lemma load_step ctx rd loc s r :
  load ctx rd loc s = Done r ->
  match r with
  | inl x => writer x = writer s /\ (fti x = fti s \/ fti x = bump_ReadErr (fti s))
  | inr x => writer x = writer s /\ fti x = fti s
  end.
Proof.
  unfold load. intros H.
  repeat (case_match; try discriminate); simplify_eq; split; try reflexivity;
    first [ by left | by right ].
Qed.

(** The body of one block: the seek of lines 232-239 if there is one,
    then a step. *)
Lemma block_body_step ctx vFile blk s s' k :
  block_body vcrc32 lz4 zlib zstd md5 ctx vFile blk s = Done (s', k) ->
  exists w2,
    (w2 = writer s \/
     exists s1 s2, writer s1 = writer s /\ seek_to_target vFile blk s1 = Done s2 /\
                   w2 = writer s2) /\
    block_step (fti s) (fti s') w2 (writer s') k.
Proof.
  unfold block_body. intros H.
  destruct (vb_is_empty blk).
  { exists (writer s). split; [by left|]. simplify_eq. apply step_skipped. tauto. }
  set (found := match bds ctx !! vb_hash blk with Some _ => _ | None => _ end) in H.
  assert (forall d s1, found = Some (d, s1) -> writer s1 = writer s /\ fti s1 = fti s)
    as Hfound.
  { unfold found. intros d s1. repeat case_match; intros; by simplify_eq. }
  destruct found as [[d s1]|].
  2:{ exists (writer s). split; [by left|]. simplify_eq. apply step_skipped. tauto. }
  destruct (Hfound d s1 eq_refl) as [Hw1 Hf1].
  destruct (seek_to_target vFile blk s1) as [s2|] eqn:Hseek; [|discriminate].
  pose proof (seek_to_target_fti _ _ _ _ Hseek) as Hf2.
  exists (writer s2). split; [right; eauto|].
  rewrite <- Hf1, <- Hf2.
  destruct (locate ctx d) as [loc|].
  2:{ simplify_eq. apply step_skipped. tauto. }
  destruct (active_file ctx (l_device loc)) as [rd|]; [|discriminate].
  destruct (match writer s2 with None => _ | Some _ => _ end) as [hit s3] eqn:Hhit.
  assert (writer s3 = writer s2 /\ fti s3 = fti s2) as [Hw3 Hf3].
  { destruct (writer s2) eqn:Hw; [by simplify_eq|].
    destruct (LruSet.contains _ _). simplify_eq. done. }
  rewrite <- Hw3, <- Hf3.
  destruct (hit || _).
  { simplify_eq. apply step_skipped. tauto. }
  destruct (no_read ctx && _).
  { simplify_eq. apply step_skipped. tauto. }
  destruct (load ctx rd loc s3) as [[s4|s4]|] eqn:Hload; [| |discriminate].
  - apply load_step in Hload as [Hw4 Hf4]. simplify_eq. rewrite <- Hw4.
    apply step_skipped. destruct Hf4 as [->| ->]; tauto.
  - apply load_step in Hload as [Hw4 Hf4]. rewrite <- Hw4, <- Hf4.
    by eapply unpack_step.
Qed.

Lemma process_block_counter ctx vFile blk s s' :
  process_block vcrc32 lz4 zlib zstd md5 ctx vFile blk s = Done s' ->
  fti s' = fti s \/ fti s' = bump_sparse (fti s) \/ fti s' = bump_OK (fti s) \/
  fti s' = bump_MissHT (fti s) \/ fti s' = bump_ErrDecomp (fti s) \/
  fti s' = bump_ErrCRC (fti s) \/ fti s' = bump_ReadErr (fti s).
Proof.
  unfold process_block. intros H.
  destruct (block_body _ _ _ _ _ _ _ _ _) as [[s1 k]|] eqn:Hb; [|discriminate].
  apply block_body_step in Hb as (w2 & _ & Hstep).
  assert (fti s' = fti s1) as ->.
  { unfold skip, Writer.seek in H. repeat (case_match; try discriminate); by simplify_eq. }
  destruct Hstep as [(_ & _ & Hf)|(_ & _ & Hf)]; tauto.
Qed.

End EngineSteps.

(** X13. Every block the engine gets through bumps at most one of the
    counters of the file's statistics, by one: [sparse_blocks], [nOK],
    [nMissHT], [nErrDecomp], [nErrCRC] or [nReadErr].  A block is never
    counted twice, and none of the counters ever goes down. *)
Theorem block_counted_once (vcrc32 : Z -> buf_t -> Z)
    (lz4 : buf_t -> buf_t -> Z -> Z -> Z * buf_t)
    (zlib : buf_t -> buf_t -> bool * Z * buf_t)
    (zstd : buf_t -> buf_t -> option (Z * Z * buf_t)) (md5 : buf_t -> Z)
    (ctx : context) (vFile : CMeta.VFile) (blk : VBlockDesc) (s s' : state) :
  process_block vcrc32 lz4 zlib zstd md5 ctx vFile blk s = Done s' ->
  fti s' = fti s \/ fti s' = bump_sparse (fti s) \/ fti s' = bump_OK (fti s) \/
  fti s' = bump_MissHT (fti s) \/ fti s' = bump_ErrDecomp (fti s) \/
  fti s' = bump_ErrCRC (fti s) \/ fti s' = bump_ReadErr (fti s).
Proof. apply process_block_counter. Qed.

Lemma block_counted_once_witness :
  let s := start one_byte_file in
  fti after_lz4_block = fti s \/ fti after_lz4_block = bump_sparse (fti s) \/
  fti after_lz4_block = bump_OK (fti s) \/ fti after_lz4_block = bump_MissHT (fti s) \/
  fti after_lz4_block = bump_ErrDecomp (fti s) \/ fti after_lz4_block = bump_ErrCRC (fti s) \/
  fti after_lz4_block = bump_ReadErr (fti s).
Proof.
  apply (block_counted_once Crc.crc32c lz4_literals no_zlib no_zstd no_md5
           (ctx_lz4 lz4_block_good) one_byte_file lz4_vblock (start one_byte_file)).
  vm_compute. reflexivity.
Defined.

(** X14. A file that is not an increment or a patch is written strictly
    in order.  With a writer open, each block either has one buffer
    written at the writer's current position, or moves the position
    forward by exactly [BLOCK_SIZE] with a relative seek (a hole in the
    output); the engine never seeks to an absolute offset for such a
    file. *)
Theorem full_file_written_in_order (vcrc32 : Z -> buf_t -> Z)
    (lz4 : buf_t -> buf_t -> Z -> Z -> Z * buf_t)
    (zlib : buf_t -> buf_t -> bool * Z * buf_t)
    (zstd : buf_t -> buf_t -> option (Z * Z * buf_t)) (md5 : buf_t -> Z)
    (ctx : context) (vFile : CMeta.VFile) (blk : VBlockDesc) (s s' : state)
    (w : Writer.t) :
  CMeta.is_diff vFile = false -> writer s = Some w ->
  process_block vcrc32 lz4 zlib zstd md5 ctx vFile blk s = Done s' ->
  exists w', writer s' = Some w' /\
    ((Writer.events w' = Writer.events w ++ [Writer.Seek BLOCK_SIZE Writer.SEEK_CUR] /\
      Writer.pos w' = Writer.pos w + BLOCK_SIZE) \/
     (exists data, Writer.events w' = Writer.events w ++ [Writer.Write (Writer.pos w) data] /\
                   Writer.pos w' = Writer.pos w + len data)).
Proof.
  intros Hdiff Hw H. unfold process_block in H.
  destruct (block_body _ _ _ _ _ _ _ _ _) as [[s1 k]|] eqn:Hb; [|discriminate].
  apply block_body_step in Hb as (w2 & Hw2 & Hstep).
  assert (w2 = Some w) as ->.
  { destruct Hw2 as [->|(x1 & x2 & Hx1 & Hseek & ->)]; [done|].
    unfold seek_to_target in Hseek. rewrite Hdiff in Hseek. cbn [andb] in Hseek.
    assert (x2 = x1) as -> by (destruct (writer x1); congruence).
    congruence. }
  destruct Hstep as [(-> & Hw1 & _)|(-> & (data & Hw1) & _)].
  - unfold skip in H. change (0 <? BLOCK_SIZE) with true in H. cbv iota in H.
    rewrite Hw1 in H. unfold Writer.seek in H.
    destruct (Writer.pos w + BLOCK_SIZE <? 0); [discriminate|].
    injection H as <-. eexists. split; [reflexivity|]. left. done.
  - unfold skip in H. change (0 <? 0) with false in H. cbv iota in H.
    injection H as <-. rewrite Hw1. eexists. split; [reflexivity|]. right.
    exists data. done.
Qed.

Lemma full_file_written_in_order_witness :
  exists w', writer after_lz4_block = Some w' /\
    ((Writer.events w' = Writer.events empty_writer ++ [Writer.Seek BLOCK_SIZE Writer.SEEK_CUR] /\
      Writer.pos w' = Writer.pos empty_writer + BLOCK_SIZE) \/
     (exists data, Writer.events w' = Writer.events empty_writer ++
                                      [Writer.Write (Writer.pos empty_writer) data] /\
                   Writer.pos w' = Writer.pos empty_writer + len data)).
Proof.
  apply (full_file_written_in_order Crc.crc32c lz4_literals no_zlib no_zstd no_md5
           (ctx_lz4 lz4_block_good) one_byte_file lz4_vblock (start one_byte_file)).
  - reflexivity.
  - reflexivity.
  - vm_compute. reflexivity.
Defined.



(** ** AES256::decrypt: what comes out *)

Section Cbc.

Import Crypto.

Lemma xor_bytes_length a b : length (xor_bytes a b) = 16%nat.
Proof.
  unfold xor_bytes. rewrite length_zip_with, !resize_length. done.
Qed.

Lemma cbc_length c k : forall prev data, length (cbc c k prev data) = (16 * k)%nat.
Proof.
  induction k as [|k IH]; intros prev data; cbn [cbc]; [done|].
  rewrite length_app, xor_bytes_length, IH. lia.
Qed.

Lemma cbc_slice c k : forall prev data rest i,
  (i < k)%nat ->
  slice (16 * i) 16 (cbc c k prev data ++ rest) =
  xor_bytes (dec_block c (slice (16 * i) 16 data))
            (match i with O => prev | S j => slice (16 * j) 16 data end).
Proof.
  induction k as [|k IH]; intros prev data rest i Hi; [lia|].
  cbn [cbc]. destruct i as [|j].
  - unfold slice. rewrite Nat.mul_0_r, !drop_0, <- app_assoc.
    rewrite take_app_length' by (by rewrite xor_bytes_length). done.
  - unfold slice at 1. rewrite <- app_assoc.
    replace (16 * S j)%nat with (length (xor_bytes (dec_block c (take 16 data)) prev) + 16 * j)%nat
      by (rewrite xor_bytes_length; lia).
    rewrite drop_app_add. fold (slice (16 * j) 16 (cbc c k (take 16 data) (drop 16 data) ++ rest)).
    rewrite IH by lia. rewrite xor_bytes_length.
    unfold slice. rewrite drop_drop. f_equal.
    destruct j as [|j']; [by rewrite Nat.mul_0_r, drop_0|].
    rewrite drop_drop. do 2 f_equal. lia.
Qed.

Lemma decrypt_plain_shape c data n :
  0 < n <= len data -> n mod 16 = 0 ->
  let out := cbc c (Z.to_nat (n / 16)) (iv0_ c) data ++ drop (Z.to_nat n) data in
  decrypt c data false n = Done out /\ decrypt_raw c data n false = Done out /\
  length out = length data /\ drop (Z.to_nat n) out = drop (Z.to_nat n) data.
Proof.
  intros Hn Hm out. unfold decrypt, decrypt_raw.
  replace (n =? 0) with false by lia. cbv zeta iota. rewrite !land_15, Hm.
  replace (n =? 0) with false by lia.
  replace (len data <? n) with false by lia. cbn [negb Z.eqb].
  pose proof (Z.div_mod n 16 ltac:(lia)) as Hd.
  assert (length (cbc c (Z.to_nat (n / 16)) (iv0_ c) data) = Z.to_nat n) as Hl.
  { rewrite cbc_length. lia. }
  split; [done|]. split; [done|]. unfold out. split.
  - rewrite length_app, Hl, length_drop. unfold len in *. lia.
  - by rewrite drop_app_length'.
Qed.

(** X16. What [AES256::decrypt] leaves in the buffer when [n] bytes are
    decrypted ([n] a non-zero multiple of 16 within the buffer).  Without
    unpadding the buffer keeps its length, the bytes behind the first [n]
    are untouched, and the raw-pointer overload does the same.  With
    unpadding the vector is cut to [n - pad] bytes, where [pad] (between
    1 and 16) is the last of the [n] decrypted bytes: what is left is the
    beginning of the plaintext, and anything the vector held behind the
    first [n] bytes is dropped as well. *)
Theorem decrypt_output (c : AES256) (data : buf_t) (n : Z) :
  0 < n <= len data -> n mod 16 = 0 ->
  exists out,
    decrypt c data false n = Done out /\ decrypt_raw c data n false = Done out /\
    length out = length data /\ drop (Z.to_nat n) out = drop (Z.to_nat n) data /\
    (forall plain, decrypt c data true n = Done plain ->
       exists pad, pad = rd_u8 (Z.to_nat (n - 1)) out /\ 1 <= pad <= 16 /\
                   len plain = n - pad /\ plain = take (Z.to_nat (n - pad)) out).
Proof.
  intros Hn Hm.
  destruct (decrypt_plain_shape c data n Hn Hm) as (H1 & H2 & H3 & H4).
  eexists. split; [exact H1|]. split; [exact H2|]. split; [exact H3|]. split; [exact H4|].
  intros plain. unfold decrypt.
  replace (n =? 0) with false by lia. cbv zeta iota. rewrite !land_15, Hm.
  replace (n =? 0) with false by lia.
  replace (len data <? n) with false by lia. cbn [negb Z.eqb].
  destruct (pkcs7_unpad_len _ n) as [pad|] eqn:Hp; [|discriminate].
  intros [= <-]. apply pkcs7_unpad_len_spec in Hp as (Hpad & Hr & Hle & _); [|lia].
  exists pad. split; [done|]. split; [done|].
  unfold resize. rewrite H3.
  replace (Z.to_nat (n - pad) - length data)%nat with 0%nat by (unfold len in *; lia).
  cbn [replicate]. rewrite app_nil_r. split; [|done].
  unfold len. rewrite length_take, H3. unfold len in *. lia.
Qed.

Lemma decrypt_output_witness :
  exists out, decrypt plain_cipher (replicate 16 Byte.x10) false 16 = Done out /\
              decrypt plain_cipher (replicate 16 Byte.x10) true 16 = Done [].
Proof.
  destruct (decrypt_output plain_cipher (replicate 16 Byte.x10) 16) as (out & H & _);
    [vm_compute; split; congruence | reflexivity |].
  exists out. split; [exact H | vm_compute; reflexivity].
Defined.

(** X17. [decrypt] is CBC decryption done in place.  Block [i] of the
    output is the block cipher's decryption of block [i] of the input,
    xor-ed with block [i-1] of the input (the IV for the first block):
    the loop keeps the ciphertext of the previous block before it
    overwrites it.  So a plaintext block depends on two ciphertext blocks
    only. *)
Theorem decrypt_is_cbc (c : AES256) (data : buf_t) (n : Z) (i : nat) :
  0 < n <= len data -> n mod 16 = 0 -> Z.of_nat i < n / 16 ->
  exists out,
    decrypt c data false n = Done out /\
    slice (16 * i) 16 out =
    xor_bytes (dec_block c (slice (16 * i) 16 data))
              (match i with O => iv0_ c | S j => slice (16 * j) 16 data end).
Proof.
  intros Hn Hm Hi.
  destruct (decrypt_plain_shape c data n Hn Hm) as (H1 & _).
  eexists. split; [exact H1|]. apply cbc_slice. lia.
Qed.

Lemma decrypt_is_cbc_witness :
  exists out,
    decrypt plain_cipher (replicate 16 Byte.x01 ++ replicate 16 Byte.x03) false 32 = Done out /\
    slice 16 16 out = replicate 16 Byte.x02.
Proof.
  destruct (decrypt_is_cbc plain_cipher (replicate 16 Byte.x01 ++ replicate 16 Byte.x03) 32 1)
    as (out & H & Hs); [vm_compute; split; congruence | reflexivity | vm_compute; reflexivity |].
  exists out. split; [exact H|]. etransitivity; [exact Hs|]. vm_compute. reflexivity.
Defined.

End Cbc.

(** ** The external hash table: lookup *)

(** On a sorted table the binary search stops at the partition point of
    the range it is given. *)
Lemma lower_bound_loop_spec (tbl : list Extract.HashEntry) needle :
  HashTable.sorted tbl ->
  forall fuel first len,
    (len <= fuel)%nat -> (first + len <= length tbl)%nat ->
    (forall j a, (j < first)%nat -> tbl !! j = Some a -> Extract.he_hash a < needle) ->
    (forall j a, (first + len <= j)%nat -> tbl !! j = Some a ->
                 needle <= Extract.he_hash a) ->
    (forall j a, (j < HashTable.lower_bound_loop fuel tbl needle first len)%nat ->
                 tbl !! j = Some a -> Extract.he_hash a < needle) /\
    (forall j a, (HashTable.lower_bound_loop fuel tbl needle first len <= j)%nat ->
                 tbl !! j = Some a -> needle <= Extract.he_hash a).
Proof.
  intros Hs. induction fuel as [|f IH]; intros first len Hf Hlen Hlo Hhi.
  - assert (len = O) by lia. subst len. cbn.
    split; [done|]. intros j a Hj. apply Hhi. lia.
  - cbn [HashTable.lower_bound_loop].
    destruct (Nat.ltb_spec 0 len) as [Hpos|H0].
    + pose proof (Nat.lt_div2 len Hpos) as Hhalf.
      remember (Nat.div2 len) as half eqn:Ehalf. clear Ehalf.
      destruct (lookup_lt_is_Some_2 tbl (first + half)) as [e He]; [lia|].
      rewrite He.
      destruct (Z.ltb_spec (Extract.he_hash e) needle) as [Hlt|Hge].
      * apply IH; [lia|lia| |].
        -- intros j a Hj Ha.
           assert (Extract.he_hash a <= Extract.he_hash e)
             by (apply (Hs j (first + half)%nat); [lia|done|done]).
           lia.
        -- intros j a Hj. apply Hhi. lia.
      * apply IH; [lia|lia|done|].
        intros j a Hj Ha.
        assert (Extract.he_hash e <= Extract.he_hash a)
          by (apply (Hs (first + half)%nat j); [lia|done|done]).
        lia.
    + assert (len = O) by lia. subst len.
      split; [done|]. intros j a Hj. apply Hhi. lia.
Qed.

Lemma lower_bound_sorted (tbl : list Extract.HashEntry) needle :
  HashTable.sorted tbl ->
  (forall j a, (j < HashTable.lower_bound tbl needle)%nat -> tbl !! j = Some a ->
               Extract.he_hash a < needle) /\
  (forall j a, (HashTable.lower_bound tbl needle <= j)%nat -> tbl !! j = Some a ->
               needle <= Extract.he_hash a).
Proof.
  intros Hs.
  apply (lower_bound_loop_spec tbl needle Hs (length tbl) 0 (length tbl));
    [lia | lia | intros j a Hj; lia |].
  intros j a Hj Ha. apply lookup_lt_Some in Ha. lia.
Qed.

(** X18 (HashTable::findHash).  Whatever the lookup returns is an entry
    of the table with the hash asked for.  On a table sorted by hash it
    is the first such entry in table order, all entries before it having
    smaller hashes, and the lookup finds an entry whenever the table has
    one with that hash. *)
Theorem findHash_sorted (tbl : list Extract.HashEntry) (needle : Z) :
  (forall e, HashTable.findHash tbl needle = Some e ->
     e ∈ tbl /\ Extract.he_hash e = needle) /\
  (HashTable.sorted tbl ->
     (forall e, HashTable.findHash tbl needle = Some e ->
        exists i, tbl !! i = Some e /\
                  forall j a, (j < i)%nat -> tbl !! j = Some a ->
                              Extract.he_hash a < needle) /\
     (HashTable.findHash tbl needle = None ->
        forall e, e ∈ tbl -> Extract.he_hash e <> needle)).
Proof.
  unfold HashTable.findHash. split; [|intros Hs; split].
  - intros e He.
    destruct (tbl !! HashTable.lower_bound tbl needle) as [x|] eqn:Ex; [|done].
    destruct (Z.eqb_spec (Extract.he_hash x) needle) as [Heq|]; [|done].
    inversion He; subst e. split; [|done]. by eapply list_elem_of_lookup_2.
  - intros e He.
    destruct (tbl !! HashTable.lower_bound tbl needle) as [x|] eqn:Ex; [|done].
    destruct (Z.eqb_spec (Extract.he_hash x) needle) as [Heq|]; [|done].
    inversion He; subst e. exists (HashTable.lower_bound tbl needle).
    split; [done|]. apply (lower_bound_sorted tbl needle Hs).
  - intros Hn e [k Hk]%list_elem_of_lookup_1 Heq.
    destruct (lower_bound_sorted tbl needle Hs) as [Hlo Hhi].
    destruct (Nat.lt_ge_cases k (HashTable.lower_bound tbl needle)) as [Hlt|Hge].
    + pose proof (Hlo k e Hlt Hk). lia.
    + destruct (lookup_lt_is_Some_2 tbl (HashTable.lower_bound tbl needle)) as [x Hx].
      { apply lookup_lt_Some in Hk. lia. }
      rewrite Hx in Hn.
      pose proof (Hhi _ x (Nat.le_refl _) Hx).
      pose proof (Hs _ _ _ _ Hge Hx Hk).
      destruct (Z.eqb_spec (Extract.he_hash x) needle); [done|lia].
Qed.

Lemma findHash_sorted_witness :
  HashTable.sorted HashTable.sorted_table /\
  HashTable.findHash HashTable.sorted_table 3 = Some (HashTable.entry_of 3).
Proof.
  assert (HashTable.sorted HashTable.sorted_table) as Hs.
  { intros i j a b Hij Ha Hb.
    destruct i as [|[|[|i]]]; destruct j as [|[|[|j]]]; cbn in Ha, Hb;
      simplify_eq; cbn; lia. }
  split; [exact Hs|].
  destruct (HashTable.findHash HashTable.sorted_table 3) as [e|] eqn:E.
  - destruct (proj1 (findHash_sorted HashTable.sorted_table 3) e E) as [Hin Hh].
    f_equal. unfold HashTable.sorted_table in Hin.
    apply elem_of_cons in Hin as [->|Hin]; [cbn in Hh; lia|].
    apply elem_of_cons in Hin as [->|Hin]; [done|].
    apply list_elem_of_singleton in Hin as ->. cbn in Hh. lia.
  - exfalso.
    apply (proj2 (proj2 (findHash_sorted HashTable.sorted_table 3) Hs) E
             (HashTable.entry_of 3)); [|reflexivity].
    unfold HashTable.sorted_table. set_solver.
Defined.

(** On a table that is not sorted the search can miss an entry and can
    return one that is not the first with its hash: the entry 3 of
    [5; 1; 3] is found behind the larger 5, the entry 5 is not found. *)
Example findHash_unsorted :
  HashTable.findHash HashTable.unsorted_table 3 = Some (HashTable.entry_of 3) /\
  HashTable.findHash HashTable.unsorted_table 5 = None.
Proof. split; reflexivity. Qed.

(** ** Output file names *)

Section Sanitize.
Import Fname.

Lemma sanitize_loop_acc fuel : forall rest acc,
  sanitize_loop fuel rest acc = acc ++ sanitize_loop fuel rest [].
Proof.
  induction fuel as [|f IH]; intros [|c r] acc; cbn [sanitize_loop];
    rewrite ?app_nil_r; try done.
  cbv zeta.
  destruct (forbidden c); [|destruct (is_run_char c)];
    match goal with
    | |- sanitize_loop f ?r (acc ++ ?o) = acc ++ sanitize_loop f ?r ([] ++ ?o) =>
        rewrite (IH r (acc ++ o)), (IH r ([] ++ o))
    end; by rewrite app_assoc.
Qed.

Lemma run_length_le c r : (run_length c r <= length r)%nat.
Proof.
  induction r as [|x r IH]; cbn; [lia|]. destruct (Ascii.eqb x c); lia.
Qed.

Lemma run_length_head c r : run_length c (c :: r) = S (run_length c r).
Proof. cbn. by rewrite Ascii.eqb_refl. Qed.

Lemma run_length_stop c r : head (drop (run_length c r) r) <> Some c.
Proof.
  induction r as [|x r IH]; cbn; [done|].
  destruct (Ascii.eqb_spec x c) as [->|Hne]; cbn; [done|congruence].
Qed.

Lemma sanitize_fuel f1 : forall f2 rest,
  (length rest <= f1)%nat -> (length rest <= f2)%nat ->
  sanitize_loop f1 rest [] = sanitize_loop f2 rest [].
Proof.
  induction f1 as [|f1 IH]; intros f2 [|c r] H1 H2; cbn [length] in *;
    try (destruct f2; done); try lia.
  destruct f2 as [|f2]; [lia|].
  cbn [sanitize_loop]. rewrite run_length_head. cbn [drop].
  pose proof (run_length_le c r).
  destruct (forbidden c); [|destruct (is_run_char c)];
    rewrite sanitize_loop_acc, (sanitize_loop_acc f2); f_equal; apply IH;
    rewrite ?length_drop; lia.
Qed.

Lemma sanitize_nil : sanitize_fname [] = [].
Proof. done. Qed.

Lemma sanitize_cons c r :
  sanitize_fname (c :: r) =
  if forbidden c then "_"%char :: sanitize_fname r
  else if is_run_char c then
    run_out c (S (run_length c r)) ++ sanitize_fname (drop (run_length c r) r)
  else c :: sanitize_fname r.
Proof.
  unfold sanitize_fname. cbn [length sanitize_loop].
  rewrite run_length_head. cbn [drop]. fold (run_out c (S (run_length c r))).
  pose proof (run_length_le c r).
  destruct (forbidden c); [|destruct (is_run_char c)];
    rewrite sanitize_loop_acc; cbn [app]; f_equal;
    try (apply sanitize_fuel; rewrite ?length_drop; lia).
Qed.

Lemma sanitize_ind (P : list ascii -> list ascii -> Prop) :
  P [] [] ->
  (forall c r, forbidden c = true -> P r (sanitize_fname r) ->
               P (c :: r) ("_"%char :: sanitize_fname r)) ->
  (forall c r, forbidden c = false -> is_run_char c = true ->
               P (drop (run_length c r) r) (sanitize_fname (drop (run_length c r) r)) ->
               P (c :: r) (run_out c (S (run_length c r)) ++
                           sanitize_fname (drop (run_length c r) r))) ->
  (forall c r, forbidden c = false -> is_run_char c = false ->
               P r (sanitize_fname r) -> P (c :: r) (c :: sanitize_fname r)) ->
  forall l, P l (sanitize_fname l).
Proof.
  intros H0 H1 H2 H3 l.
  remember (length l) as n eqn:Hn.
  revert l Hn. induction n as [n IH] using lt_wf_ind. intros [|c r] Hn.
  - exact H0.
  - rewrite sanitize_cons. cbn [length] in Hn.
    pose proof (run_length_le c r).
    destruct (forbidden c) eqn:Ef; [|destruct (is_run_char c) eqn:Er].
    + apply H1; [done|]. apply (IH (length r)); [lia|done].
    + apply H2; [done..|].
      apply (IH (length (drop (run_length c r) r))); [|done].
      rewrite length_drop. lia.
    + apply H3; [done..|]. apply (IH (length r)); [lia|done].
Qed.

Lemma underscore_plain : forbidden "_" = false /\ is_run_char "_" = false.
Proof. by vm_compute. Qed.

Lemma run_out_elem c n x : x ∈ run_out c n -> x = c \/ x = "_"%char.
Proof.
  unfold run_out. destruct (2 <=? n)%nat; [destruct (Ascii.eqb c ".")|].
  - intros ?%elem_of_replicate. tauto.
  - intros ?%list_elem_of_singleton. tauto.
  - intros ?%list_elem_of_singleton. tauto.
Qed.

Lemma run_out_length c n : (length (run_out c (S n)) <= S n)%nat.
Proof.
  unfold run_out. destruct (2 <=? S n)%nat; [destruct (Ascii.eqb c ".")|];
    rewrite ?length_replicate; cbn; lia.
Qed.

Lemma sanitize_allowed l : Forall (fun c => forbidden c = false) (sanitize_fname l).
Proof.
  apply (sanitize_ind (fun _ out => Forall (fun c => forbidden c = false) out)).
  - constructor.
  - intros c r _ IH. constructor; [apply underscore_plain|done].
  - intros c r Hf _ IH. apply Forall_app. split; [|done].
    apply Forall_forall. intros x [->| ->]%run_out_elem; [done|apply underscore_plain].
  - intros c r Hf _ IH. by constructor.
Qed.

Lemma sanitize_length l : (length (sanitize_fname l) <= length l)%nat.
Proof.
  apply (sanitize_ind (fun l out => (length out <= length l)%nat)); cbn [length].
  - lia.
  - intros; lia.
  - intros c r _ _ IH. rewrite length_app, length_drop in *.
    pose proof (run_out_length c (run_length c r)).
    pose proof (run_length_le c r). lia.
  - intros; lia.
Qed.

Lemma sanitize_head l x :
  head (sanitize_fname l) = Some x -> x = "_"%char \/ head l = Some x.
Proof.
  destruct l as [|c r]; [done|]. rewrite sanitize_cons.
  destruct (forbidden c); [|destruct (is_run_char c)]; cbn.
  - intros [= <-]. by left.
  - unfold run_out. destruct (2 <=? _)%nat; [destruct (Ascii.eqb c ".")|]; cbn.
    + intros [= <-]. by left.
    + intros [= <-]. by right.
    + intros [= <-]. by right.
  - intros [= <-]. by right.
Qed.

Lemma has_pair_cons c x l :
  has_pair c (x :: l) <-> (x = c /\ head l = Some c) \/ has_pair c l.
Proof.
  split.
  - intros ([|y l1] & l2 & H); cbn in H.
    + inversion H; subst. by left.
    + inversion H; subst. right. by exists l1, l2.
  - intros [[-> Hh]|(l1 & l2 & ->)].
    + destruct l as [|y l]; [done|]. inversion Hh; subst. by exists [], l.
    + by exists (x :: l1), l2.
Qed.

Lemma has_pair_replicate c u n l :
  c <> u -> has_pair c (replicate n u ++ l) -> has_pair c l.
Proof.
  intros Hne. induction n as [|n IH]; cbn; [done|].
  intros [[-> _]|H]%has_pair_cons; [done|auto].
Qed.

Lemma sanitize_no_pair l c : is_run_char c = true -> ~ has_pair c (sanitize_fname l).
Proof.
  intros Hc.
  assert (c <> "_"%char) as Hu.
  { intros ->. by destruct underscore_plain as [_ ?]; congruence. }
  apply (sanitize_ind (fun _ out => ~ has_pair c out)).
  - intros ([|? ?] & ? & ?); done.
  - intros x r _ IH [[Heq _]|H]%has_pair_cons; [congruence|done].
  - intros x r _ Hx IH H. unfold run_out in H.
    assert (~ has_pair c ([x] ++ sanitize_fname (drop (run_length x r) r))) as Hone.
    { cbn. intros [[-> Hh]|H']%has_pair_cons; [|done].
      apply sanitize_head in Hh as [->|Hh]; [done|].
      by apply run_length_stop in Hh. }
    destruct (2 <=? _)%nat; [destruct (Ascii.eqb x ".")|]; try done.
    by apply has_pair_replicate in H.
  - intros x r _ Hx IH [[-> _]|H]%has_pair_cons; [congruence|done].
Qed.

Lemma sanitize_fixed l :
  Forall (fun c => forbidden c = false) l ->
  (forall c, is_run_char c = true -> ~ has_pair c l) ->
  sanitize_fname l = l.
Proof.
  induction l as [|c r IH]; intros Hf Hp; [done|].
  rewrite sanitize_cons. inversion Hf as [|? ? Hc Hr]; subst. rewrite Hc.
  assert (sanitize_fname r = r) as Er.
  { apply IH; [done|]. intros x Hx H. apply (Hp x Hx), has_pair_cons. by right. }
  destruct (is_run_char c) eqn:Ec; [|by rewrite Er].
  assert (run_length c r = O) as ->.
  { destruct r as [|y r']; [done|]. cbn.
    destruct (Ascii.eqb_spec y c) as [->|]; [|done].
    exfalso. apply (Hp c Ec). by exists [], r'. }
  unfold run_out. cbn [Nat.leb app]. by rewrite drop_0, Er.
Qed.

(** X19 (sanitize_fname).  The sanitized name holds no forbidden
    character (no colon, star, question mark, double quote, angle
    bracket or bar, nothing below the space or from 127 on), never has two dots, two slashes or two backslashes in a row,
    is not longer than the name given, and sanitizing it again changes
    nothing. *)
Theorem sanitize_fname_safe (fname : list ascii) :
  Forall (fun c => forbidden c = false) (sanitize_fname fname) /\
  (forall c, is_run_char c = true -> ~ has_pair c (sanitize_fname fname)) /\
  (length (sanitize_fname fname) <= length fname)%nat /\
  sanitize_fname (sanitize_fname fname) = sanitize_fname fname.
Proof.
  split; [apply sanitize_allowed|].
  split; [intros c Hc; by apply sanitize_no_pair|].
  split; [apply sanitize_length|].
  apply sanitize_fixed; [apply sanitize_allowed|].
  intros c Hc. by apply sanitize_no_pair.
Qed.

(** X20 (sanitize_fname).  A name that has no forbidden character and no
    two dots, slashes or backslashes in a row comes back as it is. *)
Theorem sanitize_fname_keeps_clean (fname : list ascii) :
  Forall (fun c => forbidden c = false) fname ->
  (forall c, is_run_char c = true -> ~ has_pair c fname) ->
  sanitize_fname fname = fname.
Proof. exact (sanitize_fixed fname). Qed.

Lemma sanitize_fname_keeps_clean_witness :
  sanitize_fname (list_ascii_of_string "/a/file.md") =
  list_ascii_of_string "/a/file.md".
Proof.
  apply sanitize_fname_keeps_clean.
  - repeat (constructor; [reflexivity|]). constructor.
  - intros c Hc H. cbn in H.
    repeat (apply has_pair_cons in H as [[<- Hh]|H]; [cbn in Hh; congruence|]).
    destruct H as ([|? ?] & ? & ?); done.
Defined.

End Sanitize.

(** ** Digests as text *)

Section DigestText.
Import Digest.

Lemma hex2_round (b : byte) :
  from_hex (hex_digit (byte_to_Z b / 16)) = Done (byte_to_Z b / 16) /\
  from_hex (hex_digit (byte_to_Z b mod 16)) = Done (byte_to_Z b mod 16) /\
  byte_of_Z (Z.lor (Z.shiftl (byte_to_Z b / 16) 4) (byte_to_Z b mod 16)) = b.
Proof. destruct b; vm_compute; done. Qed.

Lemma hex_pad_le_Z cs :
  hex_pad (2 * length cs) (le_Z cs) = concat (map hex2 (rev cs)).
Proof.
  induction cs as [|c r IH]; [done|].
  replace (2 * length (c :: r))%nat with (S (S (2 * length r))) by (cbn; lia).
  cbn [hex_pad le_Z rev]. rewrite map_app, concat_app. cbn [map concat].
  rewrite app_nil_r. unfold hex2 at 2.
  pose proof (byte_to_Z_range c) as Hc.
  replace ((byte_to_Z c + 256 * le_Z r) / 16 / 16) with (le_Z r) by (Z.div_mod_to_equations; lia).
  replace ((byte_to_Z c + 256 * le_Z r) / 16 mod 16) with (byte_to_Z c / 16) by (Z.div_mod_to_equations; lia).
  replace ((byte_to_Z c + 256 * le_Z r) mod 16) with (byte_to_Z c mod 16) by (Z.div_mod_to_equations; lia).
  rewrite IH, <- app_assoc. done.
Qed.

Lemma le_bytes_length n : forall z, length (le_bytes n z) = n.
Proof. induction n as [|n IH]; intros z; cbn; [done|by rewrite IH]. Qed.

Lemma hex_pad_bswap64 x : hex_pad 16 (bswap64 x) = concat (map hex2 (le_bytes 8 x)).
Proof.
  unfold bswap64.
  change 16%nat with (2 * 8)%nat.
  rewrite <- (le_bytes_length 8 x) at 1.
  rewrite <- (length_rev (le_bytes 8 x)), hex_pad_le_Z, rev_involutive. done.
Qed.

Lemma le_Z_le_bytes n : forall z, le_Z (le_bytes n z) = z mod 256 ^ Z.of_nat n.
Proof.
  induction n as [|n IH]; intros z.
  - cbn. by rewrite Z.mod_1_r.
  - cbn [le_bytes le_Z]. rewrite IH, byte_to_of.
    rewrite Nat2Z.inj_succ, Z.pow_succ_r by lia.
    rewrite Z.rem_mul_r by (try apply Z.pow_nonzero; lia). done.
Qed.

Lemma le_Z_app a b : le_Z (a ++ b) = le_Z a + 256 ^ Z.of_nat (length a) * le_Z b.
Proof.
  induction a as [|x a IH]; [cbn [app le_Z length]; lia|].
  cbn [app le_Z length]. rewrite IH, Nat2Z.inj_succ, Z.pow_succ_r by lia. lia.
Qed.

Lemma parse_bytes (b0 b1 b2 b3 b4 b5 b6 b7 b8 b9 b10 b11 b12 b13 b14 b15 : byte)
    (rest : list ascii) :
  let bs := [b0; b1; b2; b3; b4; b5; b6; b7; b8; b9; b10; b11; b12; b13; b14; b15] in
  parse (concat (map hex2 bs) ++ rest) = Done (le_Z bs).
Proof.
  intros bs. unfold parse.
  replace (Nat.min _ 16) with 16%nat.
  2:{ symmetry. apply Nat.min_r. rewrite length_app. subst bs. cbn [map concat length app hex2].
      apply (Nat.div_le_lower_bound _ 2 16); lia. }
  subst bs. cbn [map concat app hex2 seq parse_loop char_at nth Nat.mul Nat.add].
  repeat (rewrite (proj1 (hex2_round _)), (proj1 (proj2 (hex2_round _))),
                  (proj2 (proj2 (hex2_round _)))).
  reflexivity.
Qed.

(** X21 (digest_t::parse, fmt::formatter<digest_t>::format).  Parsing
    the text a digest is printed as gives the digest back, whatever
    follows the thirty-two digits. *)
Theorem digest_format_parse (d : Z) (rest : list ascii) :
  0 <= d < 2 ^ 128 ->
  parse (format d ++ rest) = Done d.
Proof.
  intros Hd. unfold format. cbv zeta.
  rewrite !hex_pad_bswap64, <- concat_app, <- map_app.
  cbn [le_bytes app]. rewrite parse_bytes. f_equal.
  change (le_Z (le_bytes 8 (u64 d) ++ le_bytes 8 (u64 (Z.shiftr d 64))) = d).
  rewrite le_Z_app, !le_Z_le_bytes, le_bytes_length.
  unfold u64. rewrite Z.shiftr_div_pow2 by lia.
  change (256 ^ Z.of_nat 8) with (2 ^ 64).
  rewrite !Zmod_mod.
  rewrite (Z.mod_small (d / 2 ^ 64)).
  - pose proof (Z.div_mod d (2 ^ 64)). lia.
  - split; [apply Z.div_pos; lia|apply Z.div_lt_upper_bound; lia].
Qed.

Lemma digest_format_parse_witness :
  format 0x2c3e15390f43270cd872560a361bd8b6 =
    list_ascii_of_string "b6d81b360a5672d80c27430f39153e2c" /\
  parse (format 0x2c3e15390f43270cd872560a361bd8b6 ++ []) =
    Done 0x2c3e15390f43270cd872560a361bd8b6.
Proof.
  split; [vm_compute; reflexivity|].
  apply digest_format_parse. lia.
Defined.

End DigestText.

(** ** Walking over all pages *)

Section PageScan.
Import CMetaPages.

(** The page [q] of [bank]: the bytes at [(q+1)*PAGE_SIZE]. *)
Local Abbreviation page_of bank q :=
  (slice (Z.to_nat ((q + 1) * PAGE_SIZE)) (Z.to_nat PAGE_SIZE) bank).

Lemma bank_loop_spec (bid : Z) (bank : buf_t) :
  len bank < 2 ^ 43 ->
  forall fuel p,
    0 <= p <= Z.max (len bank / PAGE_SIZE - 1) 0 ->
    Z.max (len bank / PAGE_SIZE - 1) 0 - p < Z.of_nat fuel ->
    exists vs, bank_loop fuel bid bank p = Some vs /\
      forall x, x ∈ vs <->
        exists q, p <= q /\ (q + 2) * PAGE_SIZE <= len bank /\
                  x = (mkPPI q (s32 bid), page_of bank q) /\
                  all_eq Byte.x00 (page_of bank q) = false.
Proof.
  intros Hlen. unfold PAGE_SIZE in *.
  assert (0 <= len bank) as H0 by (unfold len; lia).
  induction fuel as [|f IH]; intros p Hp Hf; [lia|].
  cbn [bank_loop]. unfold PAGE_SIZE.
  destruct (Z.ltb_spec (len bank / 4096 - 1) 0) as [Hneg|Hpos].
  - (* not even one page *)
    assert (p = 0) as -> by lia.
    assert (len bank / 4096 - 1 = -1) as Hm by (Z.div_mod_to_equations; lia).
    rewrite Hm. change (0 <? u64 (-1)) with true. cbn [negb].
    change (u64 (u32 (0 + 1) * 4096)) with 4096.
    destruct (Z.leb_spec (len bank) 4096) as [_|Hgt];
      [|exfalso; Z.div_mod_to_equations; lia].
    exists []. split; [done|]. intros x. split; [by intros ?%elem_of_nil|].
    intros (q & ? & ? & _). exfalso. Z.div_mod_to_equations; lia.
  - rewrite (u64_small (len bank / 4096 - 1)) by (Z.div_mod_to_equations; lia).
    destruct (Z.ltb_spec p (len bank / 4096 - 1)) as [Hlt|Hge]; cbn [negb].
    + assert (u32 (p + 1) = p + 1) as Hu
        by (apply u32_small; Z.div_mod_to_equations; lia).
      rewrite Hu.
      rewrite (u64_small ((p + 1) * 4096)) by (Z.div_mod_to_equations; lia).
      destruct (Z.leb_spec (len bank) ((p + 1) * 4096)) as [Hbad|_];
        [exfalso; Z.div_mod_to_equations; lia|].
      destruct (IH (p + 1)) as (vs & Hvs & Hin); [lia|lia|].
      rewrite Hvs.
      assert (s32 p = p) as Hs.
      { unfold s32, signed. rewrite Z.mod_small by (Z.div_mod_to_equations; lia).
        destruct (Z.ltb_spec p (2 ^ (32 - 1))); [done|].
        exfalso. Z.div_mod_to_equations; lia. }
      rewrite Hs.
      destruct (all_eq Byte.x00 (slice (Z.to_nat ((p + 1) * 4096)) (Z.to_nat 4096) bank)) eqn:Ez.
      * exists vs. split; [done|]. intros x. rewrite Hin. split.
        -- intros (q & ? & ? & ? & ?). exists q. repeat split; try done. lia.
        -- intros (q & ? & ? & ? & Hq). exists q. repeat split; try done.
           destruct (Z.eq_dec q p) as [->|]; [congruence|lia].
      * eexists. split; [done|].
        intros x. rewrite elem_of_cons, Hin. split.
        -- intros [->|(q & ? & ? & ? & ?)].
           ++ exists p. repeat split; try done; try lia.
              Z.div_mod_to_equations; lia.
           ++ exists q. repeat split; try done. lia.
        -- intros (q & ? & ? & ? & Hq).
           destruct (Z.eq_dec q p) as [->|]; [by left|].
           right. exists q. repeat split; try done. lia.
    + exists []. split; [done|]. intros x. split; [by intros ?%elem_of_nil|].
      intros (q & ? & ? & _). exfalso. Z.div_mod_to_equations; lia.
Qed.

Lemma banks_loop_spec : forall (banks : list buf_t) (bid : Z),
  Forall (fun bank => len bank < 2 ^ 43) banks ->
  exists vs, banks_loop bid banks = Some vs /\
    forall x, x ∈ vs <->
      exists (k : nat) bank q, banks !! k = Some bank /\
        0 <= q /\ (q + 2) * PAGE_SIZE <= len bank /\
        x = (mkPPI q (s32 (bid + Z.of_nat k)), page_of bank q) /\
        all_eq Byte.x00 (page_of bank q) = false.
Proof.
  induction banks as [|bank r IH]; intros bid Hall.
  - exists []. split; [done|]. intros x. split; [by intros ?%elem_of_nil|].
    by intros (k & ? & ? & ? & _).
  - inversion Hall as [|? ? Hb Hr]; subst.
    cbn [banks_loop].
    destruct (bank_loop_spec bid bank Hb (S (length bank)) 0) as (a & Ha & Hina).
    { unfold PAGE_SIZE. assert (0 <= len bank) by (unfold len; lia). lia. }
    { unfold PAGE_SIZE, len. Z.div_mod_to_equations; lia. }
    destruct (IH (bid + 1) Hr) as (b & Hb' & Hinb).
    rewrite Ha, Hb'. exists (a ++ b). split; [done|].
    intros x. rewrite elem_of_app, Hina, Hinb. split.
    + intros [(q & ? & ? & ? & ?)|(k & bk & q & ? & ? & ? & ? & ?)].
      * exists O, bank, q. rewrite Z.add_0_r. done.
      * exists (S k), bk, q. replace (bid + Z.of_nat (S k)) with (bid + 1 + Z.of_nat k) by lia.
        done.
    + intros ([|k] & bk & q & Hk & ? & ? & Hx & ?).
      * cbn in Hk. inversion Hk; subst bk. left. exists q.
        rewrite Z.add_0_r in Hx. done.
      * right. exists k, bk, q.
        replace (bid + 1 + Z.of_nat k) with (bid + Z.of_nat (S k)) by lia. done.
Qed.

(** X22 (CMeta::for_each_page).  With no more than 2^31 banks, each
    shorter than 2^43 bytes, the walk ends, and the pages it hands to the
    callback are exactly the pages that lie in full inside their bank and
    are not all zero; for each of them [get_page] succeeds and gives the
    same bytes. *)
Theorem for_each_page_spec (beyond : buf_t -> buf_t) (m : CMeta.t) :
  Z.of_nat (length (CMeta.m_banks m)) <= 2 ^ 31 ->
  Forall (fun bank => len bank < 2 ^ 43) (CMeta.m_banks m) ->
  exists visits, for_each_page m = Some visits /\
    (forall ppi page, (ppi, page) ∈ visits <->
       exists bank, 0 <= bank_id ppi /\ 0 <= page_id ppi /\
         CMeta.m_banks m !! Z.to_nat (bank_id ppi) = Some bank /\
         (page_id ppi + 2) * PAGE_SIZE <= len bank /\
         page = page_of bank (page_id ppi) /\
         all_eq Byte.x00 page = false) /\
    (forall ppi page dst, (ppi, page) ∈ visits ->
       CMeta.get_page beyond m ppi dst = (true, page, m)).
Proof.
  intros Hn Hall. unfold for_each_page.
  destruct (banks_loop_spec (CMeta.m_banks m) 0 Hall) as (vs & Hvs & Hin).
  exists vs. split; [done|].
  assert (forall ppi page, (ppi, page) ∈ vs <->
    exists bank, 0 <= bank_id ppi /\ 0 <= page_id ppi /\
      CMeta.m_banks m !! Z.to_nat (bank_id ppi) = Some bank /\
      (page_id ppi + 2) * PAGE_SIZE <= len bank /\
      page = page_of bank (page_id ppi) /\
      all_eq Byte.x00 page = false) as Hspec.
  { intros ppi page. rewrite Hin. split.
    - intros (k & bank & q & Hk & Hq & Hfull & Hx & Hz).
      assert (s32 (0 + Z.of_nat k) = Z.of_nat k) as Hs.
      { apply lookup_lt_Some in Hk. unfold s32, signed.
        rewrite Z.mod_small by lia.
        destruct (Z.ltb_spec (0 + Z.of_nat k) (2 ^ (32 - 1))); lia. }
      rewrite Hs in Hx. inversion Hx; subst ppi page. cbn [bank_id page_id].
      exists bank. rewrite Nat2Z.id. repeat split; try done. lia.
    - intros (bank & Hb & Hq & Hk & Hfull & -> & Hz).
      exists (Z.to_nat (bank_id ppi)), bank, (page_id ppi).
      assert (s32 (0 + Z.of_nat (Z.to_nat (bank_id ppi))) = bank_id ppi) as Hs.
      { apply lookup_lt_Some in Hk. unfold s32, signed.
        rewrite Z.mod_small by lia.
        destruct (Z.ltb_spec (0 + Z.of_nat (Z.to_nat (bank_id ppi))) (2 ^ (32 - 1))); lia. }
      rewrite Hs. destruct ppi. repeat split; done. }
  split; [exact Hspec|].
  intros ppi page dst (bank & Hb & Hq & Hk & Hfull & -> & Hz)%Hspec.
  pose proof (lookup_lt_Some _ _ _ Hk) as Hlt.
  assert (len bank < 2 ^ 43) as Hlen.
  { rewrite Forall_forall in Hall. apply Hall. by eapply list_elem_of_lookup_2. }
  unfold CMeta.get_page, CMeta.bank_at, CMeta.page_offset. rewrite Hk.
  change (default [] (Some bank)) with bank.
  unfold PAGE_SIZE in *.
  rewrite (u32_small (bank_id ppi)) by lia.
  assert (s32 (page_id ppi + 1) = page_id ppi + 1) as ->.
  { unfold s32, signed. rewrite Z.mod_small by lia.
    destruct (Z.ltb_spec (page_id ppi + 1) (2 ^ (32 - 1))); lia. }
  rewrite (u64_small (page_id ppi + 1)) by lia.
  rewrite (u64_small ((page_id ppi + 1) * 4096)) by lia.
  destruct (Z.leb_spec (Z.of_nat (length (CMeta.m_banks m))) (bank_id ppi)); [lia|].
  destruct (Z.leb_spec (len bank) ((page_id ppi + 1) * 4096)); [lia|].
  f_equal. f_equal. unfold slice, len in *.
  rewrite drop_app_le by lia.
  rewrite <- !app_assoc, take_app_le; [done|].
  rewrite length_drop. lia.
Qed.

Lemma for_each_page_spec_witness :
  exists visits,
    for_each_page (CMeta.mk [replicate 8192 Byte.x01] false) = Some visits /\
    forall dst, Forall (fun v => CMeta.get_page (fun _ => []) (CMeta.mk [replicate 8192 Byte.x01] false)
                                   (fst v) dst
                                 = (true, snd v, CMeta.mk [replicate 8192 Byte.x01] false)) visits.
Proof.
  destruct (for_each_page_spec (fun _ => []) (CMeta.mk [replicate 8192 Byte.x01] false))
    as (vs & Hvs & _ & Hget).
  - cbn. lia.
  - constructor; [|constructor]. vm_compute. reflexivity.
  - exists vs. split; [exact Hvs|]. intros dst. apply Forall_forall.
    intros [ppi page] Hin. by apply Hget.
Defined.

End PageScan.

(** ** Sizes for the log *)

Section HumanSizes.
Import Units.

Lemma min_unit_loop_pow (k : nat) : forall fuel size i,
  (k <= fuel)%nat ->
  min_unit_loop fuel (1024 ^ Z.of_nat k) size i =
  (size / 1024 ^ Z.of_nat k, i + Z.of_nat k).
Proof.
  induction k as [|k IH]; intros fuel size i Hk.
  - change (1024 ^ Z.of_nat 0) with 1. rewrite Z.div_1_r, Z.add_0_r.
    by destruct fuel.
  - destruct fuel as [|f]; [lia|]. cbn [min_unit_loop].
    rewrite Nat2Z.inj_succ, Z.pow_succ_r by lia.
    assert (0 < 1024 ^ Z.of_nat k) as Hp by (apply Z.pow_pos_nonneg; lia).
    destruct (Z.ltb_spec 1 (1024 * 1024 ^ Z.of_nat k)) as [_|Hle]; [|lia].
    replace (1024 * 1024 ^ Z.of_nat k / 1024) with (1024 ^ Z.of_nat k)
      by (rewrite Z.mul_comm, Z_div_mult_full; lia).
    rewrite IH by lia. rewrite Z.div_div by lia. f_equal. lia.
Qed.

Lemma scale_loop_spec (fuel : nat) : forall size i,
  0 <= size -> 0 <= i -> 4 - i <= Z.of_nat fuel ->
  let v := fst (scale_loop fuel size i) in
  let j := snd (scale_loop fuel size i) in
  i <= j /\ (j <= 4 \/ j = i) /\ v = size / 1024 ^ (j - i) /\
  (j < 4 -> v < 4096) /\ (i < j -> 4 <= v).
Proof.
  induction fuel as [|f IH]; intros size i Hs Hi Hf; cbn [scale_loop].
  - cbn [fst snd]. rewrite Z.sub_diag, Z.div_1_r. lia.
  - destruct (Z.ltb_spec i 4) as [Hlt|Hge]; cbn [andb].
    + destruct (Z.leb_spec 4096 size) as [Hbig|Hsmall].
      * destruct (IH (size / 1024) (i + 1)) as (H1 & H2 & H3 & H4 & H5);
          [apply Z.div_pos; lia|lia|lia|].
        cbv zeta. split; [lia|]. split; [lia|]. split.
        -- rewrite H3, Z.div_div by (try apply Z.pow_pos_nonneg; lia).
           f_equal.
           replace (snd (scale_loop f (size / 1024) (i + 1)) - i)
             with (Z.succ (snd (scale_loop f (size / 1024) (i + 1)) - (i + 1))) by lia.
           rewrite Z.pow_succ_r by lia. done.
        -- split; [done|]. intros _.
           destruct (Z.eq_dec (snd (scale_loop f (size / 1024) (i + 1))) (i + 1)) as [E|E].
           ++ rewrite H3, E, Z.sub_diag, Z.div_1_r.
              apply Z.div_le_lower_bound; lia.
           ++ apply H5. lia.
      * cbn [fst snd]. rewrite Z.sub_diag, Z.div_1_r. lia.
    + cbn [fst snd]. rewrite Z.sub_diag, Z.div_1_r. lia.
Qed.

(** X23 (bytes2human).  With a smallest unit of 1024^k bytes the text is
    the size divided by 1024^i, rounded down, followed by the i-th unit,
    where i is at least k and at most 4 (Tb); the number printed is below
    4096 unless the unit is Tb, and at least 4 for a unit above the
    smallest one. *)
Theorem bytes2human_value (size : Z) (default_unit : string) (k : Z) :
  0 <= size -> 0 <= k <= 4 ->
  exists v i,
    bytes2human size default_unit (1024 ^ k) =
      String.append (to_string v)
        (if i =? 0 then default_unit else nth (Z.to_nat i) units EmptyString) /\
    k <= i <= 4 /\ v = size / 1024 ^ i /\
    (i < 4 -> v < 4096) /\ (k < i -> 4 <= v).
Proof.
  intros Hs Hk. unfold bytes2human, scaled.
  rewrite <- (Z2Nat.id k) by lia.
  rewrite min_unit_loop_pow by lia.
  assert (0 < 1024 ^ Z.of_nat (Z.to_nat k)) as Hp by (apply Z.pow_pos_nonneg; lia).
  destruct (scale_loop_spec 4 (size / 1024 ^ Z.of_nat (Z.to_nat k)) (0 + Z.of_nat (Z.to_nat k)))
    as (H1 & H2 & H3 & H4 & H5); [apply Z.div_pos; lia|lia|lia|].
  destruct (scale_loop 4 _ _) as [v i]. cbn [fst snd] in *.
  exists v, i. split; [done|]. split; [lia|]. split; [|split; [done|intros; apply H5; lia]].
  rewrite H3, Z.div_div by (try apply Z.pow_pos_nonneg; lia).
  rewrite <- Z.pow_add_r by lia. do 2 f_equal. lia.
Qed.

Lemma bytes2human_value_witness :
  bytes2human (3 * 1024 * 1024) EmptyString 1 = "3072Kb"%string /\
  exists v i,
    bytes2human (3 * 1024 * 1024) EmptyString (1024 ^ 0) =
      String.append (to_string v)
        (if i =? 0 then EmptyString else nth (Z.to_nat i) units EmptyString) /\
    0 <= i <= 4 /\ v = 3 * 1024 * 1024 / 1024 ^ i /\
    (i < 4 -> v < 4096) /\ (0 < i -> 4 <= v).
Proof.
  split; [vm_compute; reflexivity|].
  apply (bytes2human_value (3 * 1024 * 1024) EmptyString 0); lia.
Defined.

End HumanSizes.

(** ** Selecting files by pattern *)

Section GlobMatch.
Import Glob.

Lemma matches_head x p c s :
  x <> "*"%char ->
  matches (x :: p) (c :: s) <-> (x = "?"%char \/ x = c) /\ matches p s.
Proof.
  intros Hx. split.
  - intros H. inversion H; subst; done.
  - intros [H1 H2]. by constructor.
Qed.

Lemma matches_nonstar_nil x p : x <> "*"%char -> ~ matches (x :: p) [].
Proof. intros Hx H. inversion H; subst; done. Qed.

Lemma matches_nil_l s : matches [] s -> s = [].
Proof. intros H. by inversion H. Qed.

Lemma matches_star p t :
  matches ("*"%char :: p) t <->
  exists k, (k <= length t)%nat /\ matches p (drop k t).
Proof.
  split.
  - induction t as [|c t IH]; intros H; inversion H; subst; try done.
    + exists O. split; [lia|done].
    + exists O. split; [cbn; lia|done].
    + destruct IH as (k & Hk & Hm); [done|]. exists (S k). split; [cbn; lia|done].
  - intros (k & Hk & Hm). revert t Hk Hm.
    induction k as [|k IH]; intros t Hk Hm.
    + rewrite drop_0 in Hm. by constructor.
    + destruct t as [|c t]; [cbn in Hk; lia|].
      apply matches_star_more, IH; [cbn in Hk; lia|done].
Qed.

Lemma matches_only_stars p : matches p [] <-> only_stars p = true.
Proof.
  induction p as [|x p IH]; cbn.
  - split; [done|constructor].
  - split.
    + intros H. inversion H; subst. rewrite Ascii.eqb_refl. by apply IH.
    + intros [->%Ascii.eqb_eq Hp]%andb_prop. apply matches_star_none. by apply IH.
Qed.

Lemma matches_segment seg : forall rest t,
  Forall (fun x => x <> "*"%char) seg ->
  matches (seg ++ rest) t ->
  (length seg <= length t)%nat /\ matches rest (drop (length seg) t).
Proof.
  induction seg as [|x seg IH]; intros rest t Hs Hm.
  - cbn. split; [lia|done].
  - inversion Hs as [|? ? Hx Hs']; subst. cbn [app] in Hm.
    destruct t as [|c t]; [by apply matches_nonstar_nil in Hm|].
    apply matches_head in Hm as [_ Hm]; [|done].
    destruct (IH rest t Hs' Hm) as [Hl Hr]. cbn. split; [lia|done].
Qed.

(** The loop ends within its fuel, for any pattern and string. *)
Lemma glob_loop_ends (pattern str : list ascii) : forall fuel p s star match_,
  (p <= length pattern)%nat -> (match_ <= s)%nat -> (s <= length str)%nat ->
  (forall st, star = Some st -> (st < p)%nat) ->
  (Z.of_nat (length str) - Z.of_nat match_) * (Z.of_nat (length pattern) + 2) +
    (Z.of_nat (length pattern) + 1 - Z.of_nat p) < Z.of_nat fuel ->
  is_Some (glob_loop fuel pattern str p s star match_).
Proof.
  induction fuel as [|f IH]; intros p s star match_ Hp Hm Hs Hst Hfuel; [nia|].
  cbn [glob_loop].
  destruct (str !! s) as [c|] eqn:Es; [|done].
  apply lookup_lt_Some in Es.
  assert (is_Some (match star with
                   | Some st => glob_loop f pattern str (S st) (S match_) star (S match_)
                   | None => Some false
                   end)) as Hback.
  { destruct star as [st|]; [|done].
    pose proof (Hst st eq_refl).
    apply IH; [lia|lia|lia|intros ? [= <-]; lia|nia]. }
  destruct (pattern !! p) as [x|] eqn:Ep; [|exact Hback].
  apply lookup_lt_Some in Ep.
  destruct (Ascii.eqb x "?" || Ascii.eqb x c).
  - apply IH; [lia|lia|lia|intros st Est; apply Hst in Est; lia|nia].
  - destruct (Ascii.eqb x "*"); [|exact Hback].
    apply IH; [lia|lia|lia|intros ? [= <-]; lia|nia].
Qed.

Section Correct.

Variables pattern str : list ascii.
Hypothesis no_star : "*"%char ∉ str.

Local Abbreviation glob_inv := (Glob.glob_inv pattern str).
Local Abbreviation glob_open := (Glob.glob_open pattern str).

Lemma glob_loop_correct : forall fuel p s star match_ b,
  glob_inv p s star match_ ->
  glob_loop fuel pattern str p s star match_ = Some b ->
  (b = true <-> glob_open p s star match_).
Proof.
  induction fuel as [|f IH]; intros p s star match_ b (Hp & Hm & Hs & Hst) Hrun;
    [done|].
  cbn [glob_loop] in Hrun.
  assert (forall st m, star = Some st -> (match_ < m <= length str)%nat ->
            matches (drop (S st) pattern) (drop m str) ->
            (p - S st <= length str - m)%nat /\
            matches (drop p pattern) (drop (m + (p - S st)) str)) as Hlater.
  { intros st m E Hm' Hmt. destruct (Hst st E) as (_ & Hlt & _ & Hfree).
    rewrite <- (take_drop (p - S st) (drop (S st) pattern)) in Hmt.
    apply matches_segment in Hmt as [Hl Hr]; [|done].
    rewrite length_take, !length_drop in *.
    rewrite !drop_drop in Hr.
    rewrite (Nat.min_l (p - S st)) in Hr, Hl by lia.
    replace (S st + (p - S st))%nat with p in Hr by lia.
    split; [lia|done]. }
  destruct (str !! s) as [c|] eqn:Es.
  - pose proof (lookup_lt_Some _ _ _ Es) as Hlt.
    assert (c <> "*"%char) as Hc.
    { intros ->. apply no_star. by eapply list_elem_of_lookup_2. }
    (* the third and the fourth branch *)
    assert (~ matches (drop p pattern) (c :: drop (S s) str) ->
            match star with
            | Some st => glob_loop f pattern str (S st) (S match_) star (S match_)
            | None => Some false
            end = Some b ->
            (b = true <-> glob_open p s star match_)) as Hback.
    { intros Hno Hb. unfold Glob.glob_open. rewrite (drop_S _ _ _ Es).
      destruct star as [st|].
      - destruct (Hst st eq_refl) as (Hstar & Hstp & _ & _).
        apply IH in Hb.
        + rewrite Hb. unfold Glob.glob_open. split.
          * intros [H|(st' & m & [= <-] & Hm' & H)].
            -- right. exists st, (S match_). split; [done|]. split; [lia|done].
            -- right. exists st, m. split; [done|]. split; [lia|done].
          * intros [H|(st' & m & [= <-] & Hm' & H)]; [done|].
            destruct (Nat.eq_dec m (S match_)) as [->|]; [by left|].
            right. exists st, m. split; [done|]. split; [lia|done].
        + split; [lia|]. split; [lia|]. split; [lia|].
          intros ? [= <-]. split; [done|]. split; [lia|]. split; [lia|].
          replace (S st - S st)%nat with O by lia. constructor.
      - inversion Hb; subst b. split; [done|].
        intros [H|(? & ? & ? & _)]; done. }
    destruct (pattern !! p) as [x|] eqn:Ep.
    + pose proof (lookup_lt_Some _ _ _ Ep) as Hltp.
      destruct (Ascii.eqb x "?" || Ascii.eqb x c) eqn:E1.
      * (* one character *)
        assert (x <> "*"%char) as Hx.
        { intros ->. apply orb_prop in E1 as [E|E%Ascii.eqb_eq]; [done|congruence]. }
        assert (x = "?"%char \/ x = c) as Hxc.
        { apply orb_prop in E1 as [E%Ascii.eqb_eq|E%Ascii.eqb_eq]; tauto. }
        apply IH in Hrun.
        -- rewrite Hrun. unfold Glob.glob_open.
           rewrite (drop_S _ _ _ Es), (drop_S _ _ _ Ep), matches_head by done.
           tauto.
        -- split; [lia|]. split; [lia|]. split; [lia|].
           intros st E. destruct (Hst st E) as (H1 & H2 & H3 & H4).
           split; [done|]. split; [lia|]. split; [lia|].
           replace (S p - S st)%nat with (S (p - S st)) by lia.
           rewrite (take_S_r _ _ x).
           ++ apply Forall_app. split; [done|]. by constructor.
           ++ rewrite lookup_drop. rewrite <- Ep. f_equal. lia.
      * destruct (Ascii.eqb_spec x "*") as [->|Hx].
        -- (* a star *)
           apply IH in Hrun.
           ++ rewrite Hrun. unfold Glob.glob_open.
              rewrite (drop_S _ _ _ Es), (drop_S _ _ _ Ep), matches_star.
              rewrite <- (drop_S _ _ _ Es). split.
              ** intros [H|(st' & m & [= <-] & Hm' & H)].
                 --- left. exists O. split; [lia|by rewrite drop_0].
                 --- left. exists (m - s)%nat. rewrite length_drop, drop_drop.
                     replace (s + (m - s))%nat with m by lia. split; [lia|done].
              ** intros [(k & Hk & H)|(st & m & E & Hm' & H)].
                 --- rewrite length_drop, drop_drop in *.
                     destruct k as [|k].
                     +++ left. by rewrite Nat.add_0_r in H.
                     +++ right. exists p, (s + S k)%nat. split; [done|]. split; [lia|done].
                 --- destruct (Hst st E) as (_ & _ & Hlen & _).
                     destruct (Hlater st m E Hm' H) as [Hl Hr].
                     rewrite (drop_S _ _ _ Ep) in Hr.
                     apply matches_star in Hr as (k & Hk & Hr).
                     rewrite length_drop, drop_drop in *.
                     right. exists p, (m + (p - S st) + k)%nat.
                     split; [done|]. split; [lia|done].
           ++ split; [lia|]. split; [lia|]. split; [lia|].
              intros ? [= <-]. split; [done|]. split; [lia|]. split; [lia|].
              replace (S p - S p)%nat with O by lia. constructor.
        -- apply Hback; [|done].
           rewrite (drop_S _ _ _ Ep). rewrite matches_head by done.
           intros [[->| ->] _].
           ++ by rewrite Ascii.eqb_refl in E1.
           ++ by rewrite Ascii.eqb_refl, orb_true_r in E1.
    + apply Hback; [|done].
      apply lookup_ge_None in Ep. rewrite drop_ge by lia.
      by intros ?%matches_nil_l.
  - (* the end of the string *)
    apply lookup_ge_None in Es. inversion Hrun; subst b.
    unfold Glob.glob_open. rewrite (drop_ge str s) by lia.
    rewrite <- matches_only_stars. split; [by left|].
    intros [H|(st & m & E & Hm' & H)]; [done|].
    destruct (Hst st E) as (_ & _ & Hlen & _).
    destruct (Hlater st m E Hm' H) as [Hl _]. lia.
Qed.

End Correct.

Lemma simple_glob_match_spec (pattern str : list ascii) :
  is_Some (simple_glob_match pattern str) /\
  ("*"%char ∉ str ->
   (simple_glob_match pattern str = Some true <-> matches pattern str)).
Proof.
  assert (is_Some (simple_glob_match pattern str)) as Hs.
  { unfold simple_glob_match. apply glob_loop_ends; [lia|lia|lia|done|nia]. }
  split; [exact Hs|]. intros Hno.
  destruct Hs as [b Hb]. rewrite Hb.
  destruct (glob_loop_correct pattern str Hno
              (S (length str * (length pattern + 2) + length pattern + 1))
              0%nat 0%nat None 0%nat b) as [H1 H2];
    [|exact Hb|].
  - split; [lia|]. split; [lia|]. split; [lia|]. done.
  - unfold Glob.glob_open in H1, H2. rewrite !drop_0 in H1, H2. split.
    + intros [= ->]. destruct H1 as [H|(? & ? & ? & _)]; done.
    + intros H. f_equal. apply H2. by left.
Qed.

(** X24 (simple_glob_match).  The matcher ends for every pattern and
    string, and for a string without a star it says yes exactly when
    the pattern stands for the string, [?] for one character and [*]
    for any number of them. *)
Theorem simple_glob_match_correct (pattern str : list ascii) :
  is_Some (simple_glob_match pattern str) /\
  ("*"%char ∉ str ->
   (simple_glob_match pattern str = Some true <-> matches pattern str)).
Proof. exact (simple_glob_match_spec pattern str). Qed.

(** A star in the string is taken for itself before the pattern's star
    is tried. *)
Example simple_glob_match_star_in_name :
  simple_glob_match (list_ascii_of_string "*a") (list_ascii_of_string "*ba") = Some false /\
  matches (list_ascii_of_string "*a") (list_ascii_of_string "*ba").
Proof.
  split; [vm_compute; reflexivity|]. cbn.
  do 2 apply matches_star_more. apply matches_star_none.
  apply matches_char; [done|by right|constructor].
Qed.

Lemma simple_glob_match_correct_witness :
  simple_glob_match (list_ascii_of_string "*.vmdk") (list_ascii_of_string "a/disk.vmdk")
    = Some true /\
  matches (list_ascii_of_string "*.vmdk") (list_ascii_of_string "a/disk.vmdk").
Proof.
  assert (simple_glob_match (list_ascii_of_string "*.vmdk")
            (list_ascii_of_string "a/disk.vmdk") = Some true) as H
    by (vm_compute; reflexivity).
  split; [exact H|].
  apply (proj2 (simple_glob_match_correct _ _)); [|exact H].
  cbn. intros Hin. repeat (apply elem_of_cons in Hin as [Hin|Hin]; [done|]).
  by apply elem_of_nil in Hin.
Defined.

End GlobMatch.

(** ** Reading directories *)

Section Directories.
Import Dir.

Variable beyond : buf_t -> buf_t.

Lemma signed_range w z : 0 < w -> -2^(w-1) <= signed w z < 2^(w-1).
Proof.
  intros Hw. unfold signed.
  assert (2 ^ w = 2 * 2 ^ (w - 1)) as E.
  { rewrite <- Z.pow_succ_r by lia. f_equal. lia. }
  assert (0 < 2 ^ (w - 1)) by (apply Z.pow_pos_nonneg; lia).
  pose proof (Z.mod_pos_bound z (2 ^ w)).
  destruct (Z.ltb_spec (z mod 2 ^ w) (2 ^ (w - 1))); lia.
Qed.

Lemma rd_ppi_int32 off buf : ppi_int32 (rd_ppi off buf).
Proof.
  unfold ppi_int32, rd_ppi, rd_s32, s32. cbn [page_id bank_id].
  split; apply (signed_range 32); lia.
Qed.

Lemma invalid_ppi_int32 : ppi_int32 INVALID_PPI.
Proof. unfold ppi_int32. cbn. lia. Qed.

Lemma page_ppis_int32 page : Forall ppi_int32 (CPageStack.page_ppis page).
Proof.
  unfold CPageStack.page_ppis. apply Forall_forall.
  intros x (i & -> & _)%list_elem_of_fmap. apply rd_ppi_int32.
Qed.

Lemma walk_int32 m ppi0 fuel : forall p vs first st s,
  Forall ppi_int32 (CPageStack.m_pageTables st) ->
  Forall ppi_int32 (CPageStack.m_pageIds st) ->
  CMeta.walk beyond fuel m ppi0 p vs first st = Some (Done s) ->
  Forall ppi_int32 (CPageStack.m_pageTables s) /\
  Forall ppi_int32 (CPageStack.m_pageIds s).
Proof.
  induction fuel as [|f IH]; intros p vs first st s Ht Hi; [done|].
  cbn [CMeta.walk].
  destruct (negb (ppi_valid p)); [by intros [= <-]|].
  destruct (CMeta.fetch beyond m p) as [page|]; [|by intros [= <-]].
  destruct (first && _); [by intros [= <-]|].
  destruct (negb first && _); [by intros [= <-]|].
  unfold CPageStack.add_page.
  destruct (negb (len page =? PAGE_SIZE)); [done|].
  destruct (CPageStack.m_finalized st); [done|].
  apply IH; cbn; [|done].
  apply Forall_app. split; [done|apply page_ppis_int32].
Qed.

Lemma fill_int32 tables : forall idxs ids,
  Forall ppi_int32 tables -> Forall ppi_int32 ids ->
  Forall ppi_int32 (CPageStack.fill tables idxs ids).
Proof.
  induction idxs as [|i r IH]; intros ids Ht Hi; cbn [CPageStack.fill]; [done|].
  apply IH; [done|].
  destruct (_ <? _); [|done].
  apply Forall_insert; [done|].
  destruct (tables !! _) as [x|] eqn:E; cbn.
  - rewrite Forall_forall in Ht. apply Ht. by eapply list_elem_of_lookup_2.
  - apply invalid_ppi_int32.
Qed.

Lemma resize_ids_int32 n ids :
  Forall ppi_int32 ids -> Forall ppi_int32 (CPageStack.resize_ids n ids).
Proof.
  intros H. unfold CPageStack.resize_ids. apply Forall_app. split.
  - by apply Forall_take.
  - apply Forall_replicate, invalid_ppi_int32.
Qed.

Lemma page_stack_int32 m ppi0 s :
  CMeta.get_page_stack beyond m ppi0 = Done s ->
  Forall ppi_int32 (CPageStack.m_pageIds s).
Proof.
  unfold CMeta.get_page_stack.
  destruct (CMeta.walk _ _ _ _ _ _ _ _) as [[st|]|] eqn:Hw; try done.
  apply walk_int32 in Hw as [Ht Hi]; [|constructor..].
  cbn [bind]. unfold CPageStack.finalize.
  destruct (CPageStack.m_finalized st); [done|].
  intros [= <-]. cbn [CPageStack.m_pageIds].
  by apply resize_ids_int32, fill_int32; [|apply resize_ids_int32].
Qed.

Lemma fetched_is_fetchable m p page :
  Z.of_nat (length (CMeta.m_banks m)) <= 2 ^ 31 ->
  Forall (fun bank => len bank < 2 ^ 43) (CMeta.m_banks m) ->
  ppi_int32 p ->
  CMeta.fetch beyond m p = Some page -> p ∈ fetchable m.
Proof.
  intros Hn Hall [Hpg Hbk]. unfold CMeta.fetch, CMeta.get_page.
  destruct (Z.leb_spec (Z.of_nat (length (CMeta.m_banks m))) (u32 (bank_id p)))
    as [|Hb]; [done|].
  assert (0 <= bank_id p) as Hb0.
  { destruct (Z.lt_ge_cases (bank_id p) 0); [|done].
    rewrite u32_neg in Hb by lia. lia. }
  rewrite u32_small in Hb by lia.
  destruct (lookup_lt_is_Some_2 (CMeta.m_banks m) (Z.to_nat (bank_id p)))
    as [bank Hbank]; [lia|].
  unfold CMeta.bank_at. rewrite Hbank. change (default [] (Some bank)) with bank.
  assert (len bank < 2 ^ 43) as Hlen.
  { rewrite Forall_forall in Hall. apply Hall. by eapply list_elem_of_lookup_2. }
  assert (0 <= len bank) as Hlen0 by (unfold len; lia).
  destruct (Z.leb_spec (len bank) (CMeta.page_offset p)) as [|Hoff]; [done|].
  intros _.
  assert (-1 <= page_id p /\ (page_id p + 1) * PAGE_SIZE < len bank) as [Hp1 Hp2].
  { unfold CMeta.page_offset, PAGE_SIZE in *.
    destruct (Z.eq_dec (page_id p) (2 ^ 31 - 1)) as [E|E].
    { exfalso. rewrite E in Hoff.
      assert (u64 (u64 (s32 (2 ^ 31 - 1 + 1)) * 4096) = 2 ^ 64 - 2 ^ 43) as Ev
        by (vm_compute; reflexivity).
      rewrite Ev in Hoff. lia. }
    assert (s32 (page_id p + 1) = page_id p + 1) as Es.
    { unfold s32, signed.
      destruct (Z.lt_ge_cases (page_id p + 1) 0).
      - replace ((page_id p + 1) mod 2 ^ 32) with (page_id p + 1 + 2 ^ 32)
          by (apply (Z.mod_unique _ _ (-1)); lia).
        destruct (Z.ltb_spec (page_id p + 1 + 2 ^ 32) (2 ^ (32 - 1))); lia.
      - rewrite Z.mod_small by lia.
        destruct (Z.ltb_spec (page_id p + 1) (2 ^ (32 - 1))); lia. }
    rewrite Es in Hoff.
    destruct (Z.lt_ge_cases (page_id p + 1) 0) as [Hneg|Hpos].
    - exfalso. rewrite (u64_neg (page_id p + 1)) in Hoff by lia.
      unfold u64 in Hoff.
      replace (((page_id p + 1 + 2 ^ 64) * 4096) mod 2 ^ 64)
        with (2 ^ 64 + (page_id p + 1) * 4096) in Hoff
        by (apply (Z.mod_unique _ _ 4095); lia).
      lia.
    - rewrite (u64_small (page_id p + 1)) in Hoff by lia.
      rewrite u64_small in Hoff by lia. lia. }
  unfold fetchable. apply list_elem_of_bind. exists (Z.to_nat (bank_id p)). split.
  - rewrite Hbank. change (default [] (Some bank)) with bank.
    apply list_elem_of_fmap. exists (Z.to_nat (page_id p + 1)). split.
    + destruct p; cbn in *. unfold PPI. f_equal; lia.
    + apply elem_of_seq. unfold PAGE_SIZE in *.
      assert (page_id p + 1 <= len bank / 4096) by (apply Z.div_le_lower_bound; lia).
      lia.
  - apply elem_of_seq. lia.
Qed.

Lemma string_of_list_byte_length l :
  String.length (string_of_list_byte l) = length l.
Proof.
  unfold string_of_list_byte. induction l as [|b l IH]; cbn; [done|by rewrite IH].
Qed.

(** An item that [process_dir_page] passes on to the callback. *)
Lemma loaded_item_listed (page : buf_t) (i : nat) (f : CMeta.VFile) :
  len page = PAGE_SIZE -> (i < 21)%nat ->
  valid (slice (i * ITEM_SIZE) ITEM_SIZE page) 0 = true ->
  vLoadFile (slice (i * ITEM_SIZE) ITEM_SIZE page) = Some f ->
  listed f.
Proof.
  intros Hlen Hi Hv Hload.
  set (item := slice (i * ITEM_SIZE) ITEM_SIZE page) in *.
  assert (length item = 192%nat) as Hitem.
  { unfold item, slice, ITEM_SIZE. unfold len, PAGE_SIZE in Hlen.
    rewrite length_take, length_drop. lia. }
  clearbody item.
  unfold valid in Hv. cbv zeta in Hv.
  destruct (_ && _ && valid_name item && _) eqn:Hr; [|done].
  apply andb_prop in Hr as [[_ Hname]%andb_prop _].
  cbn [negb] in Hv.
  change (negb (0 =? 0) && _) with false in Hv. cbv iota in Hv.
  assert (1 <= String.length (get_name item) <= 128)%nat as Hn.
  { unfold valid_name in Hname.
    destruct (Z.eqb_spec (name_len item) 0); [done|].
    destruct (Z.ltb_spec 128 (name_len item)); [done|].
    assert (0 <= name_len item).
    { unfold name_len, rd_u32. apply le_Z_nonneg. }
    unfold get_name. rewrite string_of_list_byte_length, length_take.
    unfold name, slice. rewrite length_take, length_drop. lia. }
  unfold vLoadFile in Hload.
  destruct (type_ item =? 3) eqn:E3.
  { injection Hload as <-. cbn [CMeta.type CMeta.name CMeta.attribs].
    split; [tauto|]. split; [done|]. intros _.
    apply Z.eqb_eq in E3. rewrite E3 in Hv. cbn [Z.eqb Pos.eqb] in Hv.
    unfold base_valid in Hv. cbn [Z.eqb negb] in Hv.
    apply andb_prop in Hv as [_ Hv]. exact Hv. }
  destruct (type_ item =? 1) eqn:E1.
  { injection Hload as <-. cbn [CMeta.type CMeta.name CMeta.attribs].
    split; [tauto|]. split; [done|]. intros _.
    unfold dir_valid in Hv. cbn [Z.eqb negb] in Hv.
    apply andb_prop in Hv as [Hv _]. exact Hv. }
  destruct (type_ item =? 5) eqn:E5; [|done].
  injection Hload as <-. cbn [CMeta.type CMeta.name CMeta.attribs].
  split; [tauto|]. split; [done|]. done.
Qed.

Section Ends.

Variable m : CMeta.t.
Hypothesis banks_bound : Z.of_nat (length (CMeta.m_banks m)) <= 2 ^ 31.
Hypothesis bank_sizes : Forall (fun bank => len bank < 2 ^ 43) (CMeta.m_banks m).

Local Abbreviation tracked := (Dir.tracked m).
Local Abbreviation returns := (Dir.returns m).
Local Abbreviation ends_within := (Dir.ends_within m).

Lemma tracked_bound v : tracked v -> (length v <= length (fetchable m))%nat.
Proof. intros [Hnd Hin]. apply submseteq_length, NoDup_submseteq; done. Qed.

Lemma process_items_ends f rec page :
  ends_within f rec -> len page = PAGE_SIZE ->
  forall idxs cb v out,
    Forall (fun i => (i < 21)%nat) idxs ->
    tracked v -> Forall (fun e => listed (snd e)) out ->
    (length (fetchable m) < f + length v)%nat ->
    returns (process_items rec page idxs cb (Some v, out)) v.
Proof.
  intros Hrec Hpage.
  induction idxs as [|i r IH]; intros cb v out Hidx Hv Hout Hlen; cbn [process_items].
  - exists v, out. repeat split; try done; apply Hv.
  - inversion Hidx as [|? ? Hi Hr]; subst.
    destruct (valid _ 0) eqn:Hval; cbn [negb andb].
    2:{ exists v, out. repeat split; try done; apply Hv. }
    destruct (vLoadFile _) as [vf|] eqn:Hload; [|by apply IH].
    assert (Forall (fun e => listed (snd e)) (out ++ [(cb (get_name (slice (i * ITEM_SIZE) ITEM_SIZE page)), vf)]))
      as Hout1.
    { apply Forall_app. split; [done|]. constructor; [|constructor].
      by eapply loaded_item_listed. }
    unfold call. cbn [fst snd].
    destruct (is_dir _); cbn [andb]; [|by apply IH].
    destruct (Hrec (children_loc (slice (i * ITEM_SIZE) ITEM_SIZE page))
                (fun dirname => cb (get_name (slice (i * ITEM_SIZE) ITEM_SIZE page) ++ "/" ++ dirname)%string)
                v _ Hv Hout1 Hlen) as (v1 & out1 & -> & Hv1 & Hl1 & Hout2).
    destruct (IH cb v1 out1 Hr Hv1 Hout2) as (v2 & out2 & -> & Hv2 & Hl2 & Hout3); [lia|].
    exists v2, out2. repeat split; try done; try apply Hv2. lia.
Qed.

Lemma dir_pages_ends f rec :
  ends_within f rec ->
  forall ids cb v out,
    Forall ppi_int32 ids ->
    tracked v -> Forall (fun e => listed (snd e)) out ->
    (length (fetchable m) < S f + length v)%nat ->
    returns (dir_pages beyond m rec ids cb (Some v, out)) v.
Proof.
  intros Hrec.
  induction ids as [|ppi r IH]; intros cb v out Hids Hv Hout Hlen; cbn [dir_pages].
  - exists v, out. repeat split; try done; apply Hv.
  - inversion Hids as [|? ? Hp Hr]; subst.
    destruct (CMeta.fetch beyond m ppi) as [page|] eqn:Hf; [|by apply IH].
    cbn [fst snd].
    destruct (CMeta.visited_mem ppi v) eqn:Hmem; [by apply IH|].
    assert (tracked (ppi :: v)) as Hv1.
    { destruct Hv as [Hnd Hin]. split.
      - constructor; [|done]. intros Hc%visited_mem_spec. congruence.
      - intros x [->|Hx]%elem_of_cons; [|by apply Hin].
        by eapply fetched_is_fetchable. }
    destruct (process_items_ends f rec page Hrec (fetch_length beyond _ _ _ Hf)
                (seq 0 21) cb (ppi :: v) out) as (v1 & out1 & E & Hv2 & Hl1 & Hout1);
      try done.
    { apply Forall_forall. intros i Hi%elem_of_seq. lia. }
    { cbn [length]. lia. }
    unfold process_dir_page. rewrite E.
    destruct (IH cb v1 out1 Hr Hv2 Hout1) as (v2 & out2 & -> & Hv3 & Hl2 & Hout2).
    { cbn [length] in Hl1. lia. }
    exists v2, out2. repeat split; try done; try apply Hv3. cbn [length] in Hl1. lia.
Qed.

Lemma read_dir_ends_within f : ends_within f (read_dir beyond m f).
Proof.
  induction f as [|f IH]; intros ppi cb v out Hv Hout Hlen.
  - pose proof (tracked_bound v Hv). lia.
  - cbn [read_dir].
    destruct (get_page_stack_total beyond m ppi) as (s & Hs & Hfin & _).
    rewrite Hs.
    destruct (CPageStack.valid s).
    2:{ exists v, out. repeat split; try done; apply Hv. }
    unfold CPageStack.iter. rewrite Hfin.
    apply (dir_pages_ends f); try done.
    by eapply page_stack_int32.
Qed.

Lemma orphan_pages_ends : forall pages v out,
  (forall ppi pdata, (ppi, pdata) ∈ pages -> len pdata = PAGE_SIZE) ->
  tracked v -> Forall (fun e => listed (snd e)) out ->
  returns (orphan_pages beyond m pages (Some v, out)) v.
Proof.
  induction pages as [|[ppi pdata] r IH]; intros v out Hpages Hv Hout;
    cbn [orphan_pages fst snd].
  - exists v, out. repeat split; try done; apply Hv.
  - assert (forall ppi0 pdata0, (ppi0, pdata0) ∈ r -> len pdata0 = PAGE_SIZE) as Hr.
    { intros ? ? ?. eapply Hpages. by right. }
    destruct (CMeta.visited_mem ppi v); [by apply IH|].
    destruct (process_items_ends (read_dir_fuel m) (read_dir beyond m (read_dir_fuel m))
                pdata (read_dir_ends_within _) (Hpages ppi pdata ltac:(by left))
                (seq 0 21) (fun dirname => dirname) v out)
      as (v1 & out1 & E & Hv1 & Hl1 & Hout1); try done.
    { apply Forall_forall. intros i Hi%elem_of_seq. lia. }
    { unfold read_dir_fuel. lia. }
    unfold process_dir_page. rewrite E.
    destruct (IH v1 out1 Hr Hv1 Hout1) as (v2 & out2 & -> & Hv2 & Hl2 & Hout2).
    exists v2, out2. repeat split; try done; try apply Hv2. lia.
Qed.

End Ends.

(** X25 (CMeta::read_dir, process_dir_page, vLoadFile).  With pages
    tracked, reading a directory returns on every store of no more than
    2^31 banks shorter than 2^43 bytes, however its pages point at each
    other, and without an exception.  No page is in the set twice, and
    each is a page [get_page] delivers.  Every entry handed to the
    callback is a folder, an internal file or an increment (external files
    and patches are left out) with a name of 1 to 128 characters, and a
    folder or file has a valid page id. *)
Theorem read_dir_ends (m : CMeta.t) (dir_ppi : PhysPageId) (cb : string -> string) :
  Z.of_nat (length (CMeta.m_banks m)) <= 2 ^ 31 ->
  Forall (fun bank => len bank < 2 ^ 43) (CMeta.m_banks m) ->
  exists visited out,
    read_dir beyond m (read_dir_fuel m) dir_ppi cb (Some [], []) =
      Some (Done (Some visited, out)) /\
    NoDup visited /\
    (forall p, p ∈ visited -> p ∈ fetchable m) /\
    Forall (fun e => listed (snd e)) out.
Proof.
  intros Hn Hall.
  destruct (read_dir_ends_within m Hn Hall (read_dir_fuel m) dir_ppi cb [] [])
    as (v & out & E & [Hnd Hin] & _ & Hout).
  - split; [constructor|]. intros x Hx. by apply elem_of_nil in Hx.
  - constructor.
  - unfold read_dir_fuel. cbn [length]. lia.
  - exists v, out. done.
Qed.

(** X26 (CMeta::for_each_file).  Without the deep scan, listing all
    files of a store of no more than 2^31 banks shorter than 2^43 bytes
    returns, without an exception, whatever the pages hold; each entry
    listed is a folder, an internal file or an increment with a name of
    1 to 128 characters. *)
Theorem for_each_file_ends (m : CMeta.t) :
  Z.of_nat (length (CMeta.m_banks m)) <= 2 ^ 31 ->
  Forall (fun bank => len bank < 2 ^ 43) (CMeta.m_banks m) ->
  exists visited out,
    for_each_file beyond m false [] = Some (Done (Some visited, out)) /\
    Forall (fun e => listed (snd e)) out.
Proof.
  intros Hn Hall. unfold for_each_file.
  destruct (read_dir_ends_within m Hn Hall (read_dir_fuel m) (PPI 0 0)
              (fun fname => fname) [] [])
    as (v1 & out1 & -> & Hv1 & _ & Hout1).
  { split; [constructor|]. intros x Hx. by apply elem_of_nil in Hx. }
  { constructor. }
  { unfold read_dir_fuel. cbn [length]. lia. }
  unfold CMetaPages.for_each_page.
  destruct (banks_loop_spec (CMeta.m_banks m) 0 Hall) as (pages & -> & Hin).
  destruct (orphan_pages_ends m Hn Hall pages v1 out1)
    as (v2 & out2 & -> & _ & _ & Hout2); try done.
  - intros ppi pdata (k & bank & q & _ & Hq & Hfull & [= _ ->] & _)%Hin.
    unfold slice, len, PAGE_SIZE in *.
    rewrite length_take, length_drop. lia.
  - by exists v2, out2.
Qed.

End Directories.

Lemma read_dir_ends_witness :
  exists visited out,
    Dir.read_dir no_slack Dir.looping_store (Dir.read_dir_fuel Dir.looping_store) (PPI 0 0) (fun s => s)
             (Some [], []) = Some (Done (Some visited, out)) /\
    NoDup visited /\
    (forall p, p ∈ visited -> p ∈ Dir.fetchable Dir.looping_store) /\
    Forall (fun e => Dir.listed (snd e)) out.
Proof.
  apply read_dir_ends.
  - vm_compute. congruence.
  - constructor; [|constructor]. vm_compute. reflexivity.
Defined.

(** The folder that holds itself is listed once. *)
Example read_dir_looping_store :
  match Dir.read_dir no_slack Dir.looping_store (Dir.read_dir_fuel Dir.looping_store) (PPI 0 0)
          (fun s => s) (Some [], []) with
  | Some (Done (visited, out)) =>
      visited = Some [PPI 0 1] /\ map fst out = ["a.bin"; "sub"]%string
  | _ => False
  end.
Proof. vm_compute. done. Qed.


Lemma for_each_file_ends_witness :
  exists visited out,
    Dir.for_each_file no_slack Dir.looping_store false [] =
      Some (Done (Some visited, out)) /\
    Forall (fun e => Dir.listed (snd e)) out.
Proof.
  apply for_each_file_ends.
  - vm_compute. congruence.
  - constructor; [|constructor]. vm_compute. reflexivity.
Defined.

(** The page of the root directory is met again as a page of the bank
    and left out; the index page is read as a directory page and holds
    no entry. *)
Example for_each_file_looping_store :
  match Dir.for_each_file no_slack Dir.looping_store false [] with
  | Some (Done (_, out)) => map fst out = ["a.bin"; "sub"]%string
  | _ => False
  end.
Proof. vm_compute. done. Qed.

(** ** Reading files and devices *)

Section ReaderProps.
Import Reader.

Variable file : buf_t.
Variable sys_read : Z -> Z -> outcome buf_t.
Hypothesis sys_ok : reads_file file sys_read.

Lemma take_take_length {A} (k : nat) (l : list A) :
  take (length (take k l)) l = take k l.
Proof.
  rewrite length_take. destruct (Nat.le_gt_cases k (length l)).
  - by rewrite Nat.min_l.
  - rewrite Nat.min_r by lia. by rewrite !take_ge by lia.
Qed.

Lemma read_loop_spec (offset count : Z) :
  0 <= offset -> 0 <= count < 2 ^ 64 ->
  forall fuel out,
    out = slice (Z.to_nat offset) (length out) file ->
    len out <= count -> count - len out < Z.of_nat fuel ->
    read_loop sys_read fuel offset count out =
      Some (Done (slice (Z.to_nat offset) (Z.to_nat count) file)).
Proof.
  intros Ho Hc. induction fuel as [|f IH]; intros out Hout Hle Hfuel; [lia|].
  cbn [read_loop]. unfold len in *.
  destruct (Z.ltb_spec (Z.of_nat (length out)) count) as [Hlt|Hge]; cbn [negb].
  2:{ do 2 f_equal. rewrite Hout at 1. f_equal. lia. }
  rewrite (u64_small (count - Z.of_nat (length out))) by lia.
  set (to_read := Z.min chunk_size (count - Z.of_nat (length out))).
  assert (0 < to_read <= count - Z.of_nat (length out)) as Hto
    by (unfold to_read, chunk_size; lia).
  destruct (sys_ok (offset + Z.of_nat (length out)) to_read) as (j & Hj & ->); [lia..|].
  set (L := drop (Z.to_nat offset) file) in *.
  assert (length out <= length L)%nat as HoutL.
  { rewrite Hout. unfold slice. fold L. rewrite length_take. lia. }
  assert (slice (Z.to_nat (offset + Z.of_nat (length out))) (Z.to_nat to_read) file
          = take (Z.to_nat to_read) (drop (length out) L)) as Esl.
  { unfold slice, L. rewrite drop_drop. do 2 f_equal. lia. }
  rewrite Esl, take_take.
  set (k := (j `min` Z.to_nat to_read)%nat).
  assert (0 < k)%nat as Hk by (unfold k; lia).
  set (d := take k (drop (length out) L)).
  destruct (Z.eqb_spec (Z.of_nat (length d)) 0) as [Hz|Hnz].
  - (* end of the file *)
    assert (length (drop (length out) L) = O) as Hend.
    { unfold d in Hz. rewrite length_take in Hz. lia. }
    rewrite length_drop in Hend.
    do 2 f_equal. rewrite Hout at 1. unfold slice. fold L.
    rewrite !take_ge by lia. done.
  - apply IH.
    + rewrite length_app. unfold slice. fold L.
      rewrite <- take_take_drop. f_equal.
      * rewrite Hout at 1. done.
      * unfold d. by rewrite take_take_length.
    + rewrite length_app. unfold d. rewrite length_take. lia.
    + rewrite length_app. lia.
Qed.

Lemma locked_read_at_spec (offset count : Z) :
  0 <= offset -> 0 <= count < 2 ^ 64 ->
  locked_read_at sys_read count offset =
    Some (Done (slice (Z.to_nat offset) (Z.to_nat count) file)).
Proof.
  intros Ho Hc. unfold locked_read_at.
  apply read_loop_spec; try done; cbn [length]; unfold len; cbn [length]; lia.
Qed.

(** X27 (Reader::locked_read_at).  Whatever pieces the system call
    delivers, at least a byte each while there is one, the buffer ends
    up with the bytes of the file from [offset] on, [count] of them or
    as many as there are. *)
Theorem locked_read_at_whole (offset count : Z) :
  0 <= offset -> 0 <= count < 2 ^ 64 ->
  locked_read_at sys_read count offset =
    Some (Done (slice (Z.to_nat offset) (Z.to_nat count) file)).
Proof. exact (locked_read_at_spec offset count). Qed.

Lemma land_lnot_pow2 x k :
  0 <= k -> Z.land x (Z.lnot (2 ^ k - 1)) = x - x mod 2 ^ k.
Proof.
  intros Hk. rewrite <- Z.ldiff_land.
  replace (2 ^ k - 1) with (Z.ones k) by (rewrite Z.ones_equiv; lia).
  rewrite Z.ldiff_ones_r by done.
  rewrite Z.shiftr_div_pow2, Z.shiftl_mul_pow2 by done.
  pose proof (Z.div_mod x (2 ^ k)) as H.
  assert (0 < 2 ^ k) by (apply Z.pow_pos_nonneg; lia). lia.
Qed.

Variable r : t.
Hypothesis size_ok : m_size r = len file.
Hypothesis file_bound : len file < 2 ^ 62.

(** The last branch of [read_at]: no alignment asked for, or offset and
    count are aligned. *)
Lemma read_at_direct (fuel : nat) (offset count : Z) :
  0 <= offset < 2 ^ 62 -> 0 <= count < 2 ^ 63 ->
  m_align r = 0 \/ (count mod m_align r = 0 /\ offset mod m_align r = 0) ->
  read_at sys_read (S fuel) r offset count =
    Some (Done (len (slice (Z.to_nat offset) (Z.to_nat count) file),
                slice (Z.to_nat offset) (Z.to_nat count) file)).
Proof.
  intros Ho Hc Hal. cbn [read_at].
  destruct (Z.ltb_spec offset 0); [lia|].
  rewrite size_ok, (u64_small offset), (u64_small (offset + count)) by lia.
  assert (0 <= len file) as Hlen0 by (unfold len; lia).
  destruct (Z.leb_spec (len file) offset) as [Hend|Hin].
  { unfold slice, len. rewrite drop_ge by (unfold len in Hend; lia). by rewrite take_nil. }
  replace (negb (m_align r =? 0) &&
           (negb (count mod m_align r =? 0) || negb (offset mod m_align r =? 0)))
    with false.
  2:{ destruct Hal as [->|[-> ->]]; [done|]. cbn. by rewrite andb_false_r. }
  rewrite andb_false_r.
  set (count' := if negb (m_align r =? 0) && (len file <? offset + count)
                 then u64 (len file - offset) else count).
  assert (0 <= count' < 2 ^ 64 /\
          slice (Z.to_nat offset) (Z.to_nat count') file =
          slice (Z.to_nat offset) (Z.to_nat count) file) as [Hc' Esl].
  { unfold count'.
    destruct (negb (m_align r =? 0) && (len file <? offset + count)) eqn:E.
    - apply andb_prop in E as [_ E%Z.ltb_lt].
      rewrite u64_small by lia. split; [lia|].
      unfold slice, len in *. rewrite !take_ge; [done|..]; rewrite length_drop; lia.
    - split; [lia|done]. }
  rewrite locked_read_at_spec by lia. rewrite Esl.
  replace (s64 _ =? -1) with false; [done|].
  symmetry. apply Z.eqb_neq.
  assert (0 <= len (slice (Z.to_nat offset) (Z.to_nat count) file) < 2 ^ 62) as Hs.
  { unfold slice, len in *. rewrite length_take, length_drop. lia. }
  unfold s64, signed. rewrite Z.mod_small by lia.
  destruct (Z.ltb_spec (len (slice (Z.to_nat offset) (Z.to_nat count) file)) (2 ^ (64 - 1)));
    lia.
Qed.

(** The branch of [read_at] for a read that is not aligned. *)
Lemma read_at_shifted (offset count k : Z) :
  0 <= k < 32 -> m_align r = 2 ^ k ->
  0 <= offset < 2 ^ 62 -> 0 <= count < 2 ^ 62 ->
  count mod m_align r <> 0 \/ offset mod m_align r <> 0 ->
  read_at sys_read 2 r offset count =
    Some (Done (len (slice (Z.to_nat offset) (Z.to_nat count) file),
                slice (Z.to_nat offset) (Z.to_nat count) file)).
Proof.
  intros Hk Ha Ho Hc Hne.
  assert (0 <= len file) as Hlen0 by (unfold len; lia).
  assert (0 < m_align r <= 2 ^ 31) as Hpos.
  { rewrite Ha. split; [apply Z.pow_pos_nonneg; lia|].
    apply Z.pow_le_mono_r; lia. }
  remember 1%nat as one eqn:Hone.
  cbn [read_at]. subst one.
  destruct (Z.ltb_spec offset 0); [lia|].
  rewrite size_ok, (u64_small offset) by lia.
  destruct (Z.leb_spec (len file) offset) as [Hend|Hin].
  { unfold slice, len. rewrite drop_ge by (unfold len in Hend; lia). by rewrite take_nil. }
  replace (negb (m_align r =? 0) &&
           (negb (count mod m_align r =? 0) || negb (offset mod m_align r =? 0)))
    with true.
  2:{ symmetry. apply andb_true_intro. split.
      - apply negb_true_iff, Z.eqb_neq. lia.
      - apply orb_true_iff.
        destruct Hne; [left|right]; by apply negb_true_iff, Z.eqb_neq. }
  cbv zeta.
  set (a := m_align r) in *.
  set (shift := offset mod a).
  assert (0 <= shift < a) as Hsh by (apply Z.mod_pos_bound; lia).
  assert (shift <= offset) as Hsho by (apply Z.mod_le; lia).
  rewrite (u64_small (a * 2)), (u64_small (a - 1)), (u64_small (count + a * 2)) by lia.
  rewrite Ha, land_lnot_pow2, <- Ha by lia.
  set (count' := count + a * 2 - (count + a * 2) mod a).
  assert (count + a <= count' <= count + a * 2 /\ count' mod a = 0) as [Hc' Hc'0].
  { unfold count'.
    pose proof (Z.mod_pos_bound (count + a * 2) a ltac:(lia)).
    split; [lia|]. rewrite Zminus_mod, Zmod_mod, Z.sub_diag. done. }
  assert (s64 (offset - shift) = offset - shift) as ->.
  { unfold s64, signed. rewrite Z.mod_small by lia.
    destruct (Z.ltb_spec (offset - shift) (2 ^ (64 - 1))); lia. }
  rewrite read_at_direct;
    [|lia|lia|right; split; [exact Hc'0|unfold shift;
       rewrite Zminus_mod, Zmod_mod, Z.sub_diag; done]].
  set (data := slice (Z.to_nat (offset - shift)) (Z.to_nat count') file).
  assert (len data = Z.min count' (len file - (offset - shift))) as Hdata.
  { unfold data, slice, len in *. rewrite length_take, length_drop. lia. }
  rewrite (u64_small (len data - shift)) by lia.
  set (count2 := if len data - shift <? count then len data - shift else count).
  assert (count2 = Z.min count (len file - offset)) as Hc2.
  { unfold count2. destruct (Z.ltb_spec (len data - shift) count); lia. }
  assert (slice (Z.to_nat shift) (Z.to_nat count2)
            (take (Z.to_nat (count + a * 2))
               (data ++ replicate (Z.to_nat (count + a * 2)) Byte.x00))
          = slice (Z.to_nat offset) (Z.to_nat count) file) as ->.
  { unfold slice at 1.
    assert (Z.to_nat shift + Z.to_nat count2 <= length data)%nat as Hfit
      by (unfold len in *; lia).
    rewrite skipn_firstn_comm, take_take.
    rewrite (Nat.min_l (Z.to_nat count2)) by lia.
    rewrite drop_app_le by lia.
    rewrite take_app_le by (rewrite length_drop; lia).
    unfold data, slice. rewrite skipn_firstn_comm, take_take, drop_drop.
    replace (Z.to_nat (offset - shift) + Z.to_nat shift)%nat
      with (Z.to_nat offset) by lia.
    rewrite (Nat.min_l (Z.to_nat count2)) by lia.
    unfold len in *.
    destruct (Z.le_gt_cases count (Z.of_nat (length file) - offset)).
    - f_equal. lia.
    - rewrite !take_ge; [done|..]; rewrite length_drop; lia. }
  do 3 f_equal. rewrite Hc2. unfold slice, len.
  rewrite length_take, length_drop. unfold len in *. lia.
Qed.

(** X28 (Reader::read_at).  Reading a device in whole sectors does not
    show: for a sector size that is a power of two, and for no alignment
    at all, [read_at] gives the bytes of the file from [offset] on,
    [count] of them or as many as there are, and their number. *)
Theorem read_at_aligned (offset count k : Z) :
  (m_align r = 0 \/ (0 <= k < 32 /\ m_align r = 2 ^ k)) ->
  0 <= offset < 2 ^ 62 -> 0 <= count < 2 ^ 62 ->
  read_at sys_read 2 r offset count =
    Some (Done (len (slice (Z.to_nat offset) (Z.to_nat count) file),
                slice (Z.to_nat offset) (Z.to_nat count) file)).
Proof.
  intros Hal Ho Hc.
  destruct Hal as [Hz|[Hk Ha]]; [apply read_at_direct; auto; lia|].
  destruct (Z.eq_dec (count mod m_align r) 0) as [Ec|Ec];
    [destruct (Z.eq_dec (offset mod m_align r) 0) as [Eo|Eo]|].
  - apply read_at_direct; auto; lia.
  - eapply read_at_shifted; eauto.
  - eapply read_at_shifted; eauto.
Qed.

End ReaderProps.

Lemma slow_device_reads file : Reader.reads_file file (Reader.slow_device file).
Proof. intros pos n _ _. exists 7%nat. split; [lia|done]. Qed.

Lemma locked_read_at_whole_witness :
  Reader.locked_read_at (Reader.slow_device Reader.numbered) 20 3 =
    Some (Done (slice 3 20 Reader.numbered)).
Proof.
  apply (locked_read_at_whole Reader.numbered (Reader.slow_device Reader.numbered)
           (slow_device_reads _) 3 20); lia.
Defined.

Lemma read_at_aligned_witness :
  Reader.read_at (Reader.slow_device Reader.numbered) 2 (Reader.mk 8 40) 5 6 =
    Some (Done (6, slice 5 6 Reader.numbered)).
Proof.
  apply (read_at_aligned Reader.numbered (Reader.slow_device Reader.numbered)
           (slow_device_reads _) (Reader.mk 8 40) eq_refl ltac:(vm_compute; reflexivity)
           5 6 3); [right; split; [lia|reflexivity]|lia|lia].
Defined.

(** ** Resuming an extraction *)

Section Resumed.
Import Resume.

Lemma count_sparse_spec (k : Z) : forall blocks i skipped,
  0 <= i -> 0 <= skipped -> skipped + Z.of_nat (length blocks) < 2 ^ 64 ->
  count_sparse i k blocks skipped =
  skipped + Z.of_nat (length (filter (fun b => vb_is_empty b = true)
                                     (take (Z.to_nat (k - i)) blocks))).
Proof.
  induction blocks as [|b r IH]; intros i skipped Hi Hs Hb; cbn [count_sparse].
  - rewrite take_nil. cbn. lia.
  - cbn [length] in Hb.
    destruct (Z.ltb_spec i k) as [Hlt|Hge].
    + replace (Z.to_nat (k - i)) with (S (Z.to_nat (k - (i + 1)))) by lia.
      cbn [take]. rewrite filter_cons.
      destruct (vb_is_empty b) eqn:Eb.
      * rewrite decide_True by done. unfold Extract.incr.
        rewrite IH; rewrite ?u64_small; try lia. cbn [length]. lia.
      * rewrite decide_False by congruence. rewrite IH; try lia.
    + replace (Z.to_nat (k - i)) with O by lia. cbn. lia.
Qed.

Lemma skipped_blocks_dropped vcrc32 lz4 zlib zstd md5 ctx vFile (k : Z) :
  forall blocks i s,
    0 <= i <= k ->
    Extract.process_blocks vcrc32 lz4 zlib zstd md5 ctx vFile k i blocks s =
    Extract.process_blocks vcrc32 lz4 zlib zstd md5 ctx vFile 0 0
      (drop (Z.to_nat (k - i)) blocks) s.
Proof.
  assert (forall blocks i j s, k <= i -> 0 <= j ->
            Extract.process_blocks vcrc32 lz4 zlib zstd md5 ctx vFile k i blocks s =
            Extract.process_blocks vcrc32 lz4 zlib zstd md5 ctx vFile 0 j blocks s)
    as Hany.
  { induction blocks as [|b r IH]; intros i j s Hi Hj; cbn [Extract.process_blocks];
      [done|].
    destruct (Z.ltb_spec i k); [lia|]. destruct (Z.ltb_spec j 0); [lia|].
    destruct (Extract.process_block _ _ _ _ _ _ _ _ _); [|done].
    apply IH; lia. }
  induction blocks as [|b r IH]; intros i s Hi.
  - by rewrite drop_nil.
  - destruct (Z.ltb_spec i k) as [Hlt|Hge].
    + cbn [Extract.process_blocks]. destruct (Z.ltb_spec i k); [|lia].
      replace (Z.to_nat (k - i)) with (S (Z.to_nat (k - (i + 1)))) by lia.
      cbn [drop]. apply IH. lia.
    + replace (Z.to_nat (k - i)) with O by lia. rewrite drop_0.
      apply Hany; lia.
Qed.

End Resumed.

(** X29 (ExtractContext::process_file, resume).  Resuming over an output
    file of less than three blocks skips nothing; over a longer one it
    does not truncate, skips all but the last two whole blocks of the
    file and starts writing there, so that between two and three blocks
    are written again.  The counters start with the skipped blocks, the
    empty ones among them as sparse and the others as OK, and the loop
    then runs over the blocks after the skipped ones as a loop that skips
    none does. *)
Theorem resume_plan_spec (vFile : CMeta.VFile) (existing_size : Z)
    (blocks : list VBlockDesc) :
  0 <= existing_size < 2 ^ 62 -> Z.of_nat (length blocks) < 2 ^ 62 ->
  let p := Resume.plan_resume vFile existing_size blocks in
  let k := Resume.blocks_to_skip p in
  (existing_size < 3 * BLOCK_SIZE ->
     k = 0 /\ Resume.should_truncate p = negb (CMeta.is_diff vFile) /\
     Resume.open_writer k = Done (Writer.mk 0 [])) /\
  (3 * BLOCK_SIZE <= existing_size ->
     0 < k /\ Resume.should_truncate p = false /\
     existing_size - 3 * BLOCK_SIZE < k * BLOCK_SIZE <= existing_size - 2 * BLOCK_SIZE /\
     exists w, Resume.open_writer k = Done w /\ Writer.pos w = k * BLOCK_SIZE) /\
  Extract.sparse_blocks (Resume.fti_start p) =
    Z.of_nat (length (filter (fun b => vb_is_empty b = true) (take (Z.to_nat k) blocks))) /\
  Extract.nOK (Resume.fti_start p) + Extract.sparse_blocks (Resume.fti_start p) = k /\
  (forall vcrc32 lz4 zlib zstd md5 ctx s,
     Extract.process_blocks vcrc32 lz4 zlib zstd md5 ctx vFile k 0 blocks s =
     Extract.process_blocks vcrc32 lz4 zlib zstd md5 ctx vFile 0 0
       (drop (Z.to_nat k) blocks) s).
Proof.
  intros He Hb p k.
  assert (Z.quot existing_size BLOCK_SIZE = existing_size / BLOCK_SIZE) as Eq
    by (apply Z.quot_div_nonneg; unfold BLOCK_SIZE; lia).
  set (eb := existing_size / BLOCK_SIZE).
  assert (0 <= eb < 2 ^ 62 /\ eb * BLOCK_SIZE <= existing_size < (eb + 1) * BLOCK_SIZE)
    as [Heb Hdiv].
  { unfold eb, BLOCK_SIZE. split; Z.div_mod_to_equations; lia. }
  assert (k = if 2 <=? eb then eb - 2 else 0) as Ek.
  { unfold k, p, Resume.plan_resume. cbn [Resume.blocks_to_skip].
    rewrite Eq. fold eb. rewrite (u64_small eb) by lia.
    destruct (Z.leb_spec 2 eb); [|done]. apply u64_small. lia. }
  assert (Resume.should_truncate p = if 0 <? k then false else negb (CMeta.is_diff vFile))
    as Et by done.
  assert (0 <= k < 2 ^ 62) as Hk by (rewrite Ek; destruct (Z.leb_spec 2 eb); lia).
  assert (Extract.sparse_blocks (Resume.fti_start p) =
          Z.of_nat (length (filter (fun b => vb_is_empty b = true)
                                   (take (Z.to_nat k) blocks)))) as Es.
  { change (Extract.sparse_blocks (Resume.fti_start p))
      with (Resume.count_sparse 0 k blocks 0).
    rewrite count_sparse_spec by lia. rewrite Z.sub_0_r. lia. }
  assert (Z.of_nat (length (filter (fun b => vb_is_empty b = true)
                                   (take (Z.to_nat k) blocks))) <= k) as Hle.
  { pose proof (length_filter (fun b => vb_is_empty b = true) (take (Z.to_nat k) blocks)).
    rewrite length_take in *. lia. }
  unfold BLOCK_SIZE in *.
  split; [|split; [|split; [|split]]].
  - intros Hsmall.
    assert (k = 0) as E0 by (rewrite Ek; destruct (Z.leb_spec 2 eb); lia).
    rewrite Et, E0. done.
  - intros Hbig.
    assert (k = eb - 2 /\ 0 < k) as [E1 E2]
      by (rewrite Ek; destruct (Z.leb_spec 2 eb); lia).
    rewrite Et. destruct (Z.ltb_spec 0 k); [|lia].
    split; [done|]. split; [done|]. split; [lia|].
    unfold Resume.open_writer. destruct (Z.ltb_spec 0 k); [|lia].
    unfold BLOCK_SIZE. rewrite (u64_small (k * 1048576)) by lia.
    assert (s64 (k * 1048576) = k * 1048576) as ->.
    { unfold s64, signed. rewrite Z.mod_small by lia.
      destruct (Z.ltb_spec (k * 1048576) (2 ^ (64 - 1))); lia. }
    unfold Writer.seek. destruct (Z.ltb_spec (k * 1048576) 0); [lia|].
    eexists. split; [done|done].
  - exact Es.
  - rewrite Es.
    change (Extract.nOK (Resume.fti_start p))
      with (u64 (k - Resume.count_sparse 0 k blocks 0)).
    rewrite count_sparse_spec by lia. rewrite Z.sub_0_r, Z.add_0_l.
    rewrite u64_small by lia. lia.
  - intros. rewrite skipped_blocks_dropped by lia. by rewrite Z.sub_0_r.
Qed.

Lemma resume_plan_spec_witness :
  Resume.blocks_to_skip
    (Resume.plan_resume Resume.tail_file (3 * BLOCK_SIZE) Resume.tail_blocks) = 1 /\
  Extract.nOK (Resume.fti_start
    (Resume.plan_resume Resume.tail_file (3 * BLOCK_SIZE) Resume.tail_blocks)) +
  Extract.sparse_blocks (Resume.fti_start
    (Resume.plan_resume Resume.tail_file (3 * BLOCK_SIZE) Resume.tail_blocks)) = 1.
Proof.
  split; [vm_compute; reflexivity|].
  refine (proj1 (proj2 (proj2 (proj2
    (resume_plan_spec Resume.tail_file (3 * BLOCK_SIZE) Resume.tail_blocks _ _))))).
  - vm_compute. split; [congruence|reflexivity].
  - vm_compute. reflexivity.
Defined.

(** The size of the file is not brought down by the blocks skipped, so
    a resumed run does not cut the last block to the size of the file:
    the sample file ends three bytes later than when extracted in one
    go. *)
Example resumed_tail_is_longer :
  Resume.end_pos (Resume.run_tail 0 (Samples.start Resume.tail_file))
    = Some (3 * BLOCK_SIZE + 1) /\
  (exists w,
     Resume.open_writer 1 = Done w /\
     Resume.end_pos
       (Resume.run_tail 1
          (Resume.resumed_state Resume.tail_file
             (Resume.plan_resume Resume.tail_file (3 * BLOCK_SIZE) Resume.tail_blocks)
             w (LruSet.mk 16 []) ∅))
       = Some (3 * BLOCK_SIZE + 4)).
Proof.
  split; [vm_compute; reflexivity|].
  eexists. split; [vm_compute; reflexivity|]. vm_compute. reflexivity.
Qed.

(** ** Choosing the files to extract *)

Section Selection.
Import Select.

Lemma has_char_spec c s : has_char c s = true <-> c ∈ s.
Proof.
  unfold has_char. rewrite existsb_exists. split.
  - intros (x & Hx%list_elem_of_In & ->%Ascii.eqb_eq). done.
  - intros H. exists c. split; [by apply list_elem_of_In|apply Ascii.eqb_refl].
Qed.

Lemma find_last_of_none c s : find_last_of c s = None <-> c ∉ s.
Proof.
  induction s as [|x r IH]; cbn.
  - split; [intros _; apply not_elem_of_nil|done].
  - destruct (find_last_of c r) as [i|].
    + split; [done|]. intros H. exfalso.
      assert (c ∉ r) as Hr by (intros ?; apply H; by right).
      by apply IH in Hr.
    + destruct (Ascii.eqb_spec x c) as [->|Hne].
      * split; [done|]. intros H. exfalso. apply H. by left.
      * split; [|done]. intros _ [?|?]%elem_of_cons; [congruence|].
        by apply (proj1 IH).
Qed.

Lemma find_last_of_app c d x :
  c ∉ x -> find_last_of c (d ++ c :: x) = Some (length d).
Proof.
  intros Hx. induction d as [|y d IH]; cbn.
  - apply find_last_of_none in Hx as ->. by rewrite Ascii.eqb_refl.
  - by rewrite IH.
Qed.

Lemma find_last_of_some c s i :
  find_last_of c s = Some i -> s !! i = Some c.
Proof.
  revert i. induction s as [|x r IH]; intros i; cbn; [done|].
  destruct (find_last_of c r) as [j|].
  - intros [= <-]. cbn. by apply IH.
  - destruct (Ascii.eqb_spec x c) as [->|]; [|done]. by intros [= <-].
Qed.

(** The part of a path after its last slash is [name]. *)
Lemma basename_spec (pathname name : list ascii) :
  "/"%char ∉ name ->
  drop (match find_last_of "/" pathname with None => O | Some p => S p end) pathname
    = name <->
  exists dir, pathname = dir ++ name /\ (dir = [] \/ last dir = Some "/"%char).
Proof.
  intros Hn. split.
  - intros H. destruct (find_last_of "/" pathname) as [i|] eqn:E.
    + exists (take (S i) pathname). split; [by rewrite <- H, take_drop|].
      right. apply find_last_of_some in E.
      rewrite (take_S_r _ _ _ E). by rewrite last_snoc.
    + exists []. rewrite drop_0 in H. by split; [|left].
  - intros (dir & -> & [->|Hl]).
    + cbn [app]. apply find_last_of_none in Hn as ->. by rewrite drop_0.
    + destruct dir as [|y dir] using rev_ind; [done|].
      rewrite last_snoc in Hl. inversion Hl; subst.
      rewrite <- app_assoc. cbn [app].
      rewrite find_last_of_app by done.
      change (dir ++ "/"%char :: name) with (dir ++ ["/"%char] ++ name).
      rewrite app_assoc. apply drop_app_length'. rewrite length_app. cbn. lia.
Qed.

End Selection.

(** A name without a colon, or of ten characters and more, is not read
    as a page id. *)
Lemma needle_of_name sscanf_ids (name : list ascii) :
  ":"%char ∉ name \/ (10 <= length name)%nat ->
  Select.needle sscanf_ids name = INVALID_PPI.
Proof.
  intros H. unfold Select.needle.
  destruct (Select.has_char ":" name) eqn:Ec; [|done].
  destruct (Nat.ltb_spec (length name) 10) as [Hl|Hl]; [|done].
  destruct H as [H|H]; [|lia]. apply has_char_spec in Ec. done.
Qed.

(** X30 (MDCommand::extract_file, ExtractContext::process_file).  An
    extraction never takes a folder.  When the name given is read as a
    valid page id, it takes the entries whose page stack starts at that
    page.  Otherwise it takes all entries when the name is empty; those
    whose whole path the pattern stands for when the name has a star or
    a question mark; the one whose path is the name when the name has a
    slash; and else those whose path ends with the name after a slash,
    or is the name.  A name without a colon, or of ten characters and
    more, is never read as a page id. *)
Theorem extract_selection (sscanf_ids : list ascii -> Z * Z)
    (name pathname : list ascii) (vFile : CMeta.VFile) :
  "*"%char ∉ pathname ->
  (exists b,
     Select.selected (Select.extract_filter sscanf_ids name) pathname vFile = Some b /\
     (b = true <->
      CMeta.is_dir vFile = false /\
      ((ppi_valid (Select.needle sscanf_ids name) = true /\
        CMeta.ppi (CMeta.attribs vFile) = Select.needle sscanf_ids name) \/
       (ppi_valid (Select.needle sscanf_ids name) = false /\
        (name = [] \/
         (Select.is_glob name = true /\ Glob.matches name pathname) \/
         (Select.is_glob name = false /\ ("/"%char ∈ name) /\ pathname = name) \/
         (Select.is_glob name = false /\ ("/"%char ∉ name) /\ name <> [] /\
          exists dir, pathname = dir ++ name /\
                      (dir = [] \/ last dir = Some "/"%char))))))) /\
  (":"%char ∉ name \/ (10 <= length name)%nat ->
   Select.needle sscanf_ids name = INVALID_PPI /\
   ppi_valid (Select.needle sscanf_ids name) = false).
Proof.
  intros Hstar. split; [|intros H; by rewrite (needle_of_name _ _ H)].
  unfold Select.selected, Select.extract_filter.
  cbn [Select.needle_ppi Select.xname Select.xname_is_glob Select.xname_is_full].
  destruct (CMeta.is_dir vFile).
  { exists false. split; [done|]. split; [done|by intros [? _]]. }
  destruct (ppi_valid (Select.needle sscanf_ids name)) eqn:Ev.
  { eexists. split; [done|]. rewrite ppi_eqb_eq. split.
    - intros H. split; [done|]. left. done.
    - intros [_ [[_ H]|[? _]]]; done. }
  destruct (decide (name = [])) as [->|Hne].
  { exists true. cbn. split; [done|]. split; [|done].
    intros _. split; [done|]. right. split; [done|]. by left. }
  rewrite bool_decide_eq_false_2 by done. cbn [negb].
  destruct (Select.is_glob name) eqn:Eg.
  - destruct (simple_glob_match_spec name pathname) as [[b Hb] Hm].
    exists b. split; [done|]. specialize (Hm Hstar). rewrite Hb in Hm.
    assert (b = true <-> Glob.matches name pathname) as Hb'.
    { rewrite <- Hm. split; [by intros ->|by intros [= ->]]. }
    rewrite Hb'. split.
    + intros H. split; [done|]. right. split; [done|]. right; left. done.
    + intros [_ [[? _]|[_ [?|[[_ H]|[[? _]|[? _]]]]]]]; done.
  - destruct (Select.has_char "/" name) eqn:Es.
    + apply has_char_spec in Es. eexists. split; [done|].
      rewrite bool_decide_eq_true. split.
      * intros ->. split; [done|]. right. split; [done|]. right; right; left. done.
      * intros [_ [[? _]|[_ [?|[[? _]|[(_ & _ & ?)|(_ & ? & _)]]]]]]; done.
    + assert ("/"%char ∉ name) as Hs.
      { intros H%has_char_spec. congruence. }
      eexists. split; [done|].
      rewrite bool_decide_eq_true, basename_spec by done. split.
      * intros H. split; [done|]. right. split; [done|]. right; right; right. done.
      * intros [_ [[? _]|[_ [?|[[? _]|[(_ & ? & _)|(_ & _ & _ & H)]]]]]]; done.
Qed.

Lemma extract_selection_witness :
  Select.selected (Select.extract_filter Select.hex_ids (list_ascii_of_string "disk.vmdk"))
    (list_ascii_of_string "vm/disk.vmdk") Samples.one_byte_file = Some true /\
  Select.needle Select.hex_ids (list_ascii_of_string "disk.vmdk") = INVALID_PPI.
Proof.
  assert ("*"%char ∉ list_ascii_of_string "vm/disk.vmdk") as Hstar.
  { cbn. intros Hin. repeat (apply elem_of_cons in Hin as [Hin|Hin]; [done|]).
    by apply elem_of_nil in Hin. }
  pose proof (extract_selection Select.hex_ids (list_ascii_of_string "disk.vmdk")
                (list_ascii_of_string "vm/disk.vmdk") Samples.one_byte_file Hstar)
    as [_ Hn].
  split; [vm_compute; reflexivity|].
  apply Hn. left. cbn. intros Hin.
  repeat (apply elem_of_cons in Hin as [Hin|Hin]; [done|]).
  by apply elem_of_nil in Hin.
Defined.

(** The name [0000:0005] (tests/MDCommand_test.cpp, extract_one_by_id)
    is read as the page id 0:5 and takes the file whose page stack
    starts there, whatever its path; the name [0:0] is not taken as a
    page id and is looked up as a file name. *)
Example selected_by_id :
  Select.needle Select.hex_ids (list_ascii_of_string "0000:0005") = PPI 0 5 /\
  Select.selected (Select.extract_filter Select.hex_ids (list_ascii_of_string "0000:0005"))
    (list_ascii_of_string "vm/summary.xml") Select.file_at_5 = Some true /\
  Select.selected (Select.extract_filter Select.hex_ids (list_ascii_of_string "0000:0005"))
    (list_ascii_of_string "0000:0005") Samples.one_byte_file = Some false /\
  Select.needle Select.hex_ids (list_ascii_of_string "0:0") = INVALID_PPI /\
  Select.selected (Select.extract_filter Select.hex_ids (list_ascii_of_string "0:0"))
    (list_ascii_of_string "vm/0:0") Samples.one_byte_file = Some true.
Proof. repeat split; vm_compute; reflexivity. Qed.
